(** * Dungeon explorer and quote client: a shallow embedding

    The development follows the two scripts of the repository.

    - [Py] holds the fragment of Python the scripts rely on: exceptions as
      values, list indexing (with negative indices), [range], [clamp],
      and the [random] module as a deterministic reader of an arbitrary
      entropy source, so that a statement quantified over all sources
      covers every run.
    - [Dungeon] embeds [python.py]: the grid, [place_random],
      [build_world], [spawn_exit], [try_move], [maybe_spawn],
      [parse_command] and one iteration of [game_loop], followed by the
      vocabulary in which the properties are stated.
    - [TrumpQuote] embeds [trump_quote.py].
    - [Samples] fixes one small game to run the statements on.
    - The modules of facts build up to [DungeonSpec] and
      [TrumpQuoteSpec], which hold the properties themselves.

    Integers are Python's unbounded [int], hence [Z]. *)

From Stdlib Require Import ZArith QArith Lia.
From stdpp Require Import base numbers list gmap strings pretty.

Local Open Scope Z_scope.

(* ===================================================================== *)
(** * The Python fragment                                                 *)
(* ===================================================================== *)

Module Py.

(** The exceptions that the list and [random] primitives can raise. *)
Inductive exn : Type :=
| IndexError
| ValueError.

(** Outcome of an expression: a value or a raised exception. *)
Inductive res (A : Type) : Type :=
| Ok (a : A)
| Raise (e : exn).
Arguments Ok {A} a.
Arguments Raise {A} e.

(** [len(l)] *)
Definition len {A} (l : list A) : Z := Z.of_nat (length l).

(** Python maps an index [i] of a sequence of length [n] to the position
    [i] when [0 <= i < n], to [n + i] when [-n <= i < 0], and raises
    [IndexError] otherwise. *)
Definition index_of (n i : Z) : option nat :=
  if bool_decide (0 <= i < n) then Some (Z.to_nat i)
  else if bool_decide (- n <= i < 0) then Some (Z.to_nat (n + i))
  else None.

(** [l[i]] *)
Definition getitem {A} (l : list A) (i : Z) : res A :=
  match index_of (len l) i with
  | Some k =>
      match l !! k with
      | Some a => Ok a
      | None => Raise IndexError
      end
  | None => Raise IndexError
  end.

(** [l[i] = a] *)
Definition setitem {A} (l : list A) (i : Z) (a : A) : res (list A) :=
  match index_of (len l) i with
  | Some k => Ok (<[k := a]> l)
  | None => Raise IndexError
  end.

(** [range(n)]: empty when [n <= 0]. *)
Definition range (n : Z) : list Z := seqZ 0 n.

(** [for i in l: s = body(i, s)], stopping at the first exception. *)
Fixpoint for_each {A S} (l : list A) (body : A -> S -> res S) (s : S) : res S :=
  match l with
  | [] => Ok s
  | i :: l' =>
      match body i s with
      | Ok s' => for_each l' body s'
      | Raise e => Raise e
      end
  end.

(** [max(lo, min(hi, n))] *)
Definition clamp (n lo hi : Z) : Z := Z.max lo (Z.min hi n).

(** ** The [random] module

    The generator is a cursor into an arbitrary sequence of raw draws.
    Each library call reads the draw under the cursor and advances it. *)
Record RNG : Type := mkRNG { source : N -> Z; cursor : N }.

Definition peek (g : RNG) : Z := source g (cursor g).
Definition advance (g : RNG) : RNG := mkRNG (source g) (N.succ (cursor g)).

(** Computations that read random draws and may raise. *)
Definition M (A : Type) : Type := RNG -> res (A * RNG).

Definition ret {A} (a : A) : M A := fun g => Ok (a, g).

Definition bind {A B} (c : M A) (k : A -> M B) : M B :=
  fun g =>
    match c g with
    | Ok (a, g') => k a g'
    | Raise e => Raise e
    end.

Definition lift {A} (r : res A) : M A :=
  fun g =>
    match r with
    | Ok a => Ok (a, g)
    | Raise e => Raise e
    end.

(** [random.randrange(start, stop)]: a value of [start .. stop - 1], every
    one of them possible; [ValueError] on an empty range.
    [random.randrange(stop)] is [randrange 0 stop]. *)
Definition randrange (start stop : Z) : M Z :=
  fun g =>
    if bool_decide (stop - start <= 0) then Raise ValueError
    else Ok (start + peek g `mod` (stop - start), advance g).

(** [random.random()]: a rational of [[0, 1)] on 53 bits. *)
Definition random : M Q :=
  fun g => Ok (Qmake (peek g `mod` 2 ^ 53) (2 ^ 53), advance g).

(** [random.choice(l)] *)
Definition choice {A} (l : list A) : M A :=
  fun g =>
    if bool_decide (len l <= 0) then Raise IndexError
    else match l !! Z.to_nat (peek g `mod` len l) with
         | Some a => Ok (a, advance g)
         | None => Raise IndexError
         end.

End Py.

Import Py.

Notation "'let!' x ':=' c 'in' k" := (bind c (fun x => k))
  (at level 10, x name, c at level 100, k at level 200, only parsing).
Notation "'let!' ' p ':=' c 'in' k" := (bind c (fun x => match x with p => k end))
  (at level 10, p pattern, c at level 100, k at level 200, only parsing).

(* ===================================================================== *)
(** * python.py                                                           *)
(* ===================================================================== *)

Module Dungeon.

(** The six symbols a grid cell holds: ['.'], ['#'], ['T'], ['X'], the
    heart and ['E']. *)
Inductive Cell : Type :=
| Floor
| Wall
| Treasure
| Trap
| Heal
| Exit.

Global Instance Cell_eq_dec : EqDecision Cell.
Proof. solve_decision. Defined.

Definition symbol (c : Cell) : string :=
  match c with
  | Floor => "."
  | Wall => "#"
  | Treasure => "T"
  | Trap => "X"
  | Heal => "❤"
  | Exit => "E"
  end.

(** A grid is a list of rows; the cell of column [x] and row [y] is
    [grid[y][x]]. *)
Abbreviation Grid := (list (list Cell)).

(** [grid[y][x]] *)
Definition grid_get (grid : Grid) (y x : Z) : res Cell :=
  match getitem grid y with
  | Ok row => getitem row x
  | Raise e => Raise e
  end.

(** [grid[y][x] = c]: the row object is updated in place. *)
Definition grid_set (grid : Grid) (y x : Z) (c : Cell) : res Grid :=
  match getitem grid y with
  | Ok row =>
      match setitem row x c with
      | Ok row' => setitem grid y row'
      | Raise e => Raise e
      end
  | Raise e => Raise e
  end.

(** [row.count(symbol)] *)
Fixpoint count_row (symbol : Cell) (row : list Cell) : Z :=
  match row with
  | [] => 0
  | c :: row' => (if decide (c = symbol) then 1 else 0) + count_row symbol row'
  end.

(** [count_symbol]: [sum(row.count(symbol) for row in grid)] *)
Definition count_symbol (grid : Grid) (symbol : Cell) : Z :=
  foldr Z.add 0 (count_row symbol <$> grid).

(** [make_grid], with the default [fill] of the only call site. *)
Definition make_grid (width height : Z) (fill : Cell) : Grid :=
  replicate (Z.to_nat height) (replicate (Z.to_nat width) fill).

(** The [while] loop of [place_random], which runs while
    [placed < count] and [tries < 10_000]; [fuel] is the number of tries
    still allowed. *)
Fixpoint place_random_loop (fuel : nat) (w h : Z) (symbol : Cell) (count : Z)
    (forbidden : gset (Z * Z)) (placed : Z) (grid : Grid) : M Grid :=
  match fuel with
  | O => ret grid
  | S fuel' =>
      if bool_decide (placed < count) then
        let! x := randrange 0 w in
        let! y := randrange 0 h in
        if bool_decide ((x, y) ∈ forbidden) then
          place_random_loop fuel' w h symbol count forbidden placed grid
        else
          let! c := lift (grid_get grid y x) in
          if bool_decide (c ≠ Floor) then
            place_random_loop fuel' w h symbol count forbidden placed grid
          else
            let! grid' := lift (grid_set grid y x symbol) in
            place_random_loop fuel' w h symbol count forbidden (placed + 1) grid'
      else ret grid
  end.

(** [place_random] *)
Definition place_random (grid : Grid) (symbol : Cell) (count : Z)
    (forbidden : gset (Z * Z)) : M Grid :=
  let h := len grid in
  let! row0 := lift (getitem grid 0) in
  let w := len row0 in
  place_random_loop 10000 w h symbol count forbidden 0 grid.

(** The world dictionary. *)
Record World : Type := mkWorld {
  grid : Grid;
  player_pos : Z * Z;
  score : Z;
  hp : Z;
  turn : Z;
  message : string;
  exit_spawned : bool;
  won : bool;
}.

Definition set_grid (g : Grid) (w : World) : World :=
  mkWorld g (player_pos w) (score w) (hp w) (turn w) (message w) (exit_spawned w) (won w).
Definition set_player_pos (p : Z * Z) (w : World) : World :=
  mkWorld (grid w) p (score w) (hp w) (turn w) (message w) (exit_spawned w) (won w).
Definition set_score (n : Z) (w : World) : World :=
  mkWorld (grid w) (player_pos w) n (hp w) (turn w) (message w) (exit_spawned w) (won w).
Definition set_hp (n : Z) (w : World) : World :=
  mkWorld (grid w) (player_pos w) (score w) n (turn w) (message w) (exit_spawned w) (won w).
Definition set_turn (n : Z) (w : World) : World :=
  mkWorld (grid w) (player_pos w) (score w) (hp w) n (message w) (exit_spawned w) (won w).
Definition set_message (m : string) (w : World) : World :=
  mkWorld (grid w) (player_pos w) (score w) (hp w) (turn w) m (exit_spawned w) (won w).
Definition set_exit_spawned (b : bool) (w : World) : World :=
  mkWorld (grid w) (player_pos w) (score w) (hp w) (turn w) (message w) b (won w).
Definition set_won (b : bool) (w : World) : World :=
  mkWorld (grid w) (player_pos w) (score w) (hp w) (turn w) (message w) (exit_spawned w) b.

(** The narration strings. *)
Definition msg_welcome : string := "Bienvenue ! Déplace-toi avec zqsd (ou wasd).".
Definition msg_exit_placed : string :=
  "✨ Tous les trésors sont ramassés ! Une sortie 'E' est apparue !".
Definition msg_exit_failed : string :=
  "⚠️ Sortie impossible à placer (carte trop remplie).".
Definition msg_wall : string := "🧱 Ouch, un mur !".
Definition msg_treasure : string := "💰 Trésor trouvé ! +10 points.".
Definition msg_trap : string := "💥 Piège ! -1 PV.".
Definition msg_heal : string := "💖 Soin ! +2 PV.".
Definition msg_victory : string := "🏁 Tu as trouvé la sortie ! VICTOIRE !".
Definition msg_flavors : list string :=
  [ "Tu avances prudemment...";
    "Rien d'intéressant ici.";
    "Le donjon est silencieux.";
    "Tu entends un bruit au loin 👀" ].
Definition msg_spawn_treasure : string := " (Un éclat doré apparaît quelque part...)".
Definition msg_spawn_trap : string := " (Une sensation de danger plane...)".
Definition msg_unknown : string := "Commande inconnue. Tape 'h' pour l'aide.".

(** The two border loops of [build_world]. *)
Definition border_rows (width height : Z) (grid : Grid) : res Grid :=
  for_each (range width)
    (fun x grid =>
       match grid_set grid 0 x Wall with
       | Ok grid' => grid_set grid' (height - 1) x Wall
       | Raise e => Raise e
       end)
    grid.

Definition border_columns (width height : Z) (grid : Grid) : res Grid :=
  for_each (range height)
    (fun y grid =>
       match grid_set grid y 0 Wall with
       | Ok grid' => grid_set grid' y (width - 1) Wall
       | Raise e => Raise e
       end)
    grid.

(** The two loops that extend [forbidden] with the border coordinates. *)
Definition forbid_border (width height : Z) (forbidden : gset (Z * Z)) : gset (Z * Z) :=
  let f1 := foldl (fun f x => {[ (x, height - 1) ]} ∪ ({[ (x, 0) ]} ∪ f))
              forbidden (range width) in
  foldl (fun f y => {[ (width - 1, y) ]} ∪ ({[ (0, y) ]} ∪ f)) f1 (range height).

(** [build_world] *)
Definition build_world (width height : Z) : M World :=
  let grid := make_grid width height Floor in
  let px := width `div` 2 in
  let py := height `div` 2 in
  let forbidden : gset (Z * Z) := {[ (px, py) ]} in
  let! grid := lift (border_rows width height grid) in
  let! grid := lift (border_columns width height grid) in
  let forbidden := forbid_border width height forbidden in
  let! grid := place_random grid Wall (Z.max 6 ((width * height) `div` 18)) forbidden in
  let! grid := place_random grid Treasure (Z.max 4 ((width * height) `div` 30)) forbidden in
  let! grid := place_random grid Trap (Z.max 4 ((width * height) `div` 35)) forbidden in
  let! grid := place_random grid Heal 1 forbidden in
  ret {| grid := grid;
         player_pos := (px, py);
         score := 0;
         hp := 5;
         turn := 0;
         message := msg_welcome;
         exit_spawned := false;
         won := false |}.

(** The loop of [spawn_exit]: [for _ in range(200)]; [fuel] counts the
    iterations left; falling out of the loop sets the failure message. *)
Fixpoint spawn_exit_loop (fuel : nat) (w h : Z) (world : World) : M World :=
  match fuel with
  | O => ret (set_message msg_exit_failed world)
  | S fuel' =>
      let! x := randrange 1 (w - 1) in
      let! y := randrange 1 (h - 1) in
      if bool_decide ((x, y) = player_pos world) then spawn_exit_loop fuel' w h world
      else
        let! c := lift (grid_get (grid world) y x) in
        if bool_decide (c = Floor) then
          let! grid' := lift (grid_set (grid world) y x Exit) in
          ret (set_message msg_exit_placed (set_exit_spawned true (set_grid grid' world)))
        else spawn_exit_loop fuel' w h world
  end.

(** [spawn_exit] *)
Definition spawn_exit (world : World) : M World :=
  let h := len (grid world) in
  let! row0 := lift (getitem (grid world) 0) in
  let w := len row0 in
  spawn_exit_loop 200 w h world.

(** The placement loop of [maybe_spawn]: [for _ in range(60)]; falling
    out of the loop changes nothing. *)
Fixpoint maybe_spawn_loop (fuel : nat) (w h : Z) (symbol : Cell) (world : World) : M World :=
  match fuel with
  | O => ret world
  | S fuel' =>
      let! x := randrange 1 (w - 1) in
      let! y := randrange 1 (h - 1) in
      if bool_decide ((x, y) = player_pos world) then maybe_spawn_loop fuel' w h symbol world
      else
        let! c := lift (grid_get (grid world) y x) in
        if bool_decide (c = Floor) then
          let! grid' := lift (grid_set (grid world) y x symbol) in
          let world := set_grid grid' world in
          if bool_decide (symbol = Treasure) then
            ret (set_message (message world +:+ msg_spawn_treasure) world)
          else
            ret (set_message (message world +:+ msg_spawn_trap) world)
        else maybe_spawn_loop fuel' w h symbol world
  end.

(** The thresholds of [maybe_spawn] are the floats that the literals
    [0.12] and [0.20] denote, the doubles nearest to 12/100 and 20/100:
    [0.12] is 1080863910568919 / 2^53, a little less than 12/100, and
    [0.20] is 3602879701896397 / 2^54, a little more than 20/100. A roll
    is a multiple of 2^-53, and floats compare as the rationals they
    are. *)
Definition low_threshold : Q := Qmake 1080863910568919 (2 ^ 53).
Definition high_threshold : Q := Qmake 3602879701896397 (2 ^ 54).

(** [roll < t] *)
Definition below (roll t : Q) : bool := negb (Qle_bool t roll).

(** [maybe_spawn] *)
Definition maybe_spawn (world : World) : M World :=
  if exit_spawned world then ret world
  else
    let! roll := random in
    if below roll low_threshold then
      let h := len (grid world) in
      let! row0 := lift (getitem (grid world) 0) in
      maybe_spawn_loop 60 (len row0) h Treasure world
    else if below roll high_threshold then
      let h := len (grid world) in
      let! row0 := lift (getitem (grid world) 0) in
      maybe_spawn_loop 60 (len row0) h Trap world
    else ret world.

(** The candidate coordinate of [try_move], after the two clamps. *)
Definition candidate (world : World) (dx dy : Z) : res (Z * Z) :=
  let '(px, py) := player_pos world in
  let nx := px + dx in
  let ny := py + dy in
  let ny := clamp ny 0 (len (grid world) - 1) in
  match getitem (grid world) 0 with
  | Ok row0 => Ok (clamp nx 0 (len row0 - 1), ny)
  | Raise e => Raise e
  end.

(** The post-move part of [try_move]: exit check, then [maybe_spawn]. *)
Definition post_move (world : World) : M World :=
  let! world :=
    (if negb (exit_spawned world) && bool_decide (count_symbol (grid world) Treasure = 0)
     then spawn_exit world
     else ret world) in
  maybe_spawn world.

(** [try_move] *)
Definition try_move (world : World) (dx dy : Z) : M World :=
  let! '(nx, ny) := lift (candidate world dx dy) in
  let! target := lift (grid_get (grid world) ny nx) in
  if bool_decide (target = Wall) then ret (set_message msg_wall world)
  else
    let world := set_player_pos (nx, ny) world in
    let world := set_turn (turn world + 1) world in
    match target with
    | Treasure =>
        let world := set_score (score world + 10) world in
        let world := set_message msg_treasure world in
        let! grid' := lift (grid_set (grid world) ny nx Floor) in
        post_move (set_grid grid' world)
    | Trap =>
        let world := set_hp (hp world - 1) world in
        let world := set_message msg_trap world in
        let! grid' := lift (grid_set (grid world) ny nx Floor) in
        post_move (set_grid grid' world)
    | Heal =>
        let world := set_hp (hp world + 2) world in
        let world := set_message msg_heal world in
        let! grid' := lift (grid_set (grid world) ny nx Floor) in
        post_move (set_grid grid' world)
    | Exit =>
        let world := set_won true world in
        ret (set_message msg_victory world)
    | _ =>
        let! m := choice msg_flavors in
        post_move (set_message m world)
    end.

(** ** Commands

    An input line is a Python [str]: a sequence of code points. *)
Abbreviation pystr := (list N).

(** The code points of an ASCII literal. *)
Definition str (s : string) : pystr :=
  (fun a => N.of_nat (Ascii.nat_of_ascii a)) <$> String.list_ascii_of_string s.

(** [str.isspace] on one code point: the white space of [str.strip()]. *)
Definition is_space (c : N) : bool :=
  (bool_decide (9 <= c <= 13) || bool_decide (28 <= c <= 32)
   || bool_decide (c = 133) || bool_decide (c = 160) || bool_decide (c = 5760)
   || bool_decide (8192 <= c <= 8202) || bool_decide (c = 8232)
   || bool_decide (c = 8233) || bool_decide (c = 8239) || bool_decide (c = 8287)
   || bool_decide (c = 12288))%N.

Fixpoint lstrip (s : pystr) : pystr :=
  match s with
  | [] => []
  | c :: s' => if is_space c then lstrip s' else s
  end.

(** [s.strip()] *)
Definition strip (s : pystr) : pystr := reverse (lstrip (reverse (lstrip s))).

(** Lower-casing outside ASCII is the Unicode table's business; the table
    maps one code point to one or more code points. *)
Class UnicodeData : Type := {
  unicode_lower : N -> list N;
  unicode_lower_nonempty : forall c, unicode_lower c ≠ [];
}.

Section Commands.
Context `{UnicodeData}.

Definition lower_char (c : N) : list N :=
  if bool_decide (65 <= c <= 90)%N then [(c + 32)%N]
  else if bool_decide (c < 128)%N then [c]
  else unicode_lower c.

(** [s.lower()] *)
Definition lower (s : pystr) : pystr := s ≫= lower_char.

(** [parse_command]: [cmd.strip().lower()[:1] if cmd else ""] *)
Definition parse_command (cmd : pystr) : pystr :=
  match cmd with
  | [] => []
  | _ => take 1 (lower (strip cmd))
  end.

End Commands.

Definition help_text : string :=
  "AIDE:
- '.' = sol
- '#' = mur (bloque)
- 'T' = trésor (+10 points)
- 'X' = piège (-1 PV)
- '❤' = soin (+2 PV)
- 'E' = sortie (apparaît quand tous les trésors sont ramassés)
Objectif: Ramasser tous les trésors puis trouver la sortie.
".

(** The [moves] dictionary of [game_loop]. *)
Definition moves : gmap pystr (Z * Z) :=
  list_to_map
    [ (str "z", (0, -1)); (str "w", (0, -1)); (str "s", (0, 1));
      (str "q", (-1, 0)); (str "a", (-1, 0)); (str "d", (1, 0)) ].

(** ** One iteration of [game_loop]

    The variable [world] refers to one dictionary at a time. A restart
    binds it to a new dictionary and leaves the old one as it is;
    [dropped] keeps the dictionaries no longer referred to. Rendering and
    the other prints have no effect on the world and are left out. *)
Record Loop : Type := mkLoop { world : World; dropped : list World }.

Inductive Outcome : Type :=
| Return
| Continue (s : Loop).

(** [world = build_world(width, height); continue] *)
Definition restart (width height : Z) (s : Loop) : M Outcome :=
  let! fresh := build_world width height in
  ret (Continue (mkLoop fresh (world s :: dropped s))).

(** The body of [while True], given the line that [input] returns. *)
Definition game_loop_iter `{UnicodeData} (width height : Z) (s : Loop) (line : pystr)
    : M Outcome :=
  if won (world s) then
    let cmd := parse_command line in
    if bool_decide (cmd = str "r") then restart width height s else ret Return
  else if bool_decide (hp (world s) <= 0) then
    let cmd := parse_command line in
    if bool_decide (cmd = str "r") then restart width height s else ret Return
  else
    let cmd := parse_command line in
    if bool_decide (cmd = str "x") then ret Return
    else if bool_decide (cmd = str "h") then
      ret (Continue (mkLoop (set_message help_text (world s)) (dropped s)))
    else if bool_decide (cmd = str "r") then restart width height s
    else
      match moves !! cmd with
      | Some (dx, dy) =>
          let! moved := try_move (world s) dx dy in
          ret (Continue (mkLoop moved (dropped s)))
      | None =>
          ret (Continue (mkLoop (set_message msg_unknown (world s)) (dropped s)))
      end.

(** [game_loop] starts from [build_world(width, height)]. *)
Definition game_loop_start (width height : Z) : M Loop :=
  let! fresh := build_world width height in
  ret (mkLoop fresh []).

(** ** Vocabulary of the statements

    Pure observations of a grid and of a world, used to state what the
    operations above do. *)

(** The cell of column [x], row [y], when there is one. *)
Definition cell (grid : Grid) (x y : Z) : option Cell :=
  if bool_decide (0 <= x ∧ 0 <= y) then
    grid !! Z.to_nat y ≫= fun row => row !! Z.to_nat x
  else None.

(** The grid with the cell of column [x], row [y] replaced. *)
Definition upd (grid : Grid) (x y : Z) (c : Cell) : Grid :=
  alter (fun row => <[Z.to_nat x := c]> row) (Z.to_nat y) grid.

(** [h] rows of [w] cells each. *)
Definition shape (w h : Z) (grid : Grid) : Prop :=
  len grid = h ∧ Forall (fun row => len row = w) grid.

Definition in_bounds (w h x y : Z) : Prop := 0 <= x < w ∧ 0 <= y < h.

(** The border ring: first and last column, first and last row. *)
Definition on_border (w h x y : Z) : Prop :=
  x = 0 ∨ x = w - 1 ∨ y = 0 ∨ y = h - 1.

Definition interior (w h x y : Z) : Prop := 1 <= x < w - 1 ∧ 1 <= y < h - 1.

Definition border_walls (w h : Z) (grid : Grid) : Prop :=
  forall x y, in_bounds w h x y -> on_border w h x y -> cell grid x y = Some Wall.

(** Width of a grid as the code reads it: [len(grid[0])]. *)
Definition width_of (grid : Grid) : Z :=
  match grid with
  | [] => 0
  | row0 :: _ => len row0
  end.

(** The candidate coordinate of a move, and the cell found there. *)
Definition destination (world : World) (dx dy : Z) : Z * Z :=
  (clamp (fst (player_pos world) + dx) 0 (width_of (grid world) - 1),
   clamp (snd (player_pos world) + dy) 0 (len (grid world) - 1)).

Definition target (world : World) (dx dy : Z) : option Cell :=
  cell (grid world) (fst (destination world dx dy)) (snd (destination world dx dy)).

(** The worlds that a run can reach from [build_world width height]:
    moves, and the messages that [game_loop] writes for [h] and for an
    unknown command. *)
Inductive reachable (width height : Z) : World -> Prop :=
| reach_build rng world rng' :
    build_world width height rng = Ok (world, rng') ->
    reachable width height world
| reach_move world dx dy rng world' rng' :
    reachable width height world ->
    try_move world dx dy rng = Ok (world', rng') ->
    reachable width height world'
| reach_message world m :
    reachable width height world ->
    reachable width height (set_message m world).

(** What one cell holding [c] adds to the count of [symbol]. *)
Definition tick (c symbol : Cell) : Z := if decide (c = symbol) then 1 else 0.

(** The generator [g'] is [g] after at most [n] draws. *)
Definition drew_at_most (n : N) (g g' : RNG) : Prop :=
  source g' = source g ∧ (cursor g <= cursor g' <= cursor g + n)%N.

(** The generator [g'] is [g] after exactly [n] draws. *)
Definition after_draws (n : N) (g g' : RNG) : Prop :=
  source g' = source g ∧ cursor g' = (cursor g + n)%N.

(** [spawn_exit] with [tries] attempts, seen from outside: either every
    attempt was used up (two draws each) and only the failure message is
    written, or attempt number [k] turned one floor cell of the interior,
    not the player's, into the exit. *)
Definition exit_step_n (tries : N) (w h : Z) (w1 : World) (g1 : RNG)
    (w2 : World) (g2 : RNG) : Prop :=
  (w2 = set_message msg_exit_failed w1 ∧ after_draws (2 * tries) g1 g2)
  ∨ exists x y k,
      interior w h x y ∧ (x, y) ≠ player_pos w1
      ∧ cell (grid w1) x y = Some Floor
      ∧ w2 = set_message msg_exit_placed
               (set_exit_spawned true (set_grid (upd (grid w1) x y Exit) w1))
      ∧ (1 <= k <= tries)%N ∧ after_draws (2 * k) g1 g2.

Definition exit_step : Z -> Z -> World -> RNG -> World -> RNG -> Prop := exit_step_n 200.

(** The placement loop of [maybe_spawn] for [symbol], with [tries]
    attempts: either every attempt was used up and nothing changed, or
    attempt number [k] turned one floor cell of the interior, not the
    player's, into [symbol] and appended [suffix] to the message. *)
Definition spawn_step_n (tries : N) (w h : Z) (symbol : Cell) (suffix : string)
    (w1 : World) (g1 : RNG) (w2 : World) (g2 : RNG) : Prop :=
  (w2 = w1 ∧ after_draws (2 * tries) g1 g2)
  ∨ exists x y k,
      interior w h x y ∧ (x, y) ≠ player_pos w1
      ∧ cell (grid w1) x y = Some Floor
      ∧ w2 = set_message (message w1 +:+ suffix) (set_grid (upd (grid w1) x y symbol) w1)
      ∧ (1 <= k <= tries)%N ∧ after_draws (2 * k) g1 g2.

Definition spawn_step : Z -> Z -> Cell -> string -> World -> RNG -> World -> RNG -> Prop :=
  spawn_step_n 60.

(** The world right after the player has stepped on a cell holding [t]:
    position and turn updated, then the effect of the cell. For a floor
    cell the message is still to be chosen. *)
Definition arrive (world : World) (dx dy : Z) (t : Cell) : World :=
  let '(nx, ny) := destination world dx dy in
  let world1 := set_turn (turn world + 1) (set_player_pos (nx, ny) world) in
  match t with
  | Treasure =>
      set_grid (upd (grid world) nx ny Floor)
        (set_message msg_treasure (set_score (score world + 10) world1))
  | Trap =>
      set_grid (upd (grid world) nx ny Floor)
        (set_message msg_trap (set_hp (hp world - 1) world1))
  | Heal =>
      set_grid (upd (grid world) nx ny Floor)
        (set_message msg_heal (set_hp (hp world + 2) world1))
  | Exit => set_message msg_victory (set_won true world1)
  | _ => world1
  end.

(** The exit phase of the post-move steps, from [w1] with generator
    [g1] to [w2] with generator [g2]. *)
Definition exit_phase (w h : Z) (w1 : World) (g1 : RNG) (w2 : World) (g2 : RNG) : Prop :=
  if negb (exit_spawned w1) && bool_decide (count_symbol (grid w1) Treasure = 0)
  then exit_step w h w1 g1 w2 g2
  else w2 = w1 ∧ g2 = g1.

(** What a move does, case by case on the cell at the destination. *)
Inductive move_outcome (w h : Z) (world : World) (dx dy : Z) (g : RNG)
  : World -> RNG -> Prop :=
| move_blocked :
    target world dx dy = Some Wall ->
    move_outcome w h world dx dy g (set_message msg_wall world) g
| move_wins :
    target world dx dy = Some Exit ->
    move_outcome w h world dx dy g (arrive world dx dy Exit) g
| move_consumes t w2 g2 w3 g3 :
    target world dx dy = Some t ->
    t = Treasure ∨ t = Trap ∨ t = Heal ->
    exit_phase w h (arrive world dx dy t) g w2 g2 ->
    maybe_spawn w2 g2 = Ok (w3, g3) ->
    move_outcome w h world dx dy g w3 g3
| move_walks m w2 g2 w3 g3 :
    target world dx dy = Some Floor ->
    m ∈ msg_flavors ->
    exit_phase w h (set_message m (arrive world dx dy Floor)) (advance g) w2 g2 ->
    maybe_spawn w2 g2 = Ok (w3, g3) ->
    move_outcome w h world dx dy g w3 g3.

(** What the steps after the arrival leave alone: the player's
    position, score, health, turn counter, [won], and the cell under the
    player. *)
Definition same_player (w1 w2 : World) : Prop :=
  player_pos w2 = player_pos w1 ∧ score w2 = score w1 ∧ hp w2 = hp w1
  ∧ turn w2 = turn w1 ∧ won w2 = won w1
  ∧ cell (grid w2) (fst (player_pos w1)) (snd (player_pos w1))
    = cell (grid w1) (fst (player_pos w1)) (snd (player_pos w1)).


(** A sequence of moves, each given as [(dx, dy)]. *)
Fixpoint play (moves : list (Z * Z)) (st : World * RNG) : res (World * RNG) :=
  match moves with
  | [] => Ok st
  | (dx, dy) :: moves' =>
      match try_move (fst st) dx dy (snd st) with
      | Ok st' => play moves' st'
      | Raise e => Raise e
      end
  end.

(** The invariant of the worlds of a [width] by [height] game. *)
Record sound (w h : Z) (world : World) : Prop := mkSound {
  sound_width : 1 <= w;
  sound_height : 1 <= h;
  sound_shape : shape w h (grid world);
  sound_border : border_walls w h (grid world);
  sound_player : in_bounds w h (fst (player_pos world)) (snd (player_pos world));
  sound_exit :
    count_symbol (grid world) Exit = if exit_spawned world then 1 else 0;
}.

(** The player stands on a cell that is not a wall. *)
Definition clear (world : World) : Prop :=
  exists c, cell (grid world) (fst (player_pos world)) (snd (player_pos world)) = Some c
            ∧ c ≠ Wall.

(** The roll that [maybe_spawn] reads from generator [g]. *)
Definition roll_of (g : RNG) : Q := Qmake (peek g `mod` 2 ^ 53) (2 ^ 53).

End Dungeon.

(* ===================================================================== *)
(** * trump_quote.py                                                      *)
(* ===================================================================== *)

Module TrumpQuote.

(** Exceptions, with the part of the class hierarchy the handlers look
    at: [HTTPError] is a subclass of [URLError]; every class below but
    [BaseOnly] is a subclass of [Exception]. [BaseOnly] stands for
    [KeyboardInterrupt] and [SystemExit]; [Other] for any further
    subclass of [Exception] ([UnicodeDecodeError], [TimeoutError],
    [AttributeError], ...). *)
Inductive exn : Type :=
| URLError (reason : string)
| HTTPError (code : Z)
| JSONDecodeError
| RuntimeError (msg : string)
| AttributeError (msg : string)
| Other (msg : string)
| BaseOnly.

Definition is_URLError (e : exn) : bool :=
  match e with
  | URLError _ | HTTPError _ => true
  | _ => false
  end.

Definition is_JSONDecodeError (e : exn) : bool :=
  match e with
  | JSONDecodeError => true
  | _ => false
  end.

Definition is_Exception (e : exn) : bool :=
  match e with
  | BaseOnly => false
  | _ => true
  end.

Inductive res (A : Type) : Type :=
| Ok (a : A)
| Raise (e : exn).
Arguments Ok {A} a.
Arguments Raise {A} e.

(** The values [json.loads] builds. *)
Inductive pyobj : Type :=
| PNone
| PBool (b : bool)
| PInt (n : Z)
| PFloat (q : Q)
| PStr (s : string)
| PList (l : list pyobj)
| PDict (d : list (string * pyobj)).

(** [bool(v)] *)
Definition truthy (v : pyobj) : bool :=
  match v with
  | PNone => false
  | PBool b => b
  | PInt n => negb (n =? 0)
  | PFloat q => negb (Qeq_bool q 0)
  | PStr s => negb (String.eqb s "")
  | PList l => negb (bool_decide (l = []))
  | PDict d => negb (bool_decide (d = []))
  end.

(** [isinstance(v, str)] *)
Definition is_str (v : pyobj) : bool :=
  match v with
  | PStr _ => true
  | _ => false
  end.

Fixpoint assoc (k : string) (d : list (string * pyobj)) : option pyobj :=
  match d with
  | [] => None
  | (k', v) :: d' => if String.eqb k k' then Some v else assoc k d'
  end.

(** [data.get(key)]: only a dictionary has the method. *)
Definition get (data : pyobj) (key : string) : res pyobj :=
  match data with
  | PDict d =>
      match assoc key d with
      | Some v => Ok v
      | None => Ok PNone
      end
  | _ => Raise (AttributeError "object has no attribute 'get'")
  end.

(** What a call of [urlopen] meets: an exception, or a response with its
    status and what [resp.read()] gives. *)
Record Response : Type := mkResponse { status : Z; read : res (list N) }.

(** The library functions the script calls. *)
Class Runtime : Type := {
  decode_utf8 : list N -> res string;
  json_loads : string -> res pyobj;
  str_of_exn : exn -> string;
  repr : pyobj -> string;
  str_strip : string -> string;
}.

(** The network answers the [n]-th request of the run with [net n]. The
    state of a run is the number of requests sent so far. *)
Definition Net : Type := nat -> res Response.

Section Script.
Context `{Runtime}.

(** The body of the [try] block of [get_random_trump_quote]. *)
Definition fetch (r : res Response) : res pyobj :=
  match r with
  | Raise e => Raise e
  | Ok resp =>
      if negb (status resp =? 200) then
        Raise (RuntimeError ("Réponse HTTP inattendue: " +:+ pretty (status resp)))
      else
        match read resp with
        | Raise e => Raise e
        | Ok bytes =>
            match decode_utf8 bytes with
            | Raise e => Raise e
            | Ok text => json_loads text
            end
        end
  end.

(** [get_random_trump_quote]: returns the quote and the number of
    requests sent. *)
Definition get_random_trump_quote (net : Net) (sent : nat) : res string * nat :=
  let tried := fetch (net sent) in
  let sent := S sent in
  match tried with
  | Raise e =>
      if is_URLError e then
        (Raise (RuntimeError ("Impossible de contacter l'API: " +:+ str_of_exn e)), sent)
      else if is_JSONDecodeError e then
        (Raise (RuntimeError "Réponse reçue mais JSON invalide."), sent)
      else (Raise e, sent)
  | Ok data =>
      match get data "message" with
      | Raise e => (Raise e, sent)
      | Ok quote =>
          if negb (truthy quote) || negb (is_str quote) then
            (Raise (RuntimeError ("Réponse inattendue de l'API: " +:+ repr data)), sent)
          else
            match quote with
            | PStr q => (Ok (str_strip q), sent)
            | _ => (Raise (AttributeError "object has no attribute 'strip'"), sent)
            end
      end
  end.

(** The standard output answers the [n]-th [print] call of a run, of
    the text [s], with [out n s]: [None] when the line is written, or the
    exception that the call raises instead: a [UnicodeEncodeError] for a
    text that the encoding of the output lacks (a lone surrogate on
    UTF-8, an accented letter on ASCII), an [OSError], an interrupt. *)
Definition Stdout : Type := nat -> string -> option exn.

(** What a run of [main] leaves behind: the lines that its [print] calls
    have written, the number of requests sent, and the exception that
    escapes [main], if any. *)
Record Run : Type := mkRun { printed : list string; requests : nat; escaped : option exn }.

(** The three texts that [main] prints. *)
Definition header : string := "🗨️ Citation aléatoire :
".

Definition quote_line (quote : string) : string := "“" +:+ quote +:+ "”".

Definition error_line (e : exn) : string := "Erreur: " +:+ str_of_exn e.

(** The clause [except Exception as e] of [main], reached by the
    exception [e] after [calls] calls of [print] that wrote [printed]:
    an exception outside [Exception] is not caught; for any other the
    line [Erreur: e] is printed, by a [print] that is outside the [try]
    block, so that what it raises leaves [main]. *)
Definition main_except (out : Stdout) (printed : list string) (calls sent : nat) (e : exn)
  : Run :=
  if is_Exception e then
    match out calls (error_line e) with
    | None => mkRun (printed ++ [ error_line e ]) sent None
    | Some e' => mkRun printed sent (Some e')
    end
  else mkRun printed sent (Some e).

(** [main]: the fetch and the two [print] calls of the [try] block, each
    of which may raise into the [except] clause. *)
Definition main (out : Stdout) (net : Net) : Run :=
  match get_random_trump_quote net 0 with
  | (Ok quote, sent) =>
      match out 0%nat header with
      | Some e => main_except out [] 1 sent e
      | None =>
          match out 1%nat (quote_line quote) with
          | Some e => main_except out [ header ] 2 sent e
          | None => mkRun [ header; quote_line quote ] sent None
          end
      end
  | (Raise e, sent) => main_except out [] 0 sent e
  end.

(** The run of [main] that sends one request and prints the one line
    [Erreur: e], nothing else, then ends normally. *)
Definition error_run (e : exn) : Run :=
  mkRun [ error_line e ] 1 None.

(** The [try] block of [main] raises [e] after [calls] calls of [print]
    that wrote [pre]: the fetch raises, before any call; or the [print]
    of the header does, the first call; or the [print] of the quote
    does, the second call, with the header written. *)
Definition raised_in_try (out : Stdout) (net : Net) (pre : list string) (calls : nat)
    (e : exn) : Prop :=
  (fst (get_random_trump_quote net 0) = Raise e ∧ pre = [] ∧ calls = 0%nat)
  ∨ (exists q, fst (get_random_trump_quote net 0) = Ok q
               ∧ out 0%nat header = Some e ∧ pre = [] ∧ calls = 1%nat)
  ∨ (exists q, fst (get_random_trump_quote net 0) = Ok q
               ∧ out 0%nat header = None ∧ out 1%nat (quote_line q) = Some e
               ∧ pre = [ header ] ∧ calls = 2%nat).

End Script.

(** A small stand-in for the library, to run the script on examples: it
    decodes ASCII only, and parses only three texts. *)
Definition demo_runtime : Runtime :=
  {| decode_utf8 := fun bytes =>
       if forallb (fun b => (b <? 128)%N) bytes
       then Ok (String.string_of_list_ascii
                  ((fun b => Ascii.ascii_of_nat (N.to_nat b)) <$> bytes))
       else Raise (Other "'utf-8' codec can't decode byte");
     json_loads := fun text =>
       if String.eqb text "{}" then Ok (PDict [])
       else if String.eqb text "[]" then Ok (PList [])
       else if String.eqb text "null" then Ok PNone
       else Raise JSONDecodeError;
     str_of_exn := fun e =>
       match e with
       | URLError reason => "<urlopen error " +:+ reason +:+ ">"
       | HTTPError code => "HTTP Error " +:+ pretty code
       | JSONDecodeError => "Expecting value"
       | RuntimeError msg | AttributeError msg | Other msg => msg
       | BaseOnly => ""
       end;
     repr := fun data =>
       match data with
       | PDict _ => "{}"
       | PList _ => "[]"
       | _ => "None"
       end;
     str_strip := fun q => q |}.

(** An output that takes every line. *)
Definition reliable : Stdout := fun _ _ => None.

(** An output that takes every line but the [n]-th printed, for which
    [print] raises [e]. *)
Definition refuses (n : nat) (e : exn) : Stdout :=
  fun k _ => if Nat.eqb k n then Some e else None.

(** An output encoded in ASCII: [print] writes a text of ASCII
    characters, and raises [UnicodeEncodeError] for any other. A text
    is held as the bytes of its UTF-8 form, of which those of a
    character outside ASCII are all 128 or more. *)
Definition ascii_output : Stdout :=
  fun _ s =>
    if forallb (fun a => Nat.ltb (Ascii.nat_of_ascii a) 128) (String.list_ascii_of_string s)
    then None
    else Some (Other "'ascii' codec can't encode character").

(** The bytes of an ASCII text. *)
Definition ascii_bytes (s : string) : list N :=
  (fun a => N.of_nat (Ascii.nat_of_ascii a)) <$> String.list_ascii_of_string s.

End TrumpQuote.

(* ===================================================================== *)
(** * A sample game                                                       *)
(* ===================================================================== *)

(** A 6 by 6 game whose draws are chosen so that generation fills the
    interior as follows (the player starts at column 3, row 3):
<<
      ######
      ######
      ##XTT#
      #XT.T#
      ##XhX#
      ######
>>
    with [h] the heart. The draws after generation make every roll of
    [maybe_spawn] a miss, and place the exit at column 3, row 2, when the
    last treasure is picked up. *)
Module Samples.
Import Dungeon.

Definition half : Z := 2 ^ 52.

Definition sample_draws : list Z :=
  [ (* walls *) 1; 1; 2; 1; 3; 1; 4; 1; 1; 2; 1; 4;
    (* treasures *) 3; 2; 4; 2; 2; 3; 4; 3;
    (* traps *) 2; 2; 1; 3; 2; 4; 4; 4;
    (* heart *) 3; 4;
    (* moves: roll, roll, roll, flavor, roll, exit column, exit row, flavor *)
    half; half; half; 0; half; 2; 1; 0 ].

Definition sample_rng : RNG :=
  mkRNG (fun n => nth (N.to_nat n) sample_draws half) 0.

Definition blank : World := mkWorld [] (0, 0) 0 0 0 "" false false.

Definition sample_start : World * RNG :=
  match build_world 6 6 sample_rng with
  | Ok st => st
  | Raise _ => (blank, sample_rng)
  end.

Definition sample_after (moves : list (Z * Z)) : World * RNG :=
  match play moves sample_start with
  | Ok st => st
  | Raise _ => (blank, sample_rng)
  end.

Definition up : Z * Z := (0, -1).
Definition down : Z * Z := (0, 1).
Definition left : Z * Z := (-1, 0).
Definition right : Z * Z := (1, 0).

(** A generator that only ever draws zero. *)
Definition zero_rng : RNG := mkRNG (fun _ => 0) 0.

(** A lower-casing table that leaves every code point outside ASCII as
    it is. *)
Definition plain_table : UnicodeData :=
  {| unicode_lower := fun c => [c];
     unicode_lower_nonempty := fun c (Heq : [c] = []) =>
       eq_ind [c] (fun l => match l with [] => False | _ :: _ => True end) I [] Heq |}.

(** The world of a 2 by 2 game: four walls, the player on one of them. *)
Definition tiny_world : World :=
  mkWorld [[Wall; Wall]; [Wall; Wall]] (1, 1) 0 5 0 msg_welcome false false.

End Samples.

(* ===================================================================== *)
(** * python.py: display                                                  *)
(* ===================================================================== *)

Module Display.
Import Dungeon.

(** What [render] sends to the terminal, in order. *)
Inductive Output : Type :=
| ClearScreen
| Print (line : string).

Definition player_glyph : string := "🙂".

(** The inner loop of [render]: the tokens of row [y]. *)
Definition render_row (pos : Z * Z) (y : nat) (row : list Cell) : list string :=
  imap (fun x c =>
          if bool_decide ((Z.of_nat x, Z.of_nat y) = pos) then player_glyph else symbol c)
       row.

(** The outer loop of [render]: the tokens of every row. *)
Definition render_rows (world : World) : list (list string) :=
  imap (render_row (player_pos world)) (grid world).

(** [" ".join(line)] *)
Definition join (tokens : list string) : string := String.concat " " tokens.

(** [render] *)
Definition render (world : World) : list Output :=
  [ ClearScreen;
    Print "=== 🗺️  Explorateur de donjon ===
";
    Print ("PV: " +:+ pretty (hp world) +:+ "   Score: " +:+ pretty (score world)
           +:+ "   Tour: " +:+ pretty (turn world));
    Print "Commandes: zqsd / wasd pour bouger, r pour relancer, h pour aide, x pour quitter
" ]
  ++ (Print ∘ join <$> render_rows world)
  ++ [ Print ("
" +:+ message world) ].

End Display.

(* ===================================================================== *)
(** * A second stand-in for the library of the quote client               *)
(* ===================================================================== *)

Module QuoteSamples.
Import TrumpQuote.

(** A stand-in whose parser answers every text with the same object,
    one that has a [message], and whose [strip] knows how to strip that
    message and nothing else. *)
Definition canned_runtime : Runtime :=
  {| decode_utf8 := fun _ => Ok "";
     json_loads := fun _ => Ok (PDict [("message", PStr " Covfefe ")]);
     str_of_exn := @str_of_exn demo_runtime;
     repr := fun _ => "";
     str_strip := fun q => if String.eqb q " Covfefe " then "Covfefe" else q |}.

End QuoteSamples.

(* ===================================================================== *)
(** * Facts about the Python fragment                                     *)
(* ===================================================================== *)

Module PyFacts.

Lemma index_of_nonneg (n i : Z) :
  0 <= i < n -> index_of n i = Some (Z.to_nat i).
Proof.
  intros Hi. unfold index_of. rewrite bool_decide_eq_true_2; [reflexivity | lia].
Qed.

Lemma index_of_none (n i : Z) :
  n <= 0 -> index_of n i = None.
Proof.
  intros Hn. unfold index_of.
  rewrite !bool_decide_eq_false_2; [reflexivity | lia | lia].
Qed.

Lemma getitem_ok {A} (l : list A) (i : Z) :
  0 <= i < len l ->
  exists a, getitem l i = Ok a ∧ l !! Z.to_nat i = Some a.
Proof.
  intros Hi. unfold getitem. rewrite index_of_nonneg by exact Hi.
  destruct (lookup_lt_is_Some_2 l (Z.to_nat i)) as [a Ha].
  - unfold len in Hi. lia.
  - exists a. rewrite Ha. split; reflexivity.
Qed.

Lemma getitem_empty {A} (i : Z) : getitem (@nil A) i = Raise IndexError.
Proof. unfold getitem. rewrite index_of_none; [reflexivity | unfold len; simpl; lia]. Qed.

Lemma setitem_ok {A} (l : list A) (i : Z) (a : A) :
  0 <= i < len l -> setitem l i a = Ok (<[Z.to_nat i := a]> l).
Proof.
  intros Hi. unfold setitem. rewrite index_of_nonneg by exact Hi. reflexivity.
Qed.

Lemma len_insert {A} (l : list A) (k : nat) (a : A) : len (<[k := a]> l) = len l.
Proof. unfold len. rewrite length_insert. reflexivity. Qed.

Lemma clamp_bounds (n lo hi : Z) : lo <= hi -> lo <= clamp n lo hi <= hi.
Proof. unfold clamp. lia. Qed.

Lemma clamp_id (n lo hi : Z) : lo <= n <= hi -> clamp n lo hi = n.
Proof. unfold clamp. lia. Qed.

(** [randrange] on a non-empty range: one draw, a value of the range. *)
Lemma randrange_ok (start stop : Z) (g : RNG) :
  start < stop ->
  exists v, randrange start stop g = Ok (v, advance g) ∧ start <= v < stop.
Proof.
  intros Hlt. unfold randrange.
  rewrite bool_decide_eq_false_2 by lia.
  eexists. split; [reflexivity |].
  pose proof (Z.mod_pos_bound (peek g) (stop - start)). lia.
Qed.

Lemma randrange_empty (start stop : Z) (g : RNG) :
  stop <= start -> randrange start stop g = Raise ValueError.
Proof.
  intros Hle. unfold randrange. rewrite bool_decide_eq_true_2 by lia. reflexivity.
Qed.

(** A loop over [range n] that keeps an invariant indexed by the loop
    counter runs to its end. *)
Lemma for_each_range_inv {St} (P : Z -> St -> Prop) (body : Z -> St -> res St) (n : Z) (s : St) :
  0 <= n ->
  P 0 s ->
  (forall i s, 0 <= i < n -> P i s -> exists s', body i s = Ok s' ∧ P (i + 1) s') ->
  exists s', for_each (range n) body s = Ok s' ∧ P n s'.
Proof.
  intros Hn H0 Hstep. unfold range.
  assert (Hgen : forall (k : nat) (m : Z) (s : St),
             0 <= m -> m + Z.of_nat k = n -> P m s ->
             exists s', for_each (seqZ m (Z.of_nat k)) body s = Ok s' ∧ P n s').
  { induction k as [|k IH]; intros m s0 Hm Hmk HP.
    - exists s0. simpl in Hmk. rewrite Z.add_0_r in Hmk. subst m.
      split; [reflexivity | exact HP].
    - rewrite seqZ_cons by lia. simpl.
      destruct (Hstep m s0) as [s1 [Hb HP1]]; [lia | exact HP |].
      rewrite Hb.
      replace (Z.pred (Z.of_nat (S k))) with (Z.of_nat k) by lia.
      apply IH; [lia | lia |].
      replace (Z.succ m) with (m + 1) by lia. exact HP1. }
  destruct (Hgen (Z.to_nat n) 0 s) as [s' Hs']; [lia | lia | exact H0 |].
  rewrite Z2Nat.id in Hs' by lia. exists s'. exact Hs'.
Qed.

Lemma drew_refl (g : RNG) : Dungeon.drew_at_most 0 g g.
Proof. unfold Dungeon.drew_at_most. split; [reflexivity | lia]. Qed.

Lemma drew_advance (g : RNG) : Dungeon.drew_at_most 1 g (advance g).
Proof. unfold Dungeon.drew_at_most, advance. simpl. split; [reflexivity | lia]. Qed.

Lemma drew_trans (n m k : N) (g1 g2 g3 : RNG) :
  Dungeon.drew_at_most n g1 g2 -> Dungeon.drew_at_most m g2 g3 -> (n + m <= k)%N ->
  Dungeon.drew_at_most k g1 g3.
Proof.
  unfold Dungeon.drew_at_most. intros [Hs1 Hc1] [Hs2 Hc2] Hk.
  split; [congruence | lia].
Qed.

End PyFacts.

(* ===================================================================== *)
(** * Facts about grids                                                   *)
(* ===================================================================== *)

Module GridFacts.
Import Dungeon PyFacts.

Lemma shape_row (w h : Z) (grid : Grid) (y : Z) :
  shape w h grid -> 0 <= y < h ->
  exists row, grid !! Z.to_nat y = Some row ∧ len row = w.
Proof.
  intros [Hlen Hrows] Hy.
  destruct (lookup_lt_is_Some_2 grid (Z.to_nat y)) as [row Hrow].
  - unfold len in Hlen. lia.
  - exists row. split; [exact Hrow |].
    rewrite Forall_lookup in Hrows. exact (Hrows _ _ Hrow).
Qed.

Lemma shape_row0 (w h : Z) (grid : Grid) :
  shape w h grid -> 1 <= h ->
  exists row0, getitem grid 0 = Ok row0 ∧ len row0 = w ∧ width_of grid = w.
Proof.
  intros Hs Hh.
  destruct (shape_row w h grid 0 Hs) as [row [Hrow Hw]]; [lia |].
  destruct grid as [|r0 rest]; simpl in Hrow; [discriminate |].
  injection Hrow as ->.
  exists row. split; [| split; [exact Hw | exact Hw]].
  unfold getitem. rewrite index_of_nonneg.
  - reflexivity.
  - unfold len. simpl. lia.
Qed.

Lemma cell_in_bounds (w h : Z) (grid : Grid) (x y : Z) :
  shape w h grid -> in_bounds w h x y -> exists c, cell grid x y = Some c.
Proof.
  intros Hs [Hx Hy].
  destruct (shape_row w h grid y Hs Hy) as [row [Hrow Hw]].
  destruct (lookup_lt_is_Some_2 row (Z.to_nat x)) as [c Hc].
  - unfold len in Hw. lia.
  - exists c. unfold cell. rewrite bool_decide_eq_true_2 by lia.
    rewrite Hrow. simpl. exact Hc.
Qed.

Lemma cell_Some_bounds (w h : Z) (grid : Grid) (x y : Z) (c : Cell) :
  shape w h grid -> cell grid x y = Some c -> in_bounds w h x y.
Proof.
  intros [Hlen Hrows] Hc. unfold cell in Hc.
  case_bool_decide as Hxy; [| discriminate].
  destruct (grid !! Z.to_nat y) as [row|] eqn:Hrow; [| discriminate].
  simpl in Hc.
  pose proof (lookup_lt_Some _ _ _ Hrow) as Hy.
  pose proof (lookup_lt_Some _ _ _ Hc) as Hx.
  rewrite Forall_lookup in Hrows. pose proof (Hrows _ _ Hrow) as Hw.
  unfold len in *. unfold in_bounds. lia.
Qed.

(** Reading a cell inside the grid does not raise. *)
Lemma grid_get_ok (w h : Z) (grid : Grid) (x y : Z) :
  shape w h grid -> in_bounds w h x y ->
  exists c, grid_get grid y x = Ok c ∧ cell grid x y = Some c.
Proof.
  intros Hs [Hx Hy].
  destruct (shape_row w h grid y Hs Hy) as [row [Hrow Hw]].
  destruct Hs as [Hlen Hrows].
  destruct (getitem_ok grid y) as [row' [Hg Hrow']]; [lia |].
  rewrite Hrow in Hrow'. injection Hrow' as <-.
  destruct (getitem_ok row x) as [c [Hgc Hc]]; [lia |].
  exists c. unfold grid_get. rewrite Hg. split; [exact Hgc |].
  unfold cell. rewrite bool_decide_eq_true_2 by lia. rewrite Hrow. exact Hc.
Qed.

(** Writing a cell inside the grid does not raise and is [upd]. *)
Lemma grid_set_ok (w h : Z) (grid : Grid) (x y : Z) (c : Cell) :
  shape w h grid -> in_bounds w h x y ->
  grid_set grid y x c = Ok (upd grid x y c).
Proof.
  intros Hs [Hx Hy].
  destruct (shape_row w h grid y Hs Hy) as [row [Hrow Hw]].
  destruct Hs as [Hlen Hrows].
  destruct (getitem_ok grid y) as [row' [Hg Hrow']]; [lia |].
  rewrite Hrow in Hrow'. injection Hrow' as <-.
  unfold grid_set. rewrite Hg.
  rewrite setitem_ok by lia. rewrite setitem_ok by lia.
  f_equal. unfold upd.
  apply list_eq. intros k.
  destruct (decide (k = Z.to_nat y)) as [->|Hne].
  - rewrite list_lookup_insert_eq by (eapply lookup_lt_Some; exact Hrow).
    rewrite list_lookup_alter_eq. rewrite Hrow. reflexivity.
  - rewrite list_lookup_insert_ne by congruence.
    rewrite list_lookup_alter_ne by congruence. reflexivity.
Qed.

Lemma shape_upd (w h : Z) (grid : Grid) (x y : Z) (c : Cell) :
  shape w h grid -> shape w h (upd grid x y c).
Proof.
  intros [Hlen Hrows]. unfold shape, upd. split.
  - unfold len in *. rewrite length_alter. exact Hlen.
  - rewrite Forall_lookup in Hrows. rewrite Forall_lookup. intros k row Hk.
    destruct (decide (k = Z.to_nat y)) as [->|Hne].
    + rewrite list_lookup_alter_eq in Hk.
      destruct (grid !! Z.to_nat y) as [row0|] eqn:Hrow0; [| discriminate].
      simpl in Hk. injection Hk as <-. rewrite len_insert. exact (Hrows _ _ Hrow0).
    + rewrite list_lookup_alter_ne in Hk by congruence. exact (Hrows _ _ Hk).
Qed.

Lemma cell_upd_eq (w h : Z) (grid : Grid) (x y : Z) (c : Cell) :
  shape w h grid -> in_bounds w h x y -> cell (upd grid x y c) x y = Some c.
Proof.
  intros Hs [Hx Hy].
  destruct (shape_row w h grid y Hs Hy) as [row [Hrow Hw]].
  unfold cell, upd. rewrite bool_decide_eq_true_2 by lia.
  rewrite list_lookup_alter_eq. rewrite Hrow. simpl.
  apply list_lookup_insert_eq. unfold len in Hw. lia.
Qed.

Lemma cell_upd_ne (grid : Grid) (x y x' y' : Z) (c : Cell) :
  0 <= x -> 0 <= y -> (x', y') ≠ (x, y) ->
  cell (upd grid x y c) x' y' = cell grid x' y'.
Proof.
  intros Hx Hy Hne. unfold cell, upd.
  case_bool_decide as Hb; [| reflexivity].
  destruct (decide (Z.to_nat y' = Z.to_nat y)) as [Heq|Hney].
  - rewrite Heq. rewrite list_lookup_alter_eq.
    destruct (grid !! Z.to_nat y) as [row|]; [| reflexivity].
    simpl. apply list_lookup_insert_ne.
    intros Hxx. apply Hne. f_equal; lia.
  - rewrite list_lookup_alter_ne by congruence. reflexivity.
Qed.

(** A cell of the updated grid is the new symbol at the updated place and
    the old cell elsewhere. *)
Lemma cell_upd (w h : Z) (grid : Grid) (x y x' y' : Z) (c : Cell) :
  shape w h grid -> in_bounds w h x y ->
  cell (upd grid x y c) x' y' =
    if bool_decide ((x', y') = (x, y)) then Some c else cell grid x' y'.
Proof.
  intros Hs Hb. case_bool_decide as Heq.
  - injection Heq as -> ->. eapply cell_upd_eq; eassumption.
  - destruct Hb as [Hx Hy]. apply cell_upd_ne; [lia | lia | exact Heq].
Qed.

Lemma cell_upd_and (w h : Z) (grid : Grid) (x y x' y' : Z) (c : Cell) :
  shape w h grid -> in_bounds w h x y ->
  cell (upd grid x y c) x' y' =
    if bool_decide (x' = x ∧ y' = y) then Some c else cell grid x' y'.
Proof.
  intros Hs Hb. rewrite (cell_upd w h grid x y x' y' c Hs Hb).
  repeat case_bool_decide; try reflexivity; exfalso.
  - match goal with Hp : (_, _) = (_, _) |- _ => injection Hp as -> -> end. tauto.
  - match goal with Hp : _ ∧ _ |- _ => destruct Hp as [-> ->] end. tauto.
Qed.

Lemma count_symbol_nil (symbol : Cell) : count_symbol [] symbol = 0.
Proof. reflexivity. Qed.

Lemma count_symbol_cons (row : list Cell) (grid : Grid) (symbol : Cell) :
  count_symbol (row :: grid) symbol = count_row symbol row + count_symbol grid symbol.
Proof. reflexivity. Qed.

Lemma count_row_nonneg (symbol : Cell) (row : list Cell) : 0 <= count_row symbol row.
Proof. induction row as [|c row IH]; simpl; [lia |]. destruct (decide (c = symbol)); lia. Qed.

Lemma count_symbol_nonneg (grid : Grid) (symbol : Cell) : 0 <= count_symbol grid symbol.
Proof.
  induction grid as [|row grid IH].
  - rewrite count_symbol_nil. lia.
  - rewrite count_symbol_cons. pose proof (count_row_nonneg symbol row). lia.
Qed.

Lemma count_row_insert (symbol : Cell) (row : list Cell) (k : nat) (old c : Cell) :
  row !! k = Some old ->
  count_row symbol (<[k := c]> row) = count_row symbol row - tick old symbol + tick c symbol.
Proof.
  revert k. induction row as [|c0 row IH]; intros k Hk; [discriminate |].
  destruct k as [|k]; simpl in *.
  - injection Hk as ->. unfold tick. lia.
  - rewrite (IH k Hk). lia.
Qed.

(** Replacing one cell moves the count of a symbol by the old and the new
    occupant of that cell. *)
Lemma count_upd (grid : Grid) (x y : Z) (old c symbol : Cell) :
  cell grid x y = Some old ->
  count_symbol (upd grid x y c) symbol
  = count_symbol grid symbol - tick old symbol + tick c symbol.
Proof.
  unfold cell, upd. case_bool_decide as Hb; [| discriminate].
  generalize (Z.to_nat y) as k. intros k. revert k.
  induction grid as [|row grid IH]; intros k Hk; [discriminate |].
  destruct k as [|k].
  - change (alter (fun r : list Cell => <[Z.to_nat x := c]> r) 0%nat (row :: grid))
      with (<[Z.to_nat x := c]> row :: grid).
    change ((row :: grid) !! 0%nat) with (Some row) in Hk. simpl in Hk.
    rewrite !count_symbol_cons. rewrite (count_row_insert symbol row _ old c Hk). lia.
  - change (alter (fun r : list Cell => <[Z.to_nat x := c]> r) (S k) (row :: grid))
      with (row :: alter (fun r : list Cell => <[Z.to_nat x := c]> r) k grid).
    change ((row :: grid) !! S k) with (grid !! k) in Hk.
    rewrite !count_symbol_cons. rewrite (IH k Hk). lia.
Qed.

(** A symbol held by no cell has count zero, and conversely. *)
Lemma count_row_zero (symbol : Cell) (row : list Cell) :
  count_row symbol row = 0 <-> forall k c, row !! k = Some c -> c ≠ symbol.
Proof.
  induction row as [|c0 row IH]; simpl.
  - split; [intros _ k c Hk; discriminate | reflexivity].
  - pose proof (count_row_nonneg symbol row) as Hnn. split.
    + intros Hz k c Hk. destruct (decide (c0 = symbol)) as [->|Hne]; [lia |].
      destruct k as [|k]; simpl in Hk.
      * injection Hk as <-. exact Hne.
      * apply IH in Hk; [exact Hk | lia].
    + intros Hall. destruct (decide (c0 = symbol)) as [Heq|Hne].
      * exfalso. exact (Hall 0%nat c0 eq_refl Heq).
      * simpl. apply IH. intros k c Hk. exact (Hall (S k) c Hk).
Qed.

Lemma count_symbol_zero (grid : Grid) (symbol : Cell) :
  count_symbol grid symbol = 0 <-> forall x y c, cell grid x y = Some c -> c ≠ symbol.
Proof.
  split.
  - intros Hz x y c Hc. unfold cell in Hc.
    case_bool_decide as Hb; [| discriminate].
    revert Hz Hc. generalize (Z.to_nat y) as k.
    induction grid as [|row grid IH]; intros k Hz Hk; [discriminate |].
    rewrite count_symbol_cons in Hz.
    pose proof (count_row_nonneg symbol row) as Hr.
    pose proof (count_symbol_nonneg grid symbol) as Hg.
    destruct k as [|k].
    + change ((row :: grid) !! 0%nat) with (Some row) in Hk. simpl in Hk.
      apply (proj1 (count_row_zero symbol row)) with (k := Z.to_nat x); [lia | exact Hk].
    + change ((row :: grid) !! S k) with (grid !! k) in Hk.
      apply (IH k); [lia | exact Hk].
  - intros Hall.
    assert (Hrows : forall k row, grid !! k = Some row -> count_row symbol row = 0).
    { intros k row Hk. apply count_row_zero. intros j c Hj.
      apply (Hall (Z.of_nat j) (Z.of_nat k) c). unfold cell.
      rewrite bool_decide_eq_true_2 by lia. rewrite !Nat2Z.id. rewrite Hk. exact Hj. }
    clear Hall. induction grid as [|row grid IH]; [reflexivity |].
    rewrite count_symbol_cons.
    rewrite (Hrows 0%nat row eq_refl). rewrite IH; [reflexivity |].
    intros k r Hk. exact (Hrows (S k) r Hk).
Qed.

End GridFacts.

(* ===================================================================== *)
(** * Facts about world generation                                        *)
(* ===================================================================== *)

Module BuildFacts.
Import Dungeon PyFacts GridFacts.

Lemma bind_ok {A B} (c : M A) (k : A -> M B) (g g' : RNG) (a : A) :
  c g = Ok (a, g') -> bind c k g = k a g'.
Proof. intros Hc. unfold bind. rewrite Hc. reflexivity. Qed.

Lemma bind_raise {A B} (c : M A) (k : A -> M B) (g : RNG) (e : exn) :
  c g = Raise e -> bind c k g = Raise e.
Proof. intros Hc. unfold bind. rewrite Hc. reflexivity. Qed.

Lemma lift_ok {A} (r : res A) (a : A) (g : RNG) :
  r = Ok a -> lift r g = Ok (a, g).
Proof. intros ->. reflexivity. Qed.

Lemma drew_two (g : RNG) : drew_at_most 2 g (advance (advance g)).
Proof. unfold drew_at_most, advance. simpl. split; [reflexivity | lia]. Qed.

(** The placement loop never raises on a rectangular grid, and keeps any
    property of the grid that survives turning one floor cell outside
    [forbidden] into [symbol]. *)
Lemma place_random_loop_inv (P : Grid -> Prop) (w h : Z) (symbol : Cell) (count : Z)
    (forbidden : gset (Z * Z)) :
  1 <= w -> 1 <= h ->
  (forall grid, P grid -> shape w h grid) ->
  (forall grid x y, P grid -> in_bounds w h x y -> (x, y) ∉ forbidden ->
                    cell grid x y = Some Floor -> P (upd grid x y symbol)) ->
  forall fuel placed grid g,
    P grid ->
    exists grid' g',
      place_random_loop fuel w h symbol count forbidden placed grid g = Ok (grid', g')
      ∧ P grid' ∧ drew_at_most (2 * N.of_nat fuel) g g'.
Proof.
  intros Hw Hh Hshape Hstep.
  induction fuel as [|fuel IH]; intros placed grid g HP.
  - exists grid, g. split; [reflexivity | split; [exact HP | apply drew_refl]].
  - assert (Hskip : exists grid' g',
               place_random_loop fuel w h symbol count forbidden placed grid
                 (advance (advance g)) = Ok (grid', g')
               ∧ P grid' ∧ drew_at_most (2 * N.of_nat (S fuel)) g g').
    { destruct (IH placed grid (advance (advance g)) HP) as (grid' & g' & Hrun & HP' & Hd).
      exists grid', g'. split; [exact Hrun | split; [exact HP' |]].
      eapply drew_trans; [apply drew_two | exact Hd | lia]. }
    cbn [place_random_loop]. case_bool_decide as Hplaced.
    + destruct (randrange_ok 0 w g) as (x & Hx & Hxr); [lia |].
      rewrite (bind_ok _ _ _ _ _ Hx).
      destruct (randrange_ok 0 h (advance g)) as (y & Hy & Hyr); [lia |].
      rewrite (bind_ok _ _ _ _ _ Hy).
      case_bool_decide as Hforb; [exact Hskip |].
      destruct (grid_get_ok w h grid x y (Hshape _ HP)) as (c & Hget & Hcell);
        [split; lia |].
      rewrite (bind_ok _ _ _ _ _ (lift_ok _ _ _ Hget)).
      case_bool_decide as Hfloor; [exact Hskip |].
      assert (c = Floor) as -> by (destruct (decide (c = Floor)); [assumption | contradiction]).
      rewrite (bind_ok _ _ _ _ _
                 (lift_ok _ _ _ (grid_set_ok w h grid x y symbol (Hshape _ HP)
                                   (conj Hxr Hyr)))).
      destruct (IH (placed + 1) (upd grid x y symbol) (advance (advance g)))
        as (grid' & g' & Hrun & HP' & Hd).
      { apply Hstep; [exact HP | split; lia | exact Hforb | exact Hcell]. }
      exists grid', g'. split; [exact Hrun | split; [exact HP' |]].
      eapply drew_trans; [apply drew_two | exact Hd | lia].
    + exists grid, g. split; [reflexivity | split; [exact HP |]].
      unfold drew_at_most. split; [reflexivity | lia].
Qed.

(** What [place_random] leaves untouched: the shape, every cell that was
    not floor, every forbidden cell, and the count of any other symbol.
    It draws at most 20000 times. *)
Lemma place_random_spec (w h : Z) (grid : Grid) (symbol : Cell) (count : Z)
    (forbidden : gset (Z * Z)) (g : RNG) :
  1 <= w -> 1 <= h -> shape w h grid ->
  exists grid' g',
    place_random grid symbol count forbidden g = Ok (grid', g')
    ∧ shape w h grid'
    ∧ (forall x y, cell grid x y ≠ Some Floor -> cell grid' x y = cell grid x y)
    ∧ (forall x y, (x, y) ∈ forbidden -> cell grid' x y = cell grid x y)
    ∧ (forall x y, cell grid' x y = cell grid x y ∨ cell grid' x y = Some symbol)
    ∧ (forall other, other ≠ symbol -> other ≠ Floor ->
                     count_symbol grid' other = count_symbol grid other)
    ∧ drew_at_most 20000 g g'.
Proof.
  intros Hw Hh Hs.
  destruct (shape_row0 w h grid Hs Hh) as (row0 & Hrow0 & Hlen0 & _).
  unfold place_random. rewrite (bind_ok _ _ _ _ _ (lift_ok _ _ _ Hrow0)).
  rewrite Hlen0. replace (len grid) with h by (destruct Hs; congruence).
  set (P := fun grid' : Grid =>
              shape w h grid'
              ∧ (forall x y, cell grid x y ≠ Some Floor -> cell grid' x y = cell grid x y)
              ∧ (forall x y, (x, y) ∈ forbidden -> cell grid' x y = cell grid x y)
              ∧ (forall x y, cell grid' x y = cell grid x y ∨ cell grid' x y = Some symbol)
              ∧ (forall other, other ≠ symbol -> other ≠ Floor ->
                               count_symbol grid' other = count_symbol grid other)).
  destruct (place_random_loop_inv P w h symbol count forbidden Hw Hh) with
    (fuel := 10000%nat) (placed := 0) (grid := grid) (g := g)
    as (grid' & g' & Hrun & HP & Hd).
  - intros gr HPg. exact (proj1 HPg).
  - intros gr x y (Hsh & Hnf & Hfb & Hor & Hcnt) Hb Hnot Hcell.
    unfold P. split; [apply shape_upd; exact Hsh |].
    split; [| split; [| split]].
    + intros x' y' Hne. rewrite (cell_upd w h gr x y x' y' symbol Hsh Hb).
      case_bool_decide as Heq; [| apply Hnf; exact Hne].
      injection Heq as -> ->. exfalso. apply Hne. rewrite <- (Hnf x y Hne). exact Hcell.
    + intros x' y' Hin. rewrite (cell_upd w h gr x y x' y' symbol Hsh Hb).
      case_bool_decide as Heq; [| apply Hfb; exact Hin].
      injection Heq as -> ->. contradiction.
    + intros x' y'. rewrite (cell_upd w h gr x y x' y' symbol Hsh Hb).
      case_bool_decide as Heq; [right; reflexivity | apply Hor].
    + intros other Hsym Hfl. rewrite (count_upd gr x y Floor symbol other Hcell).
      rewrite <- (Hcnt other Hsym Hfl). unfold tick.
      destruct (decide (Floor = other)); [congruence |].
      destruct (decide (symbol = other)); [congruence | lia].
  - unfold P. split; [exact Hs |]. split; [| split; [| split]]; auto.
  - exists grid', g'. destruct HP as (H1 & H2 & H3 & H4 & H5).
    assert (Hn : (2 * N.of_nat 10000 = 20000)%N) by (vm_compute; reflexivity).
    rewrite Hn in Hd.
    exact (conj Hrun (conj H1 (conj H2 (conj H3 (conj H4 (conj H5 Hd)))))).
Qed.

Lemma make_grid_shape (w h : Z) :
  0 <= w -> 0 <= h -> shape w h (make_grid w h Floor).
Proof.
  intros Hw Hh. unfold shape, make_grid, len. split.
  - rewrite length_replicate. lia.
  - apply Forall_replicate. rewrite length_replicate. lia.
Qed.

Lemma make_grid_cell (w h x y : Z) :
  in_bounds w h x y -> cell (make_grid w h Floor) x y = Some Floor.
Proof.
  intros [Hx Hy]. unfold cell, make_grid.
  rewrite bool_decide_eq_true_2 by lia.
  rewrite lookup_replicate_2 by lia. simpl.
  apply lookup_replicate_2. lia.
Qed.

(** After the first border loop: the first and last rows are walls. *)
Lemma border_rows_spec (w h : Z) (grid : Grid) :
  1 <= w -> 1 <= h -> shape w h grid ->
  (forall x y, in_bounds w h x y -> cell grid x y = Some Floor) ->
  exists grid',
    border_rows w h grid = Ok grid' ∧ shape w h grid'
    ∧ forall x y, in_bounds w h x y ->
        cell grid' x y = Some (if bool_decide (y = 0 ∨ y = h - 1) then Wall else Floor).
Proof.
  intros Hw Hh Hs Hfloor. unfold border_rows.
  destruct (for_each_range_inv
              (fun i (gr : Grid) =>
                 shape w h gr
                 ∧ forall x y, in_bounds w h x y ->
                     cell gr x y
                     = Some (if bool_decide ((y = 0 ∨ y = h - 1) ∧ x < i)
                             then Wall else Floor))
              (fun x (gr : Grid) =>
                 match grid_set gr 0 x Wall with
                 | Ok gr' => grid_set gr' (h - 1) x Wall
                 | Raise e => Raise e
                 end)
              w grid) as (grid' & Hrun & Hs' & Hcells).
  - lia.
  - split; [exact Hs |]. intros x y Hb. rewrite (Hfloor x y Hb).
    destruct Hb as [Hx Hy]. rewrite bool_decide_eq_false_2 by lia. reflexivity.
  - intros i gr Hi [Hsg Hcg].
    assert (Hb0 : in_bounds w h i 0) by (unfold in_bounds; lia).
    assert (Hb1 : in_bounds w h i (h - 1)) by (unfold in_bounds; lia).
    rewrite (grid_set_ok w h gr i 0 Wall Hsg Hb0).
    rewrite (grid_set_ok w h _ i (h - 1) Wall (shape_upd w h gr i 0 Wall Hsg) Hb1).
    eexists. split; [reflexivity |]. split.
    + apply shape_upd. apply shape_upd. exact Hsg.
    + intros x y Hb.
      rewrite (cell_upd_and w h _ i (h - 1) x y Wall (shape_upd w h gr i 0 Wall Hsg) Hb1).
      rewrite (cell_upd_and w h gr i 0 x y Wall Hsg Hb0).
      rewrite (Hcg x y Hb). destruct Hb as [Hx Hy].
      repeat case_bool_decide; try reflexivity; exfalso; lia.
  - exists grid'. split; [exact Hrun |]. split; [exact Hs' |].
    intros x y Hb. rewrite (Hcells x y Hb). destruct Hb as [Hx Hy].
    repeat case_bool_decide; try reflexivity; exfalso; lia.
Qed.

(** After the second border loop: the whole ring is walls, the rest floor. *)
Lemma border_columns_spec (w h : Z) (grid : Grid) :
  1 <= w -> 1 <= h -> shape w h grid ->
  (forall x y, in_bounds w h x y ->
     cell grid x y = Some (if bool_decide (y = 0 ∨ y = h - 1) then Wall else Floor)) ->
  exists grid',
    border_columns w h grid = Ok grid' ∧ shape w h grid'
    ∧ forall x y, in_bounds w h x y ->
        cell grid' x y = Some (if bool_decide (on_border w h x y) then Wall else Floor).
Proof.
  intros Hw Hh Hs Hrows. unfold border_columns.
  destruct (for_each_range_inv
              (fun j (gr : Grid) =>
                 shape w h gr
                 ∧ forall x y, in_bounds w h x y ->
                     cell gr x y
                     = Some (if bool_decide (y = 0 ∨ y = h - 1
                                             ∨ ((x = 0 ∨ x = w - 1) ∧ y < j))
                             then Wall else Floor))
              (fun y (gr : Grid) =>
                 match grid_set gr y 0 Wall with
                 | Ok gr' => grid_set gr' y (w - 1) Wall
                 | Raise e => Raise e
                 end)
              h grid) as (grid' & Hrun & Hs' & Hcells).
  - lia.
  - split; [exact Hs |]. intros x y Hb. rewrite (Hrows x y Hb).
    destruct Hb as [Hx Hy].
    repeat case_bool_decide; try reflexivity; exfalso; lia.
  - intros j gr Hj [Hsg Hcg].
    assert (Hb0 : in_bounds w h 0 j) by (unfold in_bounds; lia).
    assert (Hb1 : in_bounds w h (w - 1) j) by (unfold in_bounds; lia).
    rewrite (grid_set_ok w h gr 0 j Wall Hsg Hb0).
    rewrite (grid_set_ok w h _ (w - 1) j Wall (shape_upd w h gr 0 j Wall Hsg) Hb1).
    eexists. split; [reflexivity |]. split.
    + apply shape_upd. apply shape_upd. exact Hsg.
    + intros x y Hb.
      rewrite (cell_upd_and w h _ (w - 1) j x y Wall (shape_upd w h gr 0 j Wall Hsg) Hb1).
      rewrite (cell_upd_and w h gr 0 j x y Wall Hsg Hb0).
      rewrite (Hcg x y Hb). destruct Hb as [Hx Hy].
      repeat case_bool_decide; try reflexivity; exfalso; lia.
  - exists grid'. split; [exact Hrun |]. split; [exact Hs' |].
    intros x y Hb. rewrite (Hcells x y Hb). destruct Hb as [Hx Hy].
    unfold on_border.
    repeat case_bool_decide; try reflexivity; exfalso; lia.
Qed.

Lemma foldl_union_keeps (A : Type) (f1 f2 : A -> Z * Z) (l : list A)
    (s : gset (Z * Z)) (p : Z * Z) :
  p ∈ s -> p ∈ foldl (fun f a => {[ f1 a ]} ∪ ({[ f2 a ]} ∪ f)) s l.
Proof.
  revert s. induction l as [|a l IH]; intros s Hp; simpl; [exact Hp |].
  apply IH. set_solver.
Qed.

(** The player's start stays forbidden after the border is added. *)
Lemma forbid_border_keeps (w h : Z) (s : gset (Z * Z)) (p : Z * Z) :
  p ∈ s -> p ∈ forbid_border w h s.
Proof.
  intros Hp. unfold forbid_border.
  apply (foldl_union_keeps Z (fun y => (w - 1, y)) (fun y => (0, y))).
  apply (foldl_union_keeps Z (fun x => (x, h - 1)) (fun x => (x, 0))).
  exact Hp.
Qed.

(** [build_world] on positive dimensions: it returns, the grid is a
    [height] by [width] rectangle whose ring is walls, it holds no exit,
    and the scalar fields are the initial ones. When both dimensions are
    at least 3 the player's start is a floor cell. *)
Lemma build_world_spec (w h : Z) (g : RNG) :
  1 <= w -> 1 <= h ->
  exists grid' g',
    build_world w h g
    = Ok ({| grid := grid'; player_pos := (w `div` 2, h `div` 2); score := 0; hp := 5;
             turn := 0; message := msg_welcome; exit_spawned := false; won := false |}, g')
    ∧ shape w h grid'
    ∧ border_walls w h grid'
    ∧ count_symbol grid' Exit = 0
    ∧ (3 <= w -> 3 <= h -> cell grid' (w `div` 2) (h `div` 2) = Some Floor)
    ∧ drew_at_most 80000 g g'.
Proof.
  intros Hw Hh. unfold build_world.
  destruct (border_rows_spec w h (make_grid w h Floor) Hw Hh) as (g1 & Hr1 & Hs1 & Hc1).
  { apply make_grid_shape; lia. }
  { intros x y Hb. apply make_grid_cell. exact Hb. }
  destruct (border_columns_spec w h g1 Hw Hh Hs1 Hc1) as (g2 & Hr2 & Hs2 & Hc2).
  rewrite (bind_ok _ _ _ _ _ (lift_ok _ _ g Hr1)).
  rewrite (bind_ok _ _ _ _ _ (lift_ok _ _ g Hr2)).
  set (forb := forbid_border w h {[ (w `div` 2, h `div` 2) ]}).
  assert (Hforb : (w `div` 2, h `div` 2) ∈ forb).
  { apply forbid_border_keeps. set_solver. }
  destruct (place_random_spec w h g2 Wall (Z.max 6 ((w * h) `div` 18)) forb g Hw Hh Hs2)
    as (g3 & r3 & Hp3 & Hs3 & Hk3 & Hf3 & _ & Hn3 & Hd3).
  rewrite (bind_ok _ _ _ _ _ Hp3).
  destruct (place_random_spec w h g3 Treasure (Z.max 4 ((w * h) `div` 30)) forb r3 Hw Hh Hs3)
    as (g4 & r4 & Hp4 & Hs4 & Hk4 & Hf4 & _ & Hn4 & Hd4).
  rewrite (bind_ok _ _ _ _ _ Hp4).
  destruct (place_random_spec w h g4 Trap (Z.max 4 ((w * h) `div` 35)) forb r4 Hw Hh Hs4)
    as (g5 & r5 & Hp5 & Hs5 & Hk5 & Hf5 & _ & Hn5 & Hd5).
  rewrite (bind_ok _ _ _ _ _ Hp5).
  destruct (place_random_spec w h g5 Heal 1 forb r5 Hw Hh Hs5)
    as (g6 & r6 & Hp6 & Hs6 & Hk6 & Hf6 & _ & Hn6 & Hd6).
  rewrite (bind_ok _ _ _ _ _ Hp6).
  exists g6, r6. split; [reflexivity |]. split; [exact Hs6 |].
  assert (Hwall : forall x y, cell g2 x y = Some Wall -> cell g6 x y = Some Wall).
  { intros x y Hc.
    assert (H3 : cell g3 x y = Some Wall) by (rewrite Hk3; congruence).
    assert (H4 : cell g4 x y = Some Wall) by (rewrite Hk4; congruence).
    assert (H5 : cell g5 x y = Some Wall) by (rewrite Hk5; congruence).
    rewrite Hk6; congruence. }
  split; [| split; [| split]].
  - intros x y Hb Hbord. apply Hwall. rewrite (Hc2 x y Hb).
    rewrite bool_decide_eq_true_2 by exact Hbord. reflexivity.
  - rewrite Hn6, Hn5, Hn4, Hn3 by congruence.
    apply count_symbol_zero. intros x y c Hc.
    pose proof (cell_Some_bounds w h g2 x y c Hs2 Hc) as Hb.
    rewrite (Hc2 x y Hb) in Hc. injection Hc as <-.
    case_bool_decide; congruence.
  - intros Hw3 Hh3.
    rewrite (Hf6 _ _ Hforb), (Hf5 _ _ Hforb), (Hf4 _ _ Hforb), (Hf3 _ _ Hforb).
    assert (Hb : in_bounds w h (w `div` 2) (h `div` 2)).
    { unfold in_bounds.
      pose proof (Z.div_pos w 2). pose proof (Z.div_lt_upper_bound w 2 w).
      pose proof (Z.div_pos h 2). pose proof (Z.div_lt_upper_bound h 2 h). lia. }
    rewrite (Hc2 _ _ Hb). rewrite bool_decide_eq_false_2; [reflexivity |].
    unfold on_border.
    pose proof (Z.div_le_lower_bound w 2 1). pose proof (Z.div_lt_upper_bound w 2 (w - 1)).
    pose proof (Z.div_le_lower_bound h 2 1). pose proof (Z.div_lt_upper_bound h 2 (h - 1)).
    lia.
  - apply (drew_trans 60000 20000 80000 g r5 r6); [| exact Hd6 | lia].
    apply (drew_trans 40000 20000 60000 g r4 r5); [| exact Hd5 | lia].
    apply (drew_trans 20000 20000 40000 g r3 r4); [exact Hd3 | exact Hd4 | lia].
Qed.

(** [build_world] on a dimension that is not positive raises
    [IndexError]: at the first border write, or in [place_random] when
    both loops are empty. *)
Lemma build_world_raises (w h : Z) (g : RNG) :
  w <= 0 ∨ h <= 0 -> build_world w h g = Raise IndexError.
Proof.
  intros Hbad. unfold build_world.
  destruct (Z_lt_le_dec 0 w) as [Hw|Hw].
  - assert (Hh : h <= 0) by lia.
    apply bind_raise. unfold lift, border_rows, range.
    rewrite seqZ_cons by lia. unfold make_grid.
    replace (Z.to_nat h) with 0%nat by lia. reflexivity.
  - assert (Hr1 : border_rows w h (make_grid w h Floor) = Ok (make_grid w h Floor)).
    { unfold border_rows, range. rewrite seqZ_nil by lia. reflexivity. }
    rewrite (bind_ok _ _ _ _ _ (lift_ok _ _ g Hr1)).
    destruct (Z_lt_le_dec 0 h) as [Hh|Hh].
    + apply bind_raise. unfold lift, border_columns, range.
      rewrite seqZ_cons by lia. unfold make_grid.
      replace (Z.to_nat w) with 0%nat by lia.
      destruct (Z.to_nat h) as [|n] eqn:Hn; [lia |]. reflexivity.
    + assert (Hr2 : border_columns w h (make_grid w h Floor) = Ok (make_grid w h Floor)).
      { unfold border_columns, range. rewrite seqZ_nil by lia. reflexivity. }
      rewrite (bind_ok _ _ _ _ _ (lift_ok _ _ g Hr2)).
      apply bind_raise. unfold place_random. apply bind_raise.
      unfold make_grid. replace (Z.to_nat h) with 0%nat by lia. reflexivity.
Qed.

End BuildFacts.

(* ===================================================================== *)
(** * Facts about moves                                                   *)
(* ===================================================================== *)

Module MoveFacts.
Import Dungeon PyFacts GridFacts BuildFacts.

Lemma after_draws_two (g : RNG) : after_draws 2 g (advance (advance g)).
Proof. unfold after_draws, advance. simpl. split; [reflexivity | lia]. Qed.

Lemma after_draws_zero (g : RNG) : after_draws 0 g g.
Proof. unfold after_draws. split; [reflexivity | lia]. Qed.

Lemma after_draws_trans (n m k : N) (g1 g2 g3 : RNG) :
  after_draws n g1 g2 -> after_draws m g2 g3 -> (n + m = k)%N -> after_draws k g1 g3.
Proof.
  unfold after_draws. intros [Hs1 Hc1] [Hs2 Hc2] Hk. split; [congruence | lia].
Qed.

(** [spawn_exit]'s loop: it returns, and what it did is an [exit_step_n]. *)
Lemma spawn_exit_loop_spec (w h : Z) (world : World) :
  shape w h (grid world) -> 3 <= w -> 3 <= h ->
  forall fuel g,
  exists world' g',
    spawn_exit_loop fuel w h world g = Ok (world', g')
    ∧ exit_step_n (N.of_nat fuel) w h world g world' g'.
Proof.
  intros Hs Hw Hh. induction fuel as [|fuel IH]; intros g.
  - exists (set_message msg_exit_failed world), g.
    split; [reflexivity |]. left. split; [reflexivity | apply after_draws_zero].
  - assert (Hskip : exists world' g',
               spawn_exit_loop fuel w h world (advance (advance g)) = Ok (world', g')
               ∧ exit_step_n (N.of_nat (S fuel)) w h world g world' g').
    { destruct (IH (advance (advance g))) as (world' & g' & Hrun & Hstep).
      exists world', g'. split; [exact Hrun |].
      destruct Hstep as [[Hw2 Hd] | (x & y & k & Hi & Hp & Hc & Hw2 & Hk & Hd)].
      - left. split; [exact Hw2 |].
        eapply after_draws_trans; [apply after_draws_two | exact Hd | lia].
      - right. exists x, y, (k + 1)%N.
        split; [exact Hi |]. split; [exact Hp |]. split; [exact Hc |].
        split; [exact Hw2 |]. split; [lia |].
        eapply after_draws_trans; [apply after_draws_two | exact Hd | lia]. }
    cbn [spawn_exit_loop].
    destruct (randrange_ok 1 (w - 1) g) as (x & Hx & Hxr); [lia |].
    rewrite (bind_ok _ _ _ _ _ Hx).
    destruct (randrange_ok 1 (h - 1) (advance g)) as (y & Hy & Hyr); [lia |].
    rewrite (bind_ok _ _ _ _ _ Hy).
    case_bool_decide as Hpl; [exact Hskip |].
    assert (Hb : in_bounds w h x y) by (unfold in_bounds; lia).
    destruct (grid_get_ok w h (grid world) x y Hs Hb) as (c & Hget & Hcell).
    rewrite (bind_ok _ _ _ _ _ (lift_ok _ _ _ Hget)).
    case_bool_decide as Hfloor; [| exact Hskip].
    subst c.
    rewrite (bind_ok _ _ _ _ _ (lift_ok _ _ _ (grid_set_ok w h _ x y Exit Hs Hb))).
    eexists _, _. split; [reflexivity |].
    right. exists x, y, 1%N. split; [unfold interior; lia |].
    split; [exact Hpl |]. split; [exact Hcell |]. split; [reflexivity |].
    split; [lia | apply after_draws_two].
Qed.

Lemma spawn_exit_spec (w h : Z) (world : World) (g : RNG) :
  shape w h (grid world) -> 3 <= w -> 3 <= h ->
  exists world' g',
    spawn_exit world g = Ok (world', g') ∧ exit_step w h world g world' g'.
Proof.
  intros Hs Hw Hh.
  destruct (shape_row0 w h (grid world) Hs) as (row0 & Hrow0 & Hlen0 & _); [lia |].
  unfold spawn_exit. rewrite (bind_ok _ _ _ _ _ (lift_ok _ _ _ Hrow0)).
  rewrite Hlen0. replace (len (grid world)) with h by (destruct Hs; congruence).
  destruct (spawn_exit_loop_spec w h world Hs Hw Hh 200%nat g)
    as (world' & g' & Hrun & Hstep).
  exists world', g'. split; [exact Hrun | exact Hstep].
Qed.

(** [maybe_spawn]'s loop for [symbol]: it returns, and what it did is a
    [spawn_step_n] with the flavor text of the symbol. *)
Lemma maybe_spawn_loop_spec (w h : Z) (symbol : Cell) (world : World) :
  shape w h (grid world) -> 3 <= w -> 3 <= h ->
  forall fuel g,
  exists world' g',
    maybe_spawn_loop fuel w h symbol world g = Ok (world', g')
    ∧ spawn_step_n (N.of_nat fuel) w h symbol
        (if bool_decide (symbol = Treasure) then msg_spawn_treasure else msg_spawn_trap)
        world g world' g'.
Proof.
  intros Hs Hw Hh. induction fuel as [|fuel IH]; intros g.
  - exists world, g.
    split; [reflexivity |]. left. split; [reflexivity | apply after_draws_zero].
  - assert (Hskip : exists world' g',
               maybe_spawn_loop fuel w h symbol world (advance (advance g)) = Ok (world', g')
               ∧ spawn_step_n (N.of_nat (S fuel)) w h symbol
                   (if bool_decide (symbol = Treasure)
                    then msg_spawn_treasure else msg_spawn_trap) world g world' g').
    { destruct (IH (advance (advance g))) as (world' & g' & Hrun & Hstep).
      exists world', g'. split; [exact Hrun |].
      destruct Hstep as [[Hw2 Hd] | (x & y & k & Hi & Hp & Hc & Hw2 & Hk & Hd)].
      - left. split; [exact Hw2 |].
        eapply after_draws_trans; [apply after_draws_two | exact Hd | lia].
      - right. exists x, y, (k + 1)%N.
        split; [exact Hi |]. split; [exact Hp |]. split; [exact Hc |].
        split; [exact Hw2 |]. split; [lia |].
        eapply after_draws_trans; [apply after_draws_two | exact Hd | lia]. }
    cbn [maybe_spawn_loop].
    destruct (randrange_ok 1 (w - 1) g) as (x & Hx & Hxr); [lia |].
    rewrite (bind_ok _ _ _ _ _ Hx).
    destruct (randrange_ok 1 (h - 1) (advance g)) as (y & Hy & Hyr); [lia |].
    rewrite (bind_ok _ _ _ _ _ Hy).
    destruct (decide ((x, y) = player_pos world)) as [Hpl|Hpl];
      [rewrite (bool_decide_eq_true_2 _ Hpl); exact Hskip
      | rewrite (bool_decide_eq_false_2 _ Hpl)].
    assert (Hb : in_bounds w h x y) by (unfold in_bounds; lia).
    destruct (grid_get_ok w h (grid world) x y Hs Hb) as (c & Hget & Hcell).
    rewrite (bind_ok _ _ _ _ _ (lift_ok _ _ _ Hget)).
    destruct (decide (c = Floor)) as [Hfloor|Hfloor];
      [rewrite (bool_decide_eq_true_2 _ Hfloor)
      | rewrite (bool_decide_eq_false_2 _ Hfloor); exact Hskip].
    subst c.
    rewrite (bind_ok _ _ _ _ _ (lift_ok _ _ _ (grid_set_ok w h _ x y symbol Hs Hb))).
    exists (set_message
              (message world +:+
                 (if bool_decide (symbol = Treasure)
                  then msg_spawn_treasure else msg_spawn_trap))
              (set_grid (upd (grid world) x y symbol) world)),
           (advance (advance g)).
    split.
    + destruct (bool_decide (symbol = Treasure)); reflexivity.
    + right. exists x, y, 1%N. split; [unfold interior; lia |].
      split; [exact Hpl |]. split; [exact Hcell |]. split; [reflexivity |].
      split; [lia | apply after_draws_two].
Qed.

(** Which rolls select what. A roll is [k / 2^53] with [0 <= k < 2^53]:
    it is below [0.12] exactly for [k < 1080863910568919], the roll of
    [k = 1080863910568919] being the float [0.12] itself, and below
    [0.20] exactly for [k <= 1801439850948198]. *)
Lemma below_low_threshold (g : RNG) :
  below (roll_of g) low_threshold
  = bool_decide (peek g `mod` 2 ^ 53 < 1080863910568919).
Proof.
  unfold below, roll_of, low_threshold, Qle_bool. cbn [Qnum Qden].
  set (k := peek g `mod` 2 ^ 53).
  destruct (Z.leb_spec (1080863910568919 * Z.pos (2 ^ 53)) (k * Z.pos (2 ^ 53)))
    as [Hle | Hlt]; cbn [negb]; symmetry.
  - apply bool_decide_eq_false_2. lia.
  - apply bool_decide_eq_true_2. lia.
Qed.

Lemma below_high_threshold (g : RNG) :
  below (roll_of g) high_threshold
  = bool_decide (peek g `mod` 2 ^ 53 <= 1801439850948198).
Proof.
  unfold below, roll_of, high_threshold, Qle_bool. cbn [Qnum Qden].
  set (k := peek g `mod` 2 ^ 53).
  destruct (Z.leb_spec (3602879701896397 * Z.pos (2 ^ 53)) (k * Z.pos (2 ^ 54)))
    as [Hle | Hlt]; cbn [negb]; symmetry.
  - apply bool_decide_eq_false_2. lia.
  - apply bool_decide_eq_true_2. lia.
Qed.

Lemma maybe_spawn_off (world : World) (g : RNG) :
  exit_spawned world = true -> maybe_spawn world g = Ok (world, g).
Proof. intros Hx. unfold maybe_spawn. rewrite Hx. reflexivity. Qed.

(** [maybe_spawn], branch by branch. *)
Lemma maybe_spawn_spec (w h : Z) (world : World) (g : RNG) :
  shape w h (grid world) -> 3 <= w -> 3 <= h ->
  exists world' g',
    maybe_spawn world g = Ok (world', g')
    ∧ if exit_spawned world then world' = world ∧ g' = g
      else if below (roll_of g) low_threshold then
        spawn_step w h Treasure msg_spawn_treasure world (advance g) world' g'
      else if below (roll_of g) high_threshold then
        spawn_step w h Trap msg_spawn_trap world (advance g) world' g'
      else world' = world ∧ g' = advance g.
Proof.
  intros Hs Hw Hh. unfold maybe_spawn.
  destruct (exit_spawned world).
  { exists world, g. split; [reflexivity | split; reflexivity]. }
  assert (Hroll : random g = Ok (roll_of g, advance g)) by reflexivity.
  rewrite (bind_ok _ _ _ _ _ Hroll).
  destruct (shape_row0 w h (grid world) Hs) as (row0 & Hrow0 & Hlen0 & _); [lia |].
  assert (Hlen : len (grid world) = h) by (destruct Hs; assumption).
  destruct (below (roll_of g) low_threshold).
  - rewrite (bind_ok _ _ _ _ _ (lift_ok _ _ _ Hrow0)). rewrite Hlen0, Hlen.
    destruct (maybe_spawn_loop_spec w h Treasure world Hs Hw Hh 60%nat (advance g))
      as (world' & g' & Hrun & Hstep).
    exists world', g'. split; [exact Hrun | exact Hstep].
  - destruct (below (roll_of g) high_threshold).
    + rewrite (bind_ok _ _ _ _ _ (lift_ok _ _ _ Hrow0)). rewrite Hlen0, Hlen.
      destruct (maybe_spawn_loop_spec w h Trap world Hs Hw Hh 60%nat (advance g))
        as (world' & g' & Hrun & Hstep).
      exists world', g'. split; [exact Hrun | exact Hstep].
    + exists world, (advance g). split; [reflexivity | split; reflexivity].
Qed.

Lemma exit_step_shape (w h : Z) (w1 w2 : World) (g1 g2 : RNG) :
  exit_step w h w1 g1 w2 g2 -> shape w h (grid w1) -> shape w h (grid w2).
Proof.
  intros [[-> _] | (x & y & k & _ & _ & _ & -> & _)] Hs; simpl; [exact Hs |].
  apply shape_upd. exact Hs.
Qed.

Lemma spawn_step_shape (w h : Z) (symbol : Cell) (suffix : string) (w1 w2 : World)
    (g1 g2 : RNG) :
  spawn_step w h symbol suffix w1 g1 w2 g2 -> shape w h (grid w1) -> shape w h (grid w2).
Proof.
  intros [[-> _] | (x & y & k & _ & _ & _ & -> & _)] Hs; simpl; [exact Hs |].
  apply shape_upd. exact Hs.
Qed.

(** The post-move steps return: an exit phase, then [maybe_spawn]. *)
Lemma post_move_spec (w h : Z) (w1 : World) (g : RNG) :
  shape w h (grid w1) -> 3 <= w -> 3 <= h ->
  exists w2 g2 w3 g3,
    post_move w1 g = Ok (w3, g3)
    ∧ exit_phase w h w1 g w2 g2
    ∧ maybe_spawn w2 g2 = Ok (w3, g3).
Proof.
  intros Hs Hw Hh. unfold post_move, exit_phase.
  destruct (negb (exit_spawned w1) && bool_decide (count_symbol (grid w1) Treasure = 0)).
  - destruct (spawn_exit_spec w h w1 g Hs Hw Hh) as (w2 & g2 & Hrun & Hstep).
    destruct (maybe_spawn_spec w h w2 g2 (exit_step_shape w h w1 w2 g g2 Hstep Hs) Hw Hh)
      as (w3 & g3 & Hrun3 & _).
    exists w2, g2, w3, g3. rewrite (bind_ok _ _ _ _ _ Hrun).
    split; [exact Hrun3 | split; [exact Hstep | exact Hrun3]].
  - destruct (maybe_spawn_spec w h w1 g Hs Hw Hh) as (w3 & g3 & Hrun3 & _).
    exists w1, g, w3, g3.
    split; [exact Hrun3 | split; [split; reflexivity | exact Hrun3]].
Qed.

(** The candidate coordinate is computed without raising and lies in the
    grid, wherever the player stands. *)
Lemma candidate_ok (w h : Z) (world : World) (dx dy : Z) :
  shape w h (grid world) -> 1 <= w -> 1 <= h ->
  candidate world dx dy = Ok (destination world dx dy)
  ∧ in_bounds w h (fst (destination world dx dy)) (snd (destination world dx dy)).
Proof.
  intros Hs Hw Hh.
  destruct (shape_row0 w h (grid world) Hs Hh) as (row0 & Hrow0 & Hlen0 & Hwid).
  assert (Hlen : len (grid world) = h) by (destruct Hs; assumption).
  unfold candidate, destination. destruct (player_pos world) as [px py].
  rewrite Hrow0, Hlen0, Hwid, Hlen. simpl. split; [reflexivity |].
  unfold in_bounds.
  pose proof (clamp_bounds (px + dx) 0 (w - 1)).
  pose proof (clamp_bounds (py + dy) 0 (h - 1)). lia.
Qed.

Lemma choice_flavors (g : RNG) :
  exists m, choice msg_flavors g = Ok (m, advance g) ∧ m ∈ msg_flavors.
Proof.
  unfold choice. change (len msg_flavors) with 4.
  rewrite bool_decide_eq_false_2 by lia.
  pose proof (Z.mod_pos_bound (peek g) 4) as Hm.
  destruct (lookup_lt_is_Some_2 msg_flavors (Z.to_nat (peek g `mod` 4))) as [m Hlk].
  - simpl. lia.
  - exists m. rewrite Hlk. split; [reflexivity |].
    apply list_elem_of_lookup. eauto.
Qed.

(** A cell that is not a wall lies off the border ring, so the grid is at
    least 3 by 3. *)
Lemma off_border (w h : Z) (grid : Grid) (x y : Z) (c : Cell) :
  border_walls w h grid -> in_bounds w h x y -> cell grid x y = Some c -> c ≠ Wall ->
  interior w h x y.
Proof.
  intros Hbw Hb Hc Hne.
  destruct (decide (on_border w h x y)) as [Hon|Hoff].
  - rewrite (Hbw x y Hb Hon) in Hc. congruence.
  - unfold on_border in Hoff. unfold in_bounds in Hb. unfold interior. lia.
Qed.

(** Every move on a sound world returns, and its result is one of the
    four outcomes of [move_outcome]. *)
Lemma try_move_spec (w h : Z) (world : World) (dx dy : Z) (g : RNG) :
  sound w h world ->
  exists world' g',
    try_move world dx dy g = Ok (world', g')
    ∧ move_outcome w h world dx dy g world' g'.
Proof.
  intros [Hw Hh Hs Hbw Hpl Hex].
  destruct (candidate_ok w h world dx dy Hs Hw Hh) as [Hcand Hb].
  unfold try_move. rewrite (bind_ok _ _ _ _ _ (lift_ok _ _ g Hcand)).
  destruct (destination world dx dy) as [nx ny] eqn:Hdest. simpl in Hb.
  destruct (grid_get_ok w h (grid world) nx ny Hs Hb) as (t & Hget & Hcell).
  rewrite (bind_ok _ _ _ _ _ (lift_ok _ _ g Hget)).
  assert (Htarget : target world dx dy = Some t).
  { unfold target. rewrite Hdest. exact Hcell. }
  destruct (decide (t = Wall)) as [->|Hnw].
  { rewrite bool_decide_eq_true_2 by reflexivity.
    exists (set_message msg_wall world), g. split; [reflexivity |].
    apply move_blocked. exact Htarget. }
  rewrite (bool_decide_eq_false_2 _ Hnw).
  pose proof (off_border w h (grid world) nx ny t Hbw Hb Hcell Hnw) as Hint.
  assert (Hw3 : 3 <= w) by (unfold interior in Hint; lia).
  assert (Hh3 : 3 <= h) by (unfold interior in Hint; lia).
  assert (Hset : grid_set (grid world) ny nx Floor = Ok (upd (grid world) nx ny Floor)).
  { apply (grid_set_ok w h); assumption. }
  assert (Hconsume : forall t', t' = Treasure ∨ t' = Trap ∨ t' = Heal -> t = t' ->
            exists world' g',
              post_move (arrive world dx dy t') g = Ok (world', g')
              ∧ move_outcome w h world dx dy g world' g').
  { intros t' Ht' ->.
    destruct (post_move_spec w h (arrive world dx dy t') g) as (w2 & g2 & w3 & g3 & Hrun & Hph & Hms);
      [| exact Hw3 | exact Hh3 |].
    - unfold arrive. rewrite Hdest.
      destruct Ht' as [-> | [-> | ->]]; simpl; apply shape_upd; exact Hs.
    - exists w3, g3. split; [exact Hrun |].
      exact (move_consumes w h world dx dy g t' w2 g2 w3 g3 Htarget Ht' Hph Hms). }
  destruct t; try contradiction.
  - destruct (choice_flavors g) as (m & Hm & Hin).
    rewrite (bind_ok _ _ _ _ _ Hm).
    destruct (post_move_spec w h (set_message m (arrive world dx dy Floor)) (advance g))
      as (w2 & g2 & w3 & g3 & Hrun & Hph & Hms); [| exact Hw3 | exact Hh3 |].
    + unfold arrive. rewrite Hdest. simpl. exact Hs.
    + exists w3, g3. unfold arrive in Hrun. rewrite Hdest in Hrun. split; [exact Hrun |].
      exact (move_walks w h world dx dy g m w2 g2 w3 g3 Htarget Hin Hph Hms).
  - simpl. rewrite (bind_ok _ _ _ _ _ (lift_ok _ _ g Hset)).
    destruct (Hconsume Treasure) as (world' & g' & Hrun & Hout); [tauto | reflexivity |].
    exists world', g'. unfold arrive in Hrun. rewrite Hdest in Hrun.
    split; [exact Hrun | exact Hout].
  - simpl. rewrite (bind_ok _ _ _ _ _ (lift_ok _ _ g Hset)).
    destruct (Hconsume Trap) as (world' & g' & Hrun & Hout); [tauto | reflexivity |].
    exists world', g'. unfold arrive in Hrun. rewrite Hdest in Hrun.
    split; [exact Hrun | exact Hout].
  - simpl. rewrite (bind_ok _ _ _ _ _ (lift_ok _ _ g Hset)).
    destruct (Hconsume Heal) as (world' & g' & Hrun & Hout); [tauto | reflexivity |].
    exists world', g'. unfold arrive in Hrun. rewrite Hdest in Hrun.
    split; [exact Hrun | exact Hout].
  - exists (arrive world dx dy Exit), g. split.
    + unfold arrive. rewrite Hdest. reflexivity.
    + apply move_wins. exact Htarget.
Qed.

(** ** The invariant is kept *)

Lemma border_walls_upd (w h : Z) (grid : Grid) (x y : Z) (old c : Cell) :
  shape w h grid -> in_bounds w h x y -> cell grid x y = Some old -> old ≠ Wall ->
  border_walls w h grid -> border_walls w h (upd grid x y c).
Proof.
  intros Hs Hb Hold Hne Hbw x' y' Hb' Hon.
  rewrite (cell_upd w h grid x y x' y' c Hs Hb).
  case_bool_decide as Heq; [| apply Hbw; assumption].
  injection Heq as -> ->. rewrite (Hbw x y Hb Hon) in Hold. congruence.
Qed.

Lemma interior_in_bounds (w h x y : Z) : interior w h x y -> in_bounds w h x y.
Proof. unfold interior, in_bounds. lia. Qed.

Lemma sound_set_message (w h : Z) (world : World) (m : string) :
  sound w h world -> sound w h (set_message m world).
Proof. intros [? ? ? ? ? ?]. constructor; assumption. Qed.

Lemma clear_set_message (world : World) (m : string) :
  clear world -> clear (set_message m world).
Proof. intros Hc. exact Hc. Qed.

(** Stepping on a cell that is not a wall keeps the invariant and leaves
    the player on a cell that is not a wall. *)
Lemma sound_arrive (w h : Z) (world : World) (dx dy : Z) (t : Cell) :
  sound w h world -> target world dx dy = Some t -> t ≠ Wall ->
  sound w h (arrive world dx dy t) ∧ clear (arrive world dx dy t).
Proof.
  intros [Hw Hh Hs Hbw Hpl Hex] Ht Hnw.
  destruct (candidate_ok w h world dx dy Hs Hw Hh) as [_ Hb].
  unfold target in Ht. unfold arrive.
  destruct (destination world dx dy) as [nx ny]. simpl in Hb, Ht.
  assert (Hupd : forall hpv scv msg,
            let world' :=
              set_grid (upd (grid world) nx ny Floor)
                (set_message msg (set_hp hpv (set_score scv
                   (set_turn (turn world + 1) (set_player_pos (nx, ny) world))))) in
            t ≠ Exit -> sound w h world' ∧ clear world').
  { intros hpv scv msg world' Hne. split.
    - constructor; simpl; try assumption.
      + apply shape_upd. exact Hs.
      + eapply border_walls_upd; eassumption.
      + rewrite (count_upd (grid world) nx ny t Floor Exit Ht). rewrite Hex.
        unfold tick. destruct (decide (t = Exit)); [contradiction |].
        destruct (decide (Floor = Exit)); [discriminate | lia].
    - exists Floor. simpl. split; [| discriminate].
      eapply cell_upd_eq; eassumption. }
  destruct t; try contradiction.
  - split; [constructor; simpl; assumption |]. exists Floor. simpl. split; [exact Ht | discriminate].
  - apply (Hupd (hp world) (score world + 10) msg_treasure). discriminate.
  - apply (Hupd (hp world - 1) (score world) msg_trap). discriminate.
  - apply (Hupd (hp world + 2) (score world) msg_heal). discriminate.
  - split; [constructor; simpl; assumption |]. exists Exit. simpl. split; [exact Ht | discriminate].
Qed.

Lemma sound_exit_step (w h : Z) (w1 w2 : World) (g1 g2 : RNG) :
  sound w h w1 -> exit_spawned w1 = false -> exit_step w h w1 g1 w2 g2 ->
  sound w h w2 ∧ (clear w1 -> clear w2).
Proof.
  intros Hsound Hflag [[-> _] | (x & y & k & Hi & Hp & Hc & -> & _)].
  - split; [apply sound_set_message; exact Hsound | intros Hcl; exact Hcl].
  - destruct Hsound as [Hw Hh Hs Hbw Hpl Hex].
    pose proof (interior_in_bounds w h x y Hi) as Hb. split.
    + constructor; simpl; try assumption.
      * apply shape_upd. exact Hs.
      * eapply border_walls_upd; try eassumption. discriminate.
      * rewrite (count_upd (grid w1) x y Floor Exit Exit Hc). rewrite Hex, Hflag.
        reflexivity.
    + intros (c & Hcell & Hne). exists c. simpl. split; [| exact Hne].
      rewrite cell_upd_ne; [exact Hcell | unfold in_bounds in Hb; lia ..|].
      destruct (player_pos w1) as [px py]. simpl. congruence.
Qed.

Lemma sound_spawn_step (w h : Z) (symbol : Cell) (suffix : string) (w1 w2 : World)
    (g1 g2 : RNG) :
  sound w h w1 -> symbol ≠ Exit -> spawn_step w h symbol suffix w1 g1 w2 g2 ->
  sound w h w2 ∧ (clear w1 -> clear w2) ∧ exit_spawned w2 = exit_spawned w1.
Proof.
  intros Hsound Hsym [[-> _] | (x & y & k & Hi & Hp & Hc & -> & _)].
  - split; [exact Hsound | split; [intros Hcl; exact Hcl | reflexivity]].
  - destruct Hsound as [Hw Hh Hs Hbw Hpl Hex].
    pose proof (interior_in_bounds w h x y Hi) as Hb. split; [| split; [| reflexivity]].
    + constructor; simpl; try assumption.
      * apply shape_upd. exact Hs.
      * eapply border_walls_upd; try eassumption. discriminate.
      * rewrite (count_upd (grid w1) x y Floor symbol Exit Hc). rewrite Hex.
        unfold tick. destruct (decide (symbol = Exit)); [contradiction |].
        destruct (decide (Floor = Exit)); [discriminate | lia].
    + intros (c & Hcell & Hne). exists c. simpl. split; [| exact Hne].
      rewrite cell_upd_ne; [exact Hcell | unfold in_bounds in Hb; lia ..|].
      destruct (player_pos w1) as [px py]. simpl. congruence.
Qed.

Lemma sound_maybe_spawn (w h : Z) (w2 w3 : World) (g2 g3 : RNG) :
  sound w h w2 -> 3 <= w -> 3 <= h -> maybe_spawn w2 g2 = Ok (w3, g3) ->
  sound w h w3 ∧ (clear w2 -> clear w3) ∧ exit_spawned w3 = exit_spawned w2.
Proof.
  intros Hsound Hw Hh Hrun.
  destruct (maybe_spawn_spec w h w2 g2 (sound_shape _ _ _ Hsound) Hw Hh)
    as (w3' & g3' & Hrun' & Hcases).
  rewrite Hrun in Hrun'. injection Hrun' as <- <-.
  destruct (exit_spawned w2) eqn:Hflag.
  { destruct Hcases as [-> ->]. rewrite Hflag. tauto. }
  destruct (below (roll_of g2) low_threshold).
  { rewrite <- Hflag.
    apply (sound_spawn_step w h Treasure msg_spawn_treasure w2 w3 (advance g2) g3 Hsound);
      [discriminate | exact Hcases]. }
  destruct (below (roll_of g2) high_threshold).
  { rewrite <- Hflag.
    apply (sound_spawn_step w h Trap msg_spawn_trap w2 w3 (advance g2) g3 Hsound);
      [discriminate | exact Hcases]. }
  destruct Hcases as [-> ->]. rewrite Hflag. tauto.
Qed.

Lemma exit_phase_flag (w h : Z) (w1 w2 : World) (g1 g2 : RNG) :
  exit_phase w h w1 g1 w2 g2 ->
  (w2 = w1 ∧ g2 = g1)
  ∨ (exit_spawned w1 = false ∧ count_symbol (grid w1) Treasure = 0
     ∧ exit_step w h w1 g1 w2 g2).
Proof.
  unfold exit_phase. destruct (exit_spawned w1); simpl; [tauto |].
  case_bool_decide; [| tauto]. intros Hstep. right. tauto.
Qed.

Lemma sound_exit_phase (w h : Z) (w1 w2 : World) (g1 g2 : RNG) :
  sound w h w1 -> exit_phase w h w1 g1 w2 g2 ->
  sound w h w2 ∧ (clear w1 -> clear w2).
Proof.
  intros Hsound Hph.
  destruct (exit_phase_flag w h w1 w2 g1 g2 Hph) as [[-> _] | (Hflag & _ & Hstep)].
  - tauto.
  - eapply sound_exit_step; eassumption.
Qed.

(** A move that is not blocked happens on a grid of at least 3 by 3. *)
Lemma open_target_dims (w h : Z) (world : World) (dx dy : Z) (t : Cell) :
  sound w h world -> target world dx dy = Some t -> t ≠ Wall -> 3 <= w ∧ 3 <= h.
Proof.
  intros [Hw Hh Hs Hbw Hpl Hex] Ht Hnw.
  destruct (candidate_ok w h world dx dy Hs Hw Hh) as [_ Hb].
  pose proof (off_border w h (grid world) _ _ t Hbw Hb Ht Hnw) as Hi.
  unfold interior in Hi. lia.
Qed.

(** Every outcome of a move keeps the invariant; the player ends on a
    cell that is not a wall if it started on one. *)
Lemma sound_move_outcome (w h : Z) (world : World) (dx dy : Z) (g : RNG)
    (world' : World) (g' : RNG) :
  sound w h world -> move_outcome w h world dx dy g world' g' ->
  sound w h world' ∧ (clear world -> clear world').
Proof.
  intros Hsound Hout.
  destruct Hout as [Ht | Ht | t w2 g2 w3 g3 Ht Hkind Hph Hms | m w2 g2 w3 g3 Ht Hin Hph Hms].
  - split; [apply sound_set_message; exact Hsound | intros Hcl; exact Hcl].
  - destruct (sound_arrive w h world dx dy Exit Hsound Ht) as [Hs1 Hc1]; [discriminate |].
    split; [exact Hs1 | intros _; exact Hc1].
  - assert (Hnw : t ≠ Wall) by (destruct Hkind as [-> | [-> | ->]]; discriminate).
    destruct (open_target_dims w h world dx dy t Hsound Ht Hnw) as [Hw3 Hh3].
    destruct (sound_arrive w h world dx dy t Hsound Ht Hnw) as [Hs1 Hc1].
    destruct (sound_exit_phase w h _ w2 g g2 Hs1 Hph) as [Hs2 Hc2].
    destruct (sound_maybe_spawn w h w2 w3 g2 g3 Hs2 Hw3 Hh3 Hms) as (Hs3 & Hc3 & _).
    split; [exact Hs3 | intros _; apply Hc3, Hc2, Hc1].
  - destruct (open_target_dims w h world dx dy Floor Hsound Ht) as [Hw3 Hh3]; [discriminate |].
    destruct (sound_arrive w h world dx dy Floor Hsound Ht) as [Hs1 Hc1]; [discriminate |].
    destruct (sound_exit_phase w h _ w2 (advance g) g2
                (sound_set_message w h _ m Hs1) Hph) as [Hs2 Hc2].
    destruct (sound_maybe_spawn w h w2 w3 g2 g3 Hs2 Hw3 Hh3 Hms) as (Hs3 & Hc3 & _).
    split; [exact Hs3 | intros _; apply Hc3, Hc2, Hc1].
Qed.

(** The world that [build_world] returns is sound; it can only return on
    positive dimensions. *)
Lemma build_world_sound (w h : Z) (g : RNG) (world : World) (g' : RNG) :
  build_world w h g = Ok (world, g') ->
  sound w h world ∧ (3 <= w -> 3 <= h -> clear world).
Proof.
  intros Hrun.
  destruct (Z_lt_le_dec 0 w) as [Hw|Hw];
    [| rewrite build_world_raises in Hrun by lia; discriminate].
  destruct (Z_lt_le_dec 0 h) as [Hh|Hh];
    [| rewrite build_world_raises in Hrun by lia; discriminate].
  destruct (build_world_spec w h g) as (grid' & g'' & Hrun' & Hs & Hbw & Hex & Hfl & _);
    [lia | lia |].
  rewrite Hrun in Hrun'. injection Hrun' as -> ->. split.
  - constructor; simpl; try assumption; try lia.
    unfold in_bounds.
    pose proof (Z.div_pos w 2). pose proof (Z.div_lt_upper_bound w 2 w).
    pose proof (Z.div_pos h 2). pose proof (Z.div_lt_upper_bound h 2 h). lia.
  - intros Hw3 Hh3. exists Floor. simpl. split; [apply Hfl; assumption | discriminate].
Qed.

(** Every reachable world is sound. *)
Lemma reachable_sound (w h : Z) (world : World) :
  reachable w h world -> sound w h world ∧ (3 <= w -> 3 <= h -> clear world).
Proof.
  induction 1 as [g world g' Hrun | world dx dy g world' g' Hreach IH Hrun
                 | world m Hreach IH].
  - eapply build_world_sound. exact Hrun.
  - destruct IH as [Hsound Hclear].
    destruct (try_move_spec w h world dx dy g Hsound) as (w'' & g'' & Hrun' & Hout).
    rewrite Hrun in Hrun'. injection Hrun' as <- <-.
    destruct (sound_move_outcome w h world dx dy g world' g' Hsound Hout) as [Hs' Hc'].
    split; [exact Hs' | intros Hw3 Hh3; apply Hc', Hclear; assumption].
  - destruct IH as [Hsound Hclear].
    split; [apply sound_set_message; exact Hsound | exact Hclear].
Qed.

End MoveFacts.

(* ===================================================================== *)
(** * Facts about blocked and winning moves, and about commands           *)
(* ===================================================================== *)

Module LoopFacts.
Import Dungeon PyFacts GridFacts BuildFacts MoveFacts.

(** A cell that exists is read without raising, whatever the grid. *)
Lemma cell_grid_get (grid : Grid) (x y : Z) (c : Cell) :
  cell grid x y = Some c -> grid_get grid y x = Ok c.
Proof.
  unfold cell. case_bool_decide as Hxy; [| discriminate].
  destruct (grid !! Z.to_nat y) as [row|] eqn:Hrow; [| discriminate].
  simpl. intros Hc.
  pose proof (lookup_lt_Some _ _ _ Hrow) as Hy.
  pose proof (lookup_lt_Some _ _ _ Hc) as Hx.
  unfold grid_get, getitem.
  rewrite index_of_nonneg by (unfold len; lia). rewrite Hrow.
  rewrite index_of_nonneg by (unfold len; lia). rewrite Hc. reflexivity.
Qed.

Lemma target_candidate (world : World) (dx dy : Z) (c : Cell) :
  target world dx dy = Some c -> candidate world dx dy = Ok (destination world dx dy).
Proof.
  unfold target, cell. case_bool_decide as Hxy; [| discriminate].
  destruct (grid world !! _) as [row|] eqn:Hrow; [| discriminate]. intros _.
  unfold candidate, destination.
  destruct (player_pos world) as [px py]. simpl.
  destruct (grid world) as [|row0 rest] eqn:Hgrid; [discriminate |].
  unfold getitem. rewrite index_of_nonneg by (unfold len; simpl; lia). reflexivity.
Qed.

(** A move into a wall, on any world: only the message changes and no
    random draw is made. *)
Lemma try_move_wall (world : World) (dx dy : Z) (g : RNG) :
  target world dx dy = Some Wall ->
  try_move world dx dy g = Ok (set_message msg_wall world, g).
Proof.
  intros Ht. unfold try_move.
  rewrite (bind_ok _ _ _ _ _ (lift_ok _ _ g (target_candidate world dx dy Wall Ht))).
  unfold target in Ht. destruct (destination world dx dy) as [nx ny]. simpl in Ht.
  rewrite (bind_ok _ _ _ _ _ (lift_ok _ _ g (cell_grid_get _ _ _ _ Ht))).
  reflexivity.
Qed.

(** A move onto the exit, on any world: the function returns right after
    setting [won] and the message, without any random draw. *)
Lemma try_move_exit (world : World) (dx dy : Z) (g : RNG) :
  target world dx dy = Some Exit ->
  try_move world dx dy g = Ok (arrive world dx dy Exit, g).
Proof.
  intros Ht. unfold try_move, arrive.
  rewrite (bind_ok _ _ _ _ _ (lift_ok _ _ g (target_candidate world dx dy Exit Ht))).
  unfold target in Ht. destruct (destination world dx dy) as [nx ny]. simpl in Ht.
  rewrite (bind_ok _ _ _ _ _ (lift_ok _ _ g (cell_grid_get _ _ _ _ Ht))).
  reflexivity.
Qed.

Lemma lstrip_keeps_last (s : list N) (c : N) :
  is_space c = false -> exists s', lstrip (s ++ [c]) = s' ++ [c].
Proof.
  intros Hc. induction s as [|a s IH]; simpl.
  - rewrite Hc. exists []. reflexivity.
  - destruct (is_space a); [exact IH |]. exists (a :: s). reflexivity.
Qed.

Lemma lstrip_head (s : list N) (c : N) (rest : list N) :
  lstrip s = c :: rest -> is_space c = false.
Proof.
  induction s as [|a s IH]; simpl; [discriminate |].
  destruct (is_space a) eqn:Ha; [exact IH |].
  intros Heq. injection Heq as <- _. exact Ha.
Qed.

(** Stripping keeps the first character that is not white space at the
    front. *)
Lemma strip_head (s : list N) (c : N) (rest : list N) :
  lstrip s = c :: rest -> exists rest', strip s = c :: rest'.
Proof.
  intros Hl. pose proof (lstrip_head s c rest Hl) as Hc.
  unfold strip. rewrite Hl. rewrite reverse_cons.
  destruct (lstrip_keeps_last (reverse rest) c Hc) as [s' Hs'].
  rewrite Hs'. rewrite reverse_app. simpl. exists (reverse s'). reflexivity.
Qed.

Section Commands.
Context `{UnicodeData}.

Lemma lower_char_nonempty (c : N) : lower_char c ≠ [].
Proof.
  unfold lower_char. repeat case_bool_decide; try discriminate.
  apply unicode_lower_nonempty.
Qed.

Lemma parse_command_unfold (line : list N) :
  parse_command line = take 1 (lower (strip line)).
Proof. destruct line; reflexivity. Qed.

Lemma take1_app (a b : list N) : a ≠ [] -> take 1 (a ++ b) = take 1 a.
Proof. destruct a as [|x a]; [contradiction | reflexivity]. Qed.

(** The command of a line is the command of its first character that is
    not white space. *)
Lemma parse_command_head (line : list N) (c : N) (rest : list N) :
  lstrip line = c :: rest ->
  parse_command line = take 1 (lower_char c) ∧ parse_command [c] = take 1 (lower_char c).
Proof.
  intros Hl. pose proof (lstrip_head line c rest Hl) as Hc.
  destruct (strip_head line c rest Hl) as [rest' Hs].
  split.
  - rewrite parse_command_unfold, Hs. unfold lower. simpl.
    apply take1_app. apply lower_char_nonempty.
  - rewrite parse_command_unfold. unfold strip. simpl. rewrite Hc. simpl. rewrite Hc.
    unfold lower. simpl. rewrite app_nil_r. reflexivity.
Qed.

Lemma parse_command_ascii_head (c : N) (rest : list N) :
  is_space c = false -> (c < 65 ∨ 90 < c)%N -> (c < 128)%N ->
  parse_command (c :: rest) = [c].
Proof.
  intros Hc Hup Hasc.
  assert (Hl : lstrip (c :: rest) = c :: rest) by (simpl; rewrite Hc; reflexivity).
  rewrite (proj1 (parse_command_head _ _ _ Hl)).
  unfold lower_char. rewrite bool_decide_eq_false_2 by lia.
  rewrite bool_decide_eq_true_2 by lia. reflexivity.
Qed.

Lemma parse_command_x (rest : list N) : parse_command (str "x" ++ rest) = str "x".
Proof.
  change (str "x" ++ rest) with (120%N :: rest). change (str "x") with [120%N].
  apply parse_command_ascii_head; [reflexivity | lia | lia].
Qed.

Lemma parse_command_r (rest : list N) : parse_command (str "r" ++ rest) = str "r".
Proof.
  change (str "r" ++ rest) with (114%N :: rest). change (str "r") with [114%N].
  apply parse_command_ascii_head; [reflexivity | lia | lia].
Qed.

End Commands.

End LoopFacts.

(* ===================================================================== *)
(** * What the post-move steps change                                     *)
(* ===================================================================== *)

Module EffectFacts.
Import Dungeon PyFacts GridFacts BuildFacts MoveFacts.

Lemma same_player_refl (w1 : World) : same_player w1 w1.
Proof. unfold same_player. tauto. Qed.

Lemma same_player_trans (w1 w2 w3 : World) :
  same_player w1 w2 -> same_player w2 w3 -> same_player w1 w3.
Proof.
  unfold same_player.
  intros (Hp1 & Hs1 & Hh1 & Ht1 & Hw1 & Hc1) (Hp2 & Hs2 & Hh2 & Ht2 & Hw2 & Hc2).
  rewrite Hp1 in Hp2, Hc2. repeat split; congruence.
Qed.

(** Replacing a cell that is not the player's leaves the player alone. *)
Lemma same_player_upd (w1 : World) (x y : Z) (c : Cell) (m : string) (b : bool) :
  0 <= x -> 0 <= y -> (x, y) ≠ player_pos w1 ->
  same_player w1 (set_message m (set_exit_spawned b (set_grid (upd (grid w1) x y c) w1))).
Proof.
  intros Hx Hy Hne. unfold same_player. simpl. repeat split.
  apply cell_upd_ne; [exact Hx | exact Hy |].
  destruct (player_pos w1) as [px py]. simpl. congruence.
Qed.

Lemma exit_cells_upd (w h : Z) (grid : Grid) (x y : Z) (old c : Cell) :
  shape w h grid -> in_bounds w h x y -> cell grid x y = Some old ->
  old ≠ Exit -> c ≠ Exit ->
  forall x' y', cell (upd grid x y c) x' y' = Some Exit <-> cell grid x' y' = Some Exit.
Proof.
  intros Hs Hb Hold Ho Hc x' y'.
  rewrite (cell_upd w h grid x y x' y' c Hs Hb).
  case_bool_decide as Heq; [| tauto].
  injection Heq as -> ->. rewrite Hold. split; intros Hx; congruence.
Qed.

(** What an exit step changes. *)
Lemma exit_step_effect (w h : Z) (w1 w2 : World) (g1 g2 : RNG) :
  sound w h w1 -> exit_spawned w1 = false -> exit_step w h w1 g1 w2 g2 ->
  same_player w1 w2
  ∧ ((exit_spawned w2 = false ∧ w2 = set_message msg_exit_failed w1
      ∧ after_draws 400 g1 g2)
     ∨ (exit_spawned w2 = true ∧ message w2 = msg_exit_placed
        ∧ count_symbol (grid w2) Exit = 1
        ∧ count_symbol (grid w2) Treasure = count_symbol (grid w1) Treasure)).
Proof.
  intros Hsound Hflag [[-> Hd] | (x & y & k & Hi & Hp & Hc & -> & _)].
  - split; [unfold same_player; simpl; tauto |]. left. simpl. tauto.
  - split.
    + apply same_player_upd; [unfold interior in Hi; lia .. | exact Hp].
    + right. simpl. split; [reflexivity |]. split; [reflexivity |].
      rewrite !(count_upd (grid w1) x y Floor Exit _ Hc).
      rewrite (sound_exit _ _ _ Hsound), Hflag. unfold tick. simpl. split; lia.
Qed.

(** What a placement of [maybe_spawn] changes. *)
Lemma spawn_step_effect (w h : Z) (symbol : Cell) (suffix : string) (w1 w2 : World)
    (g1 g2 : RNG) :
  sound w h w1 -> symbol ≠ Exit -> spawn_step w h symbol suffix w1 g1 w2 g2 ->
  same_player w1 w2
  ∧ exit_spawned w2 = exit_spawned w1
  ∧ (message w2 = message w1 ∨ message w2 = message w1 +:+ suffix)
  ∧ (forall x y, cell (grid w2) x y = Some Exit <-> cell (grid w1) x y = Some Exit).
Proof.
  intros Hsound Hsym [[-> _] | (x & y & k & Hi & Hp & Hc & -> & _)].
  - split; [apply same_player_refl |]. tauto.
  - split; [| split; [reflexivity | split; [right; reflexivity |]]].
    + change (set_message (message w1 +:+ suffix) (set_grid (upd (grid w1) x y symbol) w1))
        with (set_message (message w1 +:+ suffix)
                (set_exit_spawned (exit_spawned w1)
                   (set_grid (upd (grid w1) x y symbol) w1))).
      apply same_player_upd; [unfold interior in Hi; lia .. | exact Hp].
    + simpl. eapply exit_cells_upd;
        [exact (sound_shape _ _ _ Hsound) | apply interior_in_bounds; exact Hi
        | exact Hc | discriminate | exact Hsym].
Qed.

(** What [maybe_spawn] changes. *)
Lemma maybe_spawn_effect (w h : Z) (w2 w3 : World) (g2 g3 : RNG) :
  sound w h w2 -> 3 <= w -> 3 <= h -> maybe_spawn w2 g2 = Ok (w3, g3) ->
  same_player w2 w3
  ∧ exit_spawned w3 = exit_spawned w2
  ∧ (exit_spawned w2 = true -> w3 = w2 ∧ g3 = g2)
  ∧ (message w3 = message w2 ∨ message w3 = message w2 +:+ msg_spawn_treasure
     ∨ message w3 = message w2 +:+ msg_spawn_trap)
  ∧ (forall x y, cell (grid w3) x y = Some Exit <-> cell (grid w2) x y = Some Exit).
Proof.
  intros Hsound Hw Hh Hrun.
  destruct (maybe_spawn_spec w h w2 g2 (sound_shape _ _ _ Hsound) Hw Hh)
    as (w3' & g3' & Hrun' & Hcases).
  rewrite Hrun in Hrun'. injection Hrun' as <- <-.
  destruct (exit_spawned w2) eqn:Hflag.
  { destruct Hcases as [-> ->]. rewrite Hflag.
    split; [apply same_player_refl |]. tauto. }
  assert (Hno : false = true -> w3 = w2 ∧ g3 = g2) by discriminate.
  destruct (below (roll_of g2) low_threshold).
  { destruct (spawn_step_effect w h Treasure msg_spawn_treasure w2 w3 (advance g2) g3 Hsound)
      as (Hsp & Hfl & Hmsg & Hcells); [discriminate | exact Hcases |].
    rewrite Hflag in Hfl. split; [exact Hsp |]. split; [exact Hfl |]. split; [exact Hno |].
    split; [tauto | exact Hcells]. }
  destruct (below (roll_of g2) high_threshold).
  { destruct (spawn_step_effect w h Trap msg_spawn_trap w2 w3 (advance g2) g3 Hsound)
      as (Hsp & Hfl & Hmsg & Hcells); [discriminate | exact Hcases |].
    rewrite Hflag in Hfl. split; [exact Hsp |]. split; [exact Hfl |]. split; [exact Hno |].
    split; [tauto | exact Hcells]. }
  destruct Hcases as [-> ->]. rewrite Hflag.
  split; [apply same_player_refl |]. tauto.
Qed.

(** The fields of the world on arrival. *)
Lemma arrive_fields (w h : Z) (world : World) (dx dy : Z) (t : Cell) :
  sound w h world -> target world dx dy = Some t -> t ≠ Wall ->
  player_pos (arrive world dx dy t) = destination world dx dy
  ∧ turn (arrive world dx dy t) = turn world + 1
  ∧ exit_spawned (arrive world dx dy t) = exit_spawned world
  ∧ score (arrive world dx dy t) = score world + (if decide (t = Treasure) then 10 else 0)
  ∧ hp (arrive world dx dy t)
    = hp world + match t with Trap => -1 | Heal => 2 | _ => 0 end
  ∧ won (arrive world dx dy t) = (if decide (t = Exit) then true else won world)
  ∧ (t = Treasure ∨ t = Trap ∨ t = Heal ->
     cell (grid (arrive world dx dy t)) (fst (destination world dx dy))
       (snd (destination world dx dy)) = Some Floor)
  ∧ (forall x y, t ≠ Exit ->
       (cell (grid (arrive world dx dy t)) x y = Some Exit
        <-> cell (grid world) x y = Some Exit)).
Proof.
  intros Hsound Ht Hnw.
  destruct (candidate_ok w h world dx dy (sound_shape _ _ _ Hsound)
              (sound_width _ _ _ Hsound) (sound_height _ _ _ Hsound)) as [_ Hb].
  pose proof (sound_shape _ _ _ Hsound) as Hs.
  unfold target in Ht. unfold arrive.
  destruct (destination world dx dy) as [nx ny]. simpl in Hb, Ht. simpl fst. simpl snd.
  destruct t; try contradiction; simpl;
    (split; [reflexivity |]); (split; [reflexivity |]); (split; [reflexivity |]);
    (split; [lia |]); (split; [lia |]); (split; [reflexivity |]); split;
    try (intros _; eapply cell_upd_eq; eassumption);
    try (intros [Hx | [Hx | Hx]]; discriminate);
    try (intros x y _; reflexivity);
    try (intros x y Hne; eapply exit_cells_upd; try eassumption; discriminate).
Qed.

End EffectFacts.

(* ===================================================================== *)
(** * The sample game is a game                                           *)
(* ===================================================================== *)

Module SampleFacts.
Import Dungeon Samples MoveFacts.

Lemma play_reachable (w h : Z) (moves : list (Z * Z)) :
  forall st st',
    reachable w h (fst st) -> play moves st = Ok st' -> reachable w h (fst st').
Proof.
  induction moves as [|[dx dy] moves IH]; intros st st' Hreach Hplay; simpl in Hplay.
  - injection Hplay as <-. exact Hreach.
  - destruct (try_move (fst st) dx dy (snd st)) as [[w1 g1]|e] eqn:Hmove; [| discriminate].
    apply (IH (w1, g1) st'); [| exact Hplay].
    eapply reach_move; [exact Hreach | exact Hmove].
Qed.

Lemma sample_start_built :
  build_world 6 6 sample_rng = Ok (fst sample_start, snd sample_start).
Proof. vm_compute. reflexivity. Qed.

Lemma sample_start_reachable : reachable 6 6 (fst sample_start).
Proof. eapply reach_build. exact sample_start_built. Qed.

Lemma sample_after_reachable (moves : list (Z * Z)) :
  play moves sample_start = Ok (sample_after moves) ->
  reachable 6 6 (fst (sample_after moves)).
Proof.
  intros Hplay. eapply play_reachable; [| exact Hplay]. exact sample_start_reachable.
Qed.

End SampleFacts.

(* ===================================================================== *)
(** * The properties of the dungeon game                                  *)
(* ===================================================================== *)

Module DungeonSpec.
Import Dungeon Samples PyFacts GridFacts BuildFacts MoveFacts LoopFacts EffectFacts SampleFacts.

(** C3. A move whose candidate cell is a wall, in any direction and on
    any world, returns the same world with only the message replaced by
    the wall message: position, turn counter, score, health, grid and
    flags are unchanged, and no random draw is made. *)
Theorem wall_blocks_move (world : World) (dx dy : Z) (g : RNG) :
  target world dx dy = Some Wall ->
  exists world',
    try_move world dx dy g = Ok (world', g)
    ∧ player_pos world' = player_pos world
    ∧ turn world' = turn world
    ∧ score world' = score world
    ∧ hp world' = hp world
    ∧ grid world' = grid world
    ∧ exit_spawned world' = exit_spawned world
    ∧ won world' = won world
    ∧ message world' = msg_wall.
Proof.
  intros Ht. exists (set_message msg_wall world).
  split; [apply try_move_wall; exact Ht |]. simpl. tauto.
Qed.

Lemma wall_blocks_move_witness :
  let st := sample_after [up] in
  target (fst st) 0 (-1) = Some Wall
  ∧ exists world',
      try_move (fst st) 0 (-1) (snd st) = Ok (world', snd st)
      ∧ player_pos world' = player_pos (fst st)
      ∧ turn world' = turn (fst st)
      ∧ score world' = score (fst st)
      ∧ hp world' = hp (fst st)
      ∧ grid world' = grid (fst st)
      ∧ exit_spawned world' = exit_spawned (fst st)
      ∧ won world' = won (fst st)
      ∧ message world' = msg_wall.
Proof.
  intros st. split; [vm_compute; reflexivity |].
  apply (wall_blocks_move (fst st) 0 (-1) (snd st)). vm_compute. reflexivity.
Defined.

(** C2. On a reachable world, a move onto a treasure, a trap or a heart
    returns; the player stands on the destination, the turn counter has
    grown by one, the destination cell is floor afterwards, and
    - for a treasure the score has grown by exactly 10, health unchanged;
    - for a trap health has dropped by exactly 1, score unchanged;
    - for a heart health has grown by exactly 2, score unchanged. *)
Theorem pickup_effects (w h : Z) (world : World) (dx dy : Z) (g : RNG) (t : Cell) :
  reachable w h world ->
  target world dx dy = Some t ->
  t = Treasure ∨ t = Trap ∨ t = Heal ->
  exists world' g',
    try_move world dx dy g = Ok (world', g')
    ∧ player_pos world' = destination world dx dy
    ∧ turn world' = turn world + 1
    ∧ cell (grid world') (fst (destination world dx dy)) (snd (destination world dx dy))
      = Some Floor
    ∧ match t with
      | Treasure => score world' = score world + 10 ∧ hp world' = hp world
      | Trap => hp world' = hp world - 1 ∧ score world' = score world
      | Heal => hp world' = hp world + 2 ∧ score world' = score world
      | _ => True
      end.
Proof.
  intros Hreach Ht Hkind.
  destruct (reachable_sound w h world Hreach) as [Hsound _].
  assert (Hnw : t ≠ Wall) by (destruct Hkind as [-> | [-> | ->]]; discriminate).
  destruct (try_move_spec w h world dx dy g Hsound) as (world' & g' & Hrun & Hout).
  exists world', g'. split; [exact Hrun |].
  destruct (open_target_dims w h world dx dy t Hsound Ht Hnw) as [Hw3 Hh3].
  destruct (arrive_fields w h world dx dy t Hsound Ht Hnw)
    as (Hpos & Hturn & _ & Hscore & Hhp & _ & Hfloor & _).
  destruct (sound_arrive w h world dx dy t Hsound Ht Hnw) as [Hs1 _].
  destruct Hout as [Ht' | Ht' | t' w2 g2 w3 g3 Ht' _ Hph Hms | m w2 g2 w3 g3 Ht' _ Hph Hms];
    rewrite Ht in Ht'; injection Ht' as Heq;
    try (subst t; destruct Hkind as [Hk | [Hk | Hk]]; discriminate).
  subst t'.
  assert (Hsp12 : same_player (arrive world dx dy t) w2).
  { destruct (exit_phase_flag w h _ w2 g g2 Hph) as [[-> _] | (Hflag & _ & Hstep)].
    - apply same_player_refl.
    - apply (exit_step_effect w h _ w2 g g2 Hs1 Hflag Hstep). }
  destruct (sound_exit_phase w h _ w2 g g2 Hs1 Hph) as [Hs2 _].
  destruct (maybe_spawn_effect w h w2 w3 g2 g3 Hs2 Hw3 Hh3 Hms) as (Hsp23 & _).
  destruct (same_player_trans _ _ _ Hsp12 Hsp23) as (Hp & Hsc & Hh & Htu & _ & Hc).
  rewrite Hpos in Hc. rewrite Hp, Htu, Hc, Hsc, Hh, Hpos, Hturn, Hscore, Hhp.
  split; [reflexivity |]. split; [reflexivity |]. split; [apply Hfloor; exact Hkind |].
  destruct Hkind as [-> | [-> | ->]]; simpl; split; lia.
Qed.

Lemma pickup_effects_witness :
  let st := sample_start in
  exists world' g',
    try_move (fst st) 0 (-1) (snd st) = Ok (world', g')
    ∧ player_pos world' = destination (fst st) 0 (-1)
    ∧ turn world' = turn (fst st) + 1
    ∧ cell (grid world') (fst (destination (fst st) 0 (-1)))
        (snd (destination (fst st) 0 (-1))) = Some Floor
    ∧ (score world' = score (fst st) + 10 ∧ hp world' = hp (fst st)).
Proof.
  intros st.
  apply (pickup_effects 6 6 (fst st) 0 (-1) (snd st) Treasure).
  - exact sample_start_reachable.
  - vm_compute. reflexivity.
  - left. reflexivity.
Defined.



(** A failed placement and its retry, on the sample game: with every
    draw zero the 200 attempts all aim at the wall of column 1, row 1,
    so picking up the last treasure leaves the failure message and the
    flag unset; the next move, with draws that aim at a floor cell,
    places the exit. *)
Example exit_placement_retries :
  let st := sample_after [up; right; down; left] in
  let g := mkRNG (fun n => if (n <? 521)%N then 0 else nth (N.to_nat (n - 521)) [0; 2; 1] 0) 0 in
  exists failed placed g',
    try_move (fst st) (-1) 0 g = Ok (failed, mkRNG (source g) 521)
    ∧ exit_spawned failed = false
    ∧ message failed = msg_exit_failed
    ∧ count_symbol (grid failed) Treasure = 0
    ∧ count_symbol (grid failed) Exit = 0
    ∧ try_move failed 1 0 (mkRNG (source g) 521) = Ok (placed, g')
    ∧ exit_spawned placed = true
    ∧ message placed = msg_exit_placed
    ∧ count_symbol (grid placed) Exit = 1.
Proof.
  eexists _, _, _.
  repeat (split; [vm_compute; reflexivity |]).
  vm_compute. reflexivity.
Qed.


(** C4. Whatever the dimensions, [build_world] either returns a world
    whose grid is a [height] by [width] rectangle with every cell of the
    border ring a wall, or raises [IndexError], which it does exactly on
    a dimension that is not positive; and every world reachable from
    there, by any sequence of moves and messages, still has every cell
    of the border ring a wall. *)
Theorem border_ring_is_wall (width height : Z) :
  (forall g,
     (exists world g',
        build_world width height g = Ok (world, g')
        ∧ 1 <= width ∧ 1 <= height
        ∧ shape width height (grid world)
        ∧ border_walls width height (grid world))
     ∨ ((width <= 0 ∨ height <= 0) ∧ build_world width height g = Raise IndexError))
  ∧ (forall world,
       reachable width height world ->
       shape width height (grid world) ∧ border_walls width height (grid world)).
Proof.
  split.
  - intros g.
    destruct (Z_lt_le_dec 0 width) as [Hw|Hw];
      [| right; split; [lia | apply build_world_raises; lia]].
    destruct (Z_lt_le_dec 0 height) as [Hh|Hh];
      [| right; split; [lia | apply build_world_raises; lia]].
    left.
    destruct (build_world_spec width height g) as (grid' & g' & Hrun & Hs & Hbw & _);
      [lia | lia |].
    eexists _, g'. split; [exact Hrun |]. simpl.
    split; [lia |]. split; [lia |]. split; assumption.
  - intros world Hreach.
    destruct (reachable_sound width height world Hreach) as [Hsound _].
    split; [exact (sound_shape _ _ _ Hsound) | exact (sound_border _ _ _ Hsound)].
Qed.

Lemma border_ring_is_wall_witness :
  let world := fst (sample_after [up; right; down; left; left]) in
  shape 6 6 (grid world) ∧ border_walls 6 6 (grid world).
Proof.
  intros world.
  apply (proj2 (border_ring_is_wall 6 6) world).
  apply sample_after_reachable. vm_compute. reflexivity.
Defined.

(** C5, as stated, fails on small grids: [build_world 2 2] returns a
    world whose player stands at column 1, row 1, which is a wall. *)
Lemma player_starts_on_wall_2x2 :
  build_world 2 2 zero_rng = Ok (tiny_world, mkRNG (fun _ => 0) 80000)
  ∧ reachable 2 2 tiny_world
  ∧ player_pos tiny_world = (1, 1)
  ∧ cell (grid tiny_world) 1 1 = Some Wall
  ∧ ¬ clear tiny_world.
Proof.
  assert (Hrun : build_world 2 2 zero_rng = Ok (tiny_world, mkRNG (fun _ => 0) 80000))
    by (vm_compute; reflexivity).
  split; [exact Hrun |].
  split; [eapply reach_build; exact Hrun |].
  split; [reflexivity |]. split; [reflexivity |].
  intros (c & Hc & Hne). vm_compute in Hc. congruence.
Qed.

(** C5, amended. When both dimensions are at least 3, [build_world]
    returns a world whose player stands at the centre, on a floor cell,
    and in every reachable world the player's position lies within the
    grid, on a cell that is not a wall. *)
Theorem player_never_on_wall (width height : Z) :
  3 <= width -> 3 <= height ->
  (forall g, exists world g',
     build_world width height g = Ok (world, g')
     ∧ player_pos world = (width `div` 2, height `div` 2)
     ∧ cell (grid world) (width `div` 2) (height `div` 2) = Some Floor)
  ∧ (forall world,
       reachable width height world ->
       in_bounds width height (fst (player_pos world)) (snd (player_pos world))
       ∧ clear world).
Proof.
  intros Hw Hh. split.
  - intros g.
    destruct (build_world_spec width height g) as (grid' & g' & Hrun & _ & _ & _ & Hfl & _);
      [lia | lia |].
    eexists _, g'. split; [exact Hrun |]. simpl. split; [reflexivity | apply Hfl; assumption].
  - intros world Hreach.
    destruct (reachable_sound width height world Hreach) as [Hsound Hclear].
    split; [exact (sound_player _ _ _ Hsound) | apply Hclear; assumption].
Qed.

Lemma player_never_on_wall_witness :
  let world := fst (sample_after [up; right; down; left; left]) in
  in_bounds 6 6 (fst (player_pos world)) (snd (player_pos world)) ∧ clear world.
Proof.
  intros world.
  apply (proj2 (player_never_on_wall 6 6 ltac:(lia) ltac:(lia)) world).
  apply sample_after_reachable. vm_compute. reflexivity.
Defined.

Lemma restart_returns (width height : Z) (s : Loop) (g : RNG) :
  1 <= width -> 1 <= height ->
  exists fresh g',
    build_world width height g = Ok (fresh, g')
    ∧ restart width height s g = Ok (Continue (mkLoop fresh (world s :: dropped s)), g').
Proof.
  intros Hw Hh.
  destruct (build_world_spec width height g Hw Hh) as (grid' & g' & Hrun & _).
  eexists _, g'. split; [exact Hrun |].
  unfold restart. rewrite (bind_ok _ _ _ _ _ Hrun). reflexivity.
Qed.

(** One iteration of the loop returns on a sound world. *)
Lemma game_loop_iter_returns `{UnicodeData} (width height : Z) (s : Loop)
    (line : list N) (g : RNG) :
  sound width height (world s) ->
  exists out g', game_loop_iter width height s line g = Ok (out, g').
Proof.
  intros Hsound.
  pose proof (sound_width _ _ _ Hsound) as Hw. pose proof (sound_height _ _ _ Hsound) as Hh.
  destruct (restart_returns width height s g Hw Hh) as (fresh & g' & _ & Hrestart).
  unfold game_loop_iter.
  destruct (won (world s)).
  { case_bool_decide; [rewrite Hrestart |]; eexists _, _; reflexivity. }
  case_bool_decide.
  { case_bool_decide; [rewrite Hrestart |]; eexists _, _; reflexivity. }
  case_bool_decide; [eexists _, _; reflexivity |].
  case_bool_decide; [eexists _, _; reflexivity |].
  case_bool_decide; [rewrite Hrestart; eexists _, _; reflexivity |].
  destruct (moves !! parse_command line) as [[dx dy]|]; [| eexists _, _; reflexivity].
  destruct (try_move_spec width height (world s) dx dy g Hsound) as (w' & g'' & Hrun & _).
  rewrite (bind_ok _ _ _ _ _ Hrun). eexists _, _. reflexivity.
Qed.

(** C7, as stated, fails: [build_world 0 0] raises [IndexError]. *)
Lemma create_raises_on_empty_grid :
  build_world 0 0 zero_rng = Raise IndexError.
Proof. vm_compute. reflexivity. Qed.

(** C7, amended. On positive dimensions no operation raises:
    - [build_world] returns a sound world (a placement that runs out of
      tries leaves fewer items, nothing else);
    - on every reachable world, sound as well, every move returns a
      sound world, and a blocked move returns the same world with the
      wall message and the generator untouched;
    - one iteration of the game loop returns for every input line, and
      an unknown command leaves the world as it is but for the
      unknown-command message;
    - on a grid of at least 3 by 3, the only kind on which [try_move]
      calls them, [spawn_exit] and [maybe_spawn] return; when
      [spawn_exit] runs out of tries the world is the same but for the
      failure message, and when [maybe_spawn] places nothing the world
      is the same. *)
Theorem no_operation_raises `{UnicodeData} (width height : Z) :
  1 <= width -> 1 <= height ->
  (forall g, exists world g',
     build_world width height g = Ok (world, g') ∧ sound width height world)
  ∧ (forall world,
       reachable width height world ->
       sound width height world
       ∧ (forall dx dy g, exists world' g',
            try_move world dx dy g = Ok (world', g')
            ∧ sound width height world'
            ∧ (target world dx dy = Some Wall ->
                 world' = set_message msg_wall world ∧ g' = g))
       ∧ (forall old line g, exists out g',
            game_loop_iter width height (mkLoop world old) line g = Ok (out, g')
            ∧ (won world = false -> 0 < hp world ->
               parse_command line ≠ str "x" -> parse_command line ≠ str "h" ->
               parse_command line ≠ str "r" -> moves !! parse_command line = None ->
                 out = Continue (mkLoop (set_message msg_unknown world) old) ∧ g' = g))
       ∧ (3 <= width -> 3 <= height -> forall g,
            (exists world' g',
               spawn_exit world g = Ok (world', g')
               ∧ (world' = set_message msg_exit_failed world
                  ∨ exists x y, cell (grid world) x y = Some Floor
                                ∧ grid world' = upd (grid world) x y Exit))
            ∧ (exists world' g',
                 maybe_spawn world g = Ok (world', g')
                 ∧ (world' = world
                    ∨ exists x y, cell (grid world) x y = Some Floor
                                  ∧ (grid world' = upd (grid world) x y Treasure
                                     ∨ grid world' = upd (grid world) x y Trap))))).
Proof.
  intros Hw Hh. split.
  - intros g.
    destruct (build_world_spec width height g Hw Hh) as (grid' & g' & Hrun & _).
    eexists _, g'. split; [exact Hrun |].
    exact (proj1 (build_world_sound width height g _ g' Hrun)).
  - intros world Hreach.
    destruct (reachable_sound width height world Hreach) as [Hsound _].
    split; [exact Hsound |]. split; [| split].
    + intros dx dy g.
      destruct (try_move_spec width height world dx dy g Hsound) as (world' & g' & Hrun & Hout).
      exists world', g'. split; [exact Hrun |].
      split; [exact (proj1 (sound_move_outcome _ _ _ _ _ _ _ _ Hsound Hout)) |].
      intros Ht. rewrite (try_move_wall world dx dy g Ht) in Hrun.
      injection Hrun as <- <-. split; reflexivity.
    + intros old line g.
      destruct (game_loop_iter_returns width height (mkLoop world old) line g Hsound)
        as (out & g' & Hrun).
      exists out, g'. split; [exact Hrun |].
      intros Hwon Hhp Hx Hhelp Hr Hmoves.
      unfold game_loop_iter in Hrun. simpl in Hrun. rewrite Hwon in Hrun.
      rewrite (bool_decide_eq_false_2 (hp world <= 0)) in Hrun by lia.
      rewrite (bool_decide_eq_false_2 _ Hx) in Hrun.
      rewrite (bool_decide_eq_false_2 _ Hhelp) in Hrun.
      rewrite (bool_decide_eq_false_2 _ Hr) in Hrun.
      rewrite Hmoves in Hrun. injection Hrun as <- <-. split; reflexivity.
    + intros Hw3 Hh3 g. split.
      * destruct (spawn_exit_spec width height world g (sound_shape _ _ _ Hsound) Hw3 Hh3)
          as (world' & g' & Hrun & Hstep).
        exists world', g'. split; [exact Hrun |].
        destruct Hstep as [[-> _] | (x & y & k & _ & _ & Hc & -> & _)]; [left; reflexivity |].
        right. exists x, y. split; [exact Hc | reflexivity].
      * destruct (maybe_spawn_spec width height world g (sound_shape _ _ _ Hsound) Hw3 Hh3)
          as (world' & g' & Hrun & Hcases).
        exists world', g'. split; [exact Hrun |].
        destruct (exit_spawned world); [left; tauto |].
        destruct (below (roll_of g) low_threshold).
        { destruct Hcases as [[-> _] | (x & y & k & _ & _ & Hc & -> & _)]; [left; reflexivity |].
          right. exists x, y. split; [exact Hc | left; reflexivity]. }
        destruct (below (roll_of g) high_threshold).
        { destruct Hcases as [[-> _] | (x & y & k & _ & _ & Hc & -> & _)]; [left; reflexivity |].
          right. exists x, y. split; [exact Hc | right; reflexivity]. }
        left. tauto.
Qed.

Lemma no_operation_raises_witness :
  let st := sample_after [up] in
  (exists world g', build_world 6 6 sample_rng = Ok (world, g') ∧ sound 6 6 world)
  ∧ sound 6 6 (fst st)
  ∧ (exists world' g',
       try_move (fst st) 0 (-1) (snd st) = Ok (world', g')
       ∧ sound 6 6 world'
       ∧ (target (fst st) 0 (-1) = Some Wall ->
            world' = set_message msg_wall (fst st) ∧ g' = snd st)).
Proof.
  intros st.
  destruct (@no_operation_raises plain_table 6 6 ltac:(lia) ltac:(lia)) as [Hbuild Hreach].
  split; [apply Hbuild |].
  assert (Hst : reachable 6 6 (fst st)).
  { apply sample_after_reachable. vm_compute. reflexivity. }
  destruct (Hreach (fst st) Hst) as (Hsound & Hmove & _).
  split; [exact Hsound | apply Hmove].
Defined.

(** C6. Stepping onto an exit cell, on any world, returns at once: [won]
    is set, the message is the victory message, the player stands on the
    exit and the turn counter has grown by one, while the grid, the
    score, the health and [exit_spawned] are unchanged and no random
    draw is made (neither the exit check nor [maybe_spawn] has run).
    Once [won] is set, an iteration of the game loop never calls
    [try_move]: it returns, or on [r] it binds [world] to a new
    dictionary and the won one is dropped as it was. *)
Theorem exit_wins_and_freezes `{UnicodeData} (width height : Z) (world : World)
    (dx dy : Z) (g : RNG) (old : list World) (line : list N) :
  (target world dx dy = Some Exit ->
     exists world',
       try_move world dx dy g = Ok (world', g)
       ∧ won world' = true
       ∧ message world' = msg_victory
       ∧ player_pos world' = destination world dx dy
       ∧ turn world' = turn world + 1
       ∧ grid world' = grid world
       ∧ score world' = score world
       ∧ hp world' = hp world
       ∧ exit_spawned world' = exit_spawned world)
  ∧ (won world = true ->
       game_loop_iter width height (mkLoop world old) line g
       = (if bool_decide (parse_command line = str "r")
          then restart width height (mkLoop world old) g
          else Ok (Return, g))
       ∧ forall s' g',
           game_loop_iter width height (mkLoop world old) line g = Ok (Continue s', g') ->
           dropped s' = world :: old
           ∧ build_world width height g = Ok (Dungeon.world s', g')).
Proof.
  split.
  - intros Ht. exists (arrive world dx dy Exit).
    split; [apply try_move_exit; exact Ht |].
    unfold arrive. destruct (destination world dx dy) as [nx ny]. simpl. tauto.
  - intros Hwon.
    assert (Heq : game_loop_iter width height (mkLoop world old) line g
                  = (if bool_decide (parse_command line = str "r")
                     then restart width height (mkLoop world old) g
                     else Ok (Return, g))).
    { unfold game_loop_iter. simpl. rewrite Hwon. case_bool_decide; reflexivity. }
    split; [exact Heq |].
    intros s' g' Hrun. rewrite Heq in Hrun.
    case_bool_decide; [| discriminate].
    unfold restart, bind in Hrun. simpl in Hrun.
    destruct (build_world width height g) as [[fresh g'']|e]; [| discriminate].
    injection Hrun as <- <-. split; reflexivity.
Qed.

(** The freeze is the loop's doing: [try_move] itself does not look at
    [won], and called on the won sample world it still moves the player
    and counts the turn. *)
Example try_move_ignores_won :
  let st := sample_after [up; right; down; left; left; right; up] in
  exists world' g',
    won (fst st) = true
    ∧ try_move (fst st) 0 1 (snd st) = Ok (world', g')
    ∧ turn world' = turn (fst st) + 1
    ∧ player_pos world' = (3, 3).
Proof.
  eexists _, _.
  repeat (split; [vm_compute; reflexivity |]).
  vm_compute. reflexivity.
Qed.

Lemma exit_wins_and_freezes_witness :
  let st := sample_after [up; right; down; left; left; right] in
  let st' := sample_after [up; right; down; left; left; right; up] in
  (exists world',
     try_move (fst st) 0 (-1) (snd st) = Ok (world', snd st)
     ∧ won world' = true
     ∧ message world' = msg_victory
     ∧ player_pos world' = destination (fst st) 0 (-1)
     ∧ turn world' = turn (fst st) + 1
     ∧ grid world' = grid (fst st)
     ∧ score world' = score (fst st)
     ∧ hp world' = hp (fst st)
     ∧ exit_spawned world' = exit_spawned (fst st))
  ∧ @game_loop_iter plain_table 6 6 (mkLoop (fst st') []) (str "d") (snd st')
    = Ok (Return, snd st').
Proof.
  intros st st'. split.
  - apply (proj1 (@exit_wins_and_freezes plain_table 6 6 (fst st) 0 (-1) (snd st) [] [])).
    vm_compute. reflexivity.
  - rewrite (proj1 (proj2 (@exit_wins_and_freezes plain_table 6 6 (fst st') 0 0 (snd st')
                             [] (str "d"))
                      ltac:(vm_compute; reflexivity))).
    reflexivity.
Defined.



(** The roll [1080863910568919 / 2^53] is the float [0.12] itself: it is
    less than 12/100 and yet not below the low threshold, and the
    placement that follows is that of a trap. *)
Example boundary_roll_places_trap :
  let world :=
    mkWorld [ [Wall; Wall; Wall; Wall]; [Wall; Floor; Floor; Wall]; [Wall; Wall; Wall; Wall] ]
            (1, 1) 0 5 0 "" false false in
  let g := mkRNG (fun n => if (n =? 0)%N then 1080863910568919 else 1) 0 in
  Qlt (roll_of g) (Qmake 12 100)
  ∧ below (roll_of g) low_threshold = false
  ∧ below (roll_of g) high_threshold = true
  ∧ match maybe_spawn world g with
    | Ok (world', _) =>
        grid world'
        = [ [Wall; Wall; Wall; Wall]; [Wall; Floor; Trap; Wall]; [Wall; Wall; Wall; Wall] ]
        ∧ message world' = msg_spawn_trap
    | Raise _ => False
    end.
Proof.
  intros world g.
  repeat (split; [vm_compute; reflexivity |]).
  vm_compute. split; reflexivity.
Qed.

(** [maybe_spawn] does place things: on the sample game, with a roll of
    zero and an attempt aimed at the floor cell the player has just
    left, picking up the second treasure makes a new one appear and the
    flavor text is appended to the pick-up message. *)
Example spawn_places_treasure :
  let st := sample_after [up] in
  let g := mkRNG (fun n => nth (N.to_nat n) [0; 2; 2] 0) 0 in
  exists world',
    try_move (fst st) 1 0 g = Ok (world', mkRNG (source g) 3)
    ∧ cell (grid (fst st)) 3 3 = Some Floor
    ∧ cell (grid world') 3 3 = Some Treasure
    ∧ message world' = msg_treasure +:+ msg_spawn_treasure.
Proof. eexists. vm_compute. repeat split. Qed.

(** And when the interior holds no floor cell but the player's, the 60
    attempts are used up, 120 draws after the roll, and nothing is
    placed. *)
Example spawn_runs_out :
  let st := sample_start in
  let g := mkRNG (fun _ => 0) 0 in
  exists world',
    try_move (fst st) 0 (-1) g = Ok (world', mkRNG (source g) 121)
    ∧ message world' = msg_treasure
    ∧ count_symbol (grid world') Treasure = 3.
Proof. eexists. vm_compute. repeat split. Qed.

(** C10. The command of an input line is the first character of the
    line stripped of surrounding white space and lower-cased, the empty
    command for an empty line; it has at most one character, and it is
    the command of the first character of the line that is not white
    space. A line that starts with [x], whatever follows, makes the loop
    return, and one that starts with [r] restarts, in every state of the
    game. *)
Theorem command_is_first_character `{UnicodeData} :
  (forall line, parse_command line = take 1 (lower (strip line))
                ∧ (length (parse_command line) <= 1)%nat)
  ∧ parse_command [] = []
  ∧ (forall line c rest, lstrip line = c :: rest -> parse_command line = parse_command [c])
  ∧ (forall rest, parse_command (str "x" ++ rest) = str "x"
                  ∧ parse_command (str "r" ++ rest) = str "r")
  ∧ (forall width height s rest g,
       game_loop_iter width height s (str "x" ++ rest) g = Ok (Return, g))
  ∧ (forall width height s rest g,
       game_loop_iter width height s (str "r" ++ rest) g = restart width height s g).
Proof.
  split; [| split; [| split; [| split; [| split]]]].
  - intros line. split; [apply parse_command_unfold |].
    rewrite parse_command_unfold. rewrite length_take. lia.
  - reflexivity.
  - intros line c rest Hl.
    destruct (parse_command_head line c rest Hl) as [H1 H2]. congruence.
  - intros rest. split; [apply parse_command_x | apply parse_command_r].
  - intros width height s rest g. unfold game_loop_iter.
    rewrite parse_command_x.
    destruct (won (world s)); [reflexivity |].
    case_bool_decide; reflexivity.
  - intros width height s rest g. unfold game_loop_iter.
    rewrite parse_command_r.
    destruct (won (world s)); [reflexivity |].
    case_bool_decide; reflexivity.
Qed.

Lemma command_is_first_character_witness :
  @parse_command plain_table (str "  Quit now ") = @parse_command plain_table (str "Q")
  ∧ @parse_command plain_table (str "  Quit now ") = str "q".
Proof.
  split; [| vm_compute; reflexivity].
  apply (proj1 (proj2 (proj2 (@command_is_first_character plain_table)))
           (str "  Quit now ") 81%N (str "uit now ")).
  vm_compute. reflexivity.
Defined.

End DungeonSpec.

(* ===================================================================== *)
(** * The properties of the quote client                                  *)
(* ===================================================================== *)

Module TrumpQuoteSpec.
Import TrumpQuote.

Section Script.
Context `{Runtime}.

Lemma main_of_failure (out : Stdout) (net : Net) (e : exn) :
  get_random_trump_quote net 0 = (Raise e, 1%nat) -> is_Exception e = true ->
  out 0%nat (error_line e) = None ->
  main out net = error_run e.
Proof.
  intros Hget Hexc Hout. unfold main, main_except. rewrite Hget, Hexc, Hout. reflexivity.
Qed.

Lemma requests_once (net : Net) : snd (get_random_trump_quote net 0) = 1%nat.
Proof.
  unfold get_random_trump_quote.
  destruct (fetch (net 0%nat)) as [data|e].
  - destruct (get data "message") as [quote|e]; [| reflexivity].
    destruct (negb (truthy quote) || negb (is_str quote)); [reflexivity |].
    destruct quote; reflexivity.
  - destruct (is_URLError e); [reflexivity |].
    destruct (is_JSONDecodeError e); reflexivity.
Qed.

Lemma fetch_payload (resp : Response) (bytes : list N) (text : string) :
  status resp = 200 -> read resp = Ok bytes -> decode_utf8 bytes = Ok text ->
  fetch (Ok resp) = json_loads text.
Proof.
  intros Hst Hrd Hdec. unfold fetch. rewrite Hst, Hrd, Hdec. reflexivity.
Qed.

(** C9, amended. A run of the script sends exactly one request, and
    each failure of the fetch ends the run normally with one printed
    line, [Erreur:] followed by the text of the exception, and nothing
    else printed, when the output takes that line:
    - a transport failure ([URLError], thus also [HTTPError]) is
      reported as [Impossible de contacter l'API];
    - a response whose status is not 200 as [Réponse HTTP inattendue];
    - a payload that is not JSON as [Réponse reçue mais JSON invalide];
    - a JSON object whose [message] is missing, empty or not a string
      as [Réponse inattendue de l'API], and a JSON value that is not an
      object by the [AttributeError] of its missing [get];
    - any other exception of class [Exception] by its own text.
    The line is the first that the run prints: the header is not
    printed before it. When the output refuses the line, nothing is
    printed and the exception of that [print] leaves [main]. *)
Theorem every_failure_is_one_line (out : Stdout) (net : Net) :
  requests (main out net) = 1%nat
  ∧ (forall e, net 0%nat = Raise e -> is_URLError e = true ->
       out 0%nat (error_line (RuntimeError ("Impossible de contacter l'API: "
                                             +:+ str_of_exn e))) = None ->
       main out net
       = error_run (RuntimeError ("Impossible de contacter l'API: " +:+ str_of_exn e)))
  ∧ (forall resp, net 0%nat = Ok resp -> status resp ≠ 200 ->
       out 0%nat (error_line (RuntimeError ("Réponse HTTP inattendue: "
                                             +:+ pretty (status resp)))) = None ->
       main out net
       = error_run (RuntimeError ("Réponse HTTP inattendue: " +:+ pretty (status resp))))
  ∧ (forall resp bytes text e,
       net 0%nat = Ok resp -> status resp = 200 -> read resp = Ok bytes ->
       decode_utf8 bytes = Ok text -> json_loads text = Raise e ->
       is_JSONDecodeError e = true ->
       out 0%nat (error_line (RuntimeError "Réponse reçue mais JSON invalide.")) = None ->
       main out net = error_run (RuntimeError "Réponse reçue mais JSON invalide."))
  ∧ (forall resp bytes text data,
       net 0%nat = Ok resp -> status resp = 200 -> read resp = Ok bytes ->
       decode_utf8 bytes = Ok text -> json_loads text = Ok data ->
       (forall quote, get data "message" = Ok quote ->
          negb (truthy quote) || negb (is_str quote) = true ->
          out 0%nat (error_line (RuntimeError ("Réponse inattendue de l'API: "
                                                +:+ repr data))) = None ->
          main out net
          = error_run (RuntimeError ("Réponse inattendue de l'API: " +:+ repr data)))
       ∧ (forall e, get data "message" = Raise e ->
            out 0%nat (error_line e) = None ->
            main out net = error_run e
            ∧ e = AttributeError "object has no attribute 'get'"))
  ∧ (forall e, fst (get_random_trump_quote net 0) = Raise e -> is_Exception e = true ->
       out 0%nat (error_line e) = None ->
       main out net = error_run e)
  ∧ (forall e e', fst (get_random_trump_quote net 0) = Raise e -> is_Exception e = true ->
       out 0%nat (error_line e) = Some e' ->
       main out net = mkRun [] 1 (Some e')).
Proof.
  assert (Hgeneral : forall e,
            fst (get_random_trump_quote net 0) = Raise e -> is_Exception e = true ->
            out 0%nat (error_line e) = None ->
            main out net = error_run e).
  { intros e Hfst Hexc Hout. apply main_of_failure; [| exact Hexc | exact Hout].
    pose proof (requests_once net) as Hsnd.
    destruct (get_random_trump_quote net 0) as [r n]. simpl in *. congruence. }
  split; [| split; [| split; [| split; [| split; [| split]]]]].
  - unfold main, main_except. pose proof (requests_once net) as Hsnd.
    destruct (get_random_trump_quote net 0) as [[quote|e] n]; simpl in Hsnd; subst n.
    + destruct (out 0%nat header) as [e|].
      * destruct (is_Exception e); [| reflexivity].
        destruct (out 1%nat (error_line e)); reflexivity.
      * destruct (out 1%nat (quote_line quote)) as [e|]; [| reflexivity].
        destruct (is_Exception e); [| reflexivity].
        destruct (out 2%nat (error_line e)); reflexivity.
    + destruct (is_Exception e); [| reflexivity].
      destruct (out 0%nat (error_line e)); reflexivity.
  - intros e Hnet Hurl Hout. apply Hgeneral; [| reflexivity | exact Hout].
    unfold get_random_trump_quote, fetch. rewrite Hnet, Hurl. reflexivity.
  - intros resp Hnet Hst Hout. apply Hgeneral; [| reflexivity | exact Hout].
    unfold get_random_trump_quote, fetch. rewrite Hnet.
    rewrite (proj2 (Z.eqb_neq _ _) Hst). reflexivity.
  - intros resp bytes text e Hnet Hst Hrd Hdec Hjson Hcls Hout.
    apply Hgeneral; [| reflexivity | exact Hout].
    unfold get_random_trump_quote. rewrite Hnet.
    rewrite (fetch_payload resp bytes text Hst Hrd Hdec), Hjson.
    destruct e; try discriminate. reflexivity.
  - intros resp bytes text data Hnet Hst Hrd Hdec Hjson. split.
    + intros quote Hget Hbad Hout. apply Hgeneral; [| reflexivity | exact Hout].
      unfold get_random_trump_quote. rewrite Hnet.
      rewrite (fetch_payload resp bytes text Hst Hrd Hdec), Hjson, Hget, Hbad. reflexivity.
    + intros e Hget Hout.
      assert (He : e = AttributeError "object has no attribute 'get'").
      { unfold get in Hget. destruct data; try (injection Hget as <-; reflexivity).
        destruct (assoc "message" d); discriminate. }
      split; [| exact He]. apply Hgeneral; [| subst e; reflexivity | exact Hout].
      unfold get_random_trump_quote. rewrite Hnet.
      rewrite (fetch_payload resp bytes text Hst Hrd Hdec), Hjson, Hget. reflexivity.
  - exact Hgeneral.
  - intros e e' Hfst Hexc Hout. unfold main, main_except.
    pose proof (requests_once net) as Hsnd.
    destruct (get_random_trump_quote net 0) as [r n]. simpl in *. subst r n.
    rewrite Hexc, Hout. reflexivity.
Qed.

End Script.

(** C9, as stated, fails when the output refuses the error line. On an
    output encoded in ASCII, a response of status 204 is not reported:
    the [print] of [Erreur: Réponse HTTP inattendue: 204] raises on the
    accented letter, outside the [try] block, so that nothing is printed
    and the exception leaves [main]. *)
Lemma error_line_refused_by_ascii_output :
  let net : Net := fun _ => Ok (mkResponse 204 (Ok [])) in
  fst (@get_random_trump_quote demo_runtime net 0)
  = Raise (RuntimeError "Réponse HTTP inattendue: 204")
  ∧ ascii_output 0%nat "Erreur: Réponse HTTP inattendue: 204"
    = Some (Other "'ascii' codec can't encode character")
  ∧ @main demo_runtime ascii_output net
    = mkRun [] 1 (Some (Other "'ascii' codec can't encode character"))
  ∧ printed (@main demo_runtime ascii_output net) = []
  ∧ escaped (@main demo_runtime ascii_output net) ≠ None.
Proof.
  intros net.
  repeat (split; [vm_compute; reflexivity |]).
  vm_compute. discriminate.
Qed.

Lemma every_failure_is_one_line_witness :
  let net : Net := fun _ => Raise (URLError "timed out") in
  @main demo_runtime reliable net
  = mkRun [ "Erreur: Impossible de contacter l'API: <urlopen error timed out>" ] 1 None.
Proof.
  intros net.
  rewrite (proj1 (proj2 (@every_failure_is_one_line demo_runtime reliable net))
             (URLError "timed out") eq_refl eq_refl eq_refl).
  reflexivity.
Defined.

(** The other three kinds of failure, run on the stand-in library. *)
Example bad_status_run :
  @main demo_runtime reliable (fun _ => Ok (mkResponse 204 (Ok [])))
  = mkRun [ "Erreur: Réponse HTTP inattendue: 204" ] 1 None.
Proof. vm_compute. reflexivity. Qed.

Example bad_json_run :
  @main demo_runtime reliable (fun _ => Ok (mkResponse 200 (Ok (ascii_bytes "<html>"))))
  = mkRun [ "Erreur: Réponse reçue mais JSON invalide." ] 1 None.
Proof. vm_compute. reflexivity. Qed.

Example missing_field_run :
  @main demo_runtime reliable (fun _ => Ok (mkResponse 200 (Ok (ascii_bytes "{}"))))
  = mkRun [ "Erreur: Réponse inattendue de l'API: {}" ] 1 None.
Proof. vm_compute. reflexivity. Qed.

Example not_an_object_run :
  @main demo_runtime reliable (fun _ => Ok (mkResponse 200 (Ok (ascii_bytes "[]"))))
  = mkRun [ "Erreur: object has no attribute 'get'" ] 1 None.
Proof. vm_compute. reflexivity. Qed.

End TrumpQuoteSpec.

(* ===================================================================== *)
(** * Further properties of the dungeon game                              *)
(* ===================================================================== *)

Module DungeonMore.
Import Dungeon Display Samples PyFacts GridFacts BuildFacts MoveFacts LoopFacts EffectFacts
  SampleFacts.

(** ** Utilities *)

(** X1. [clamp] returns a value of [lo .. hi] whenever the range is not
    empty, returns [n] itself when [n] is already in the range, and is
    monotone in [n]; on an empty range ([hi < lo]) it returns [lo]. *)
Theorem clamp_range (n lo hi : Z) :
  (lo <= hi ->
     lo <= clamp n lo hi <= hi
     ∧ (lo <= n <= hi -> clamp n lo hi = n)
     ∧ (n < lo -> clamp n lo hi = lo)
     ∧ (hi < n -> clamp n lo hi = hi)
     ∧ clamp (clamp n lo hi) lo hi = clamp n lo hi
     ∧ forall m, n <= m -> clamp n lo hi <= clamp m lo hi)
  ∧ (hi < lo -> clamp n lo hi = lo).
Proof.
  unfold clamp. split.
  - intros Hle. repeat split; intros; lia.
  - intros Hlt. lia.
Qed.

Lemma clamp_range_witness :
  0 <= clamp 9 0 5 <= 5 ∧ clamp 9 0 5 = 5 ∧ clamp 3 0 (-1) = 0.
Proof.
  destruct (clamp_range 9 0 5) as [Hin _].
  destruct (Hin ltac:(lia)) as (Hb & _ & _ & Hhi & _).
  split; [exact Hb |]. split; [apply Hhi; lia |].
  apply (proj2 (clamp_range 3 0 (-1))). lia.
Defined.

Lemma count_row_partition (row : list Cell) :
  count_row Floor row + count_row Wall row + count_row Treasure row
  + count_row Trap row + count_row Heal row + count_row Exit row = len row.
Proof.
  unfold len. induction row as [|c row IH]; [reflexivity |].
  cbn [count_row length]. destruct c; simpl; lia.
Qed.

Lemma count_row_le (symbol : Cell) (row : list Cell) : count_row symbol row <= len row.
Proof.
  unfold len. induction row as [|c row IH]; simpl; [lia |].
  destruct (decide (c = symbol)); lia.
Qed.

(** X2. On a grid of [h] rows of [w] cells, the counts of the six
    symbols add up to the number of cells, and each count lies between 0
    and that number. *)
Theorem count_symbol_partition (w h : Z) (grid : Grid) :
  shape w h grid ->
  count_symbol grid Floor + count_symbol grid Wall + count_symbol grid Treasure
  + count_symbol grid Trap + count_symbol grid Heal + count_symbol grid Exit = w * h
  ∧ forall symbol, 0 <= count_symbol grid symbol <= w * h.
Proof.
  intros [Hlen Hrows]. subst h. unfold len.
  induction grid as [|row grid IH].
  - rewrite !count_symbol_nil. simpl. split; [lia |].
    intros symbol. rewrite count_symbol_nil. lia.
  - inversion Hrows as [|? ? Hrow Hrest]; subst.
    destruct (IH Hrest) as [Hsum Hbound].
    rewrite !count_symbol_cons. pose proof (count_row_partition row) as Hp.
    cbn [length]. split; [lia |].
    intros symbol. rewrite count_symbol_cons. unfold len in *.
    pose proof (Hbound symbol). pose proof (count_row_le symbol row).
    pose proof (count_row_nonneg symbol row). unfold len in *. lia.
Qed.

Lemma count_symbol_partition_witness :
  let grid := grid (fst sample_start) in
  count_symbol grid Floor + count_symbol grid Wall + count_symbol grid Treasure
  + count_symbol grid Trap + count_symbol grid Heal + count_symbol grid Exit = 6 * 6
  ∧ forall symbol, 0 <= count_symbol grid symbol <= 6 * 6.
Proof.
  intros grid. apply (count_symbol_partition 6 6 grid).
  split; [vm_compute; reflexivity |].
  vm_compute. repeat constructor.
Defined.

(** X5. [count_symbol] is zero exactly when no cell of the grid holds
    the symbol, and it is positive as soon as one cell does. *)
Theorem count_symbol_zero_iff (grid : Grid) (symbol : Cell) :
  (count_symbol grid symbol = 0 <-> forall x y, cell grid x y ≠ Some symbol)
  ∧ (forall x y, cell grid x y = Some symbol -> 1 <= count_symbol grid symbol).
Proof.
  assert (Hiff : count_symbol grid symbol = 0 <-> forall x y, cell grid x y ≠ Some symbol).
  { rewrite count_symbol_zero. split.
    - intros Hall x y Hc. exact (Hall x y symbol Hc eq_refl).
    - intros Hall x y c Hc ->. exact (Hall x y Hc). }
  split; [exact Hiff |].
  intros x y Hc. pose proof (count_symbol_nonneg grid symbol) as Hnn.
  destruct (decide (count_symbol grid symbol = 0)) as [Hz|Hnz]; [| lia].
  exfalso. exact (proj1 Hiff Hz x y Hc).
Qed.

Lemma count_symbol_zero_iff_witness :
  let grid := grid (fst (sample_after [up; right; down; left; left])) in
  1 <= count_symbol grid Exit ∧ count_symbol grid Treasure = 0.
Proof.
  intros grid. split.
  - apply (proj2 (count_symbol_zero_iff grid Exit) 3 2). vm_compute. reflexivity.
  - vm_compute. reflexivity.
Defined.

Lemma count_row_replicate (symbol fill : Cell) (n : nat) :
  count_row symbol (replicate n fill) = if decide (fill = symbol) then Z.of_nat n else 0.
Proof.
  induction n as [|n IH]; simpl; [destruct (decide (fill = symbol)); reflexivity |].
  rewrite IH. destruct (decide (fill = symbol)); lia.
Qed.

(** X3. [make_grid] returns [height] rows of [width] cells, every one of
    them the fill symbol, negative dimensions counting as zero: the fill
    symbol is counted [width * height] times and every other symbol not
    at all, and no cell exists outside these bounds. *)
Theorem make_grid_filled (width height : Z) (fill : Cell) :
  shape (Z.max 0 width) (Z.max 0 height) (make_grid width height fill)
  ∧ (forall x y, cell (make_grid width height fill) x y
                 = if bool_decide (0 <= x < width ∧ 0 <= y < height) then Some fill else None)
  ∧ (forall symbol,
       count_symbol (make_grid width height fill) symbol
       = if decide (fill = symbol) then Z.max 0 width * Z.max 0 height else 0).
Proof.
  unfold make_grid. split; [| split].
  - unfold shape, len. split; [rewrite length_replicate; lia |].
    apply Forall_replicate. rewrite length_replicate. lia.
  - intros x y. unfold cell.
    case_bool_decide as Hnn.
    + destruct (decide (y < height)) as [Hy|Hy].
      * rewrite lookup_replicate_2 by lia. simpl.
        destruct (decide (x < width)) as [Hx|Hx].
        -- rewrite lookup_replicate_2 by lia.
           rewrite bool_decide_eq_true_2 by lia. reflexivity.
        -- rewrite (proj1 (lookup_replicate_None _ _ _)) by lia.
           rewrite bool_decide_eq_false_2 by lia. reflexivity.
      * rewrite (proj1 (lookup_replicate_None _ _ _)) by lia. simpl.
        rewrite bool_decide_eq_false_2 by lia. reflexivity.
    + rewrite bool_decide_eq_false_2 by lia. reflexivity.
  - intros symbol.
    assert (Hn : forall (k : nat) (row : list Cell),
              count_symbol (replicate k row) symbol = Z.of_nat k * count_row symbol row).
    { intros k row. induction k as [|k IH]; [reflexivity |].
      cbn [replicate]. rewrite count_symbol_cons, IH. lia. }
    rewrite Hn, count_row_replicate.
    replace (Z.of_nat (Z.to_nat width)) with (Z.max 0 width) by lia.
    replace (Z.of_nat (Z.to_nat height)) with (Z.max 0 height) by lia.
    destruct (decide (fill = symbol)); lia.
Qed.

(** ** World generation *)

Lemma place_random_loop_done (fuel : nat) (w h : Z) (symbol : Cell) (count : Z)
    (forbidden : gset (Z * Z)) (placed : Z) (grid : Grid) (g : RNG) :
  count <= placed ->
  place_random_loop fuel w h symbol count forbidden placed grid g = Ok (grid, g).
Proof.
  intros Hdone. destruct fuel as [|fuel]; [reflexivity |].
  cbn [place_random_loop]. rewrite bool_decide_eq_false_2 by lia. reflexivity.
Qed.

(** The placement loop, with the number [p] of symbols it places and the
    number of tries it makes. *)
Lemma place_random_loop_count (w h : Z) (symbol : Cell) (count : Z)
    (forbidden : gset (Z * Z)) :
  1 <= w -> 1 <= h -> symbol ≠ Floor ->
  forall fuel placed grid g,
    shape w h grid ->
    exists grid' g' p (tries : nat),
      place_random_loop fuel w h symbol count forbidden placed grid g = Ok (grid', g')
      ∧ shape w h grid'
      ∧ 0 <= p ∧ placed + p <= Z.max placed count
      ∧ count_symbol grid' symbol = count_symbol grid symbol + p
      ∧ count_symbol grid' Floor = count_symbol grid Floor - p
      ∧ (tries <= fuel)%nat
      ∧ after_draws (2 * N.of_nat tries) g g'
      ∧ (count <= placed + p ∨ tries = fuel).
Proof.
  intros Hw Hh Hsym.
  induction fuel as [|fuel IH]; intros placed grid g Hs.
  - exists grid, g, 0, 0%nat. split; [reflexivity |].
    repeat (split; [first [exact Hs | lia | apply after_draws_zero] |]). right. reflexivity.
  - destruct (decide (placed < count)) as [Hlt|Hge].
    2:{ exists grid, g, 0, 0%nat.
        split; [apply place_random_loop_done; lia |].
        repeat (split; [first [exact Hs | lia | apply after_draws_zero] |]). left. lia. }
    assert (Hskip : exists grid' g' p (tries : nat),
               place_random_loop fuel w h symbol count forbidden placed grid
                 (advance (advance g)) = Ok (grid', g')
               ∧ shape w h grid'
               ∧ 0 <= p ∧ placed + p <= Z.max placed count
               ∧ count_symbol grid' symbol = count_symbol grid symbol + p
               ∧ count_symbol grid' Floor = count_symbol grid Floor - p
               ∧ (tries <= S fuel)%nat
               ∧ after_draws (2 * N.of_nat tries) g g'
               ∧ (count <= placed + p ∨ tries = S fuel)).
    { destruct (IH placed grid (advance (advance g)) Hs)
        as (grid' & g' & p & tries & Hrun & Hs' & Hp & Hmax & Hc & Hf & Ht & Hd & Hend).
      exists grid', g', p, (S tries). split; [exact Hrun |].
      repeat (split; [first [assumption | lia] |]).
      split; [eapply after_draws_trans; [apply after_draws_two | exact Hd | lia] |].
      destruct Hend; [left; assumption | right; lia]. }
    cbn [place_random_loop]. rewrite bool_decide_eq_true_2 by exact Hlt.
    destruct (randrange_ok 0 w g) as (x & Hx & Hxr); [lia |].
    rewrite (bind_ok _ _ _ _ _ Hx).
    destruct (randrange_ok 0 h (advance g)) as (y & Hy & Hyr); [lia |].
    rewrite (bind_ok _ _ _ _ _ Hy).
    case_bool_decide as Hforb; [exact Hskip |].
    destruct (grid_get_ok w h grid x y Hs) as (c & Hget & Hcell); [split; lia |].
    rewrite (bind_ok _ _ _ _ _ (lift_ok _ _ _ Hget)).
    case_bool_decide as Hfloor; [exact Hskip |].
    assert (c = Floor) as -> by (destruct (decide (c = Floor)); [assumption | contradiction]).
    rewrite (bind_ok _ _ _ _ _
               (lift_ok _ _ _ (grid_set_ok w h grid x y symbol Hs (conj Hxr Hyr)))).
    destruct (IH (placed + 1) (upd grid x y symbol) (advance (advance g))
                (shape_upd w h grid x y symbol Hs))
      as (grid' & g' & p & tries & Hrun & Hs' & Hp & Hmax & Hc & Hf & Ht & Hd & Hend).
    exists grid', g', (p + 1), (S tries). split; [exact Hrun |].
    rewrite (count_upd grid x y Floor symbol symbol Hcell) in Hc.
    rewrite (count_upd grid x y Floor symbol Floor Hcell) in Hf.
    unfold tick in Hc, Hf.
    destruct (decide (Floor = symbol)) as [Heq|_]; [congruence |].
    destruct (decide (symbol = symbol)) as [_|Hne]; [| contradiction].
    destruct (decide (Floor = Floor)) as [_|Hne]; [| contradiction].
    destruct (decide (symbol = Floor)) as [Heq|_]; [contradiction |].
    repeat (split; [first [assumption | lia] |]).
    split; [eapply after_draws_trans; [apply after_draws_two | exact Hd | lia] |].
    destruct Hend; [left; lia | right; lia].
Qed.

(** [place_random] with the number [p] of symbols it places. *)
Lemma place_random_counts (w h : Z) (grid : Grid) (symbol : Cell) (count : Z)
    (forbidden : gset (Z * Z)) (g : RNG) :
  1 <= w -> 1 <= h -> shape w h grid -> symbol ≠ Floor ->
  exists grid' g' p,
    place_random grid symbol count forbidden g = Ok (grid', g')
    ∧ shape w h grid'
    ∧ 0 <= p <= Z.max 0 count
    ∧ count_symbol grid' symbol = count_symbol grid symbol + p
    ∧ count_symbol grid' Floor = count_symbol grid Floor - p
    ∧ (forall other, other ≠ symbol -> other ≠ Floor ->
         count_symbol grid' other = count_symbol grid other)
    ∧ (forall x y, cell grid x y ≠ Some Floor -> cell grid' x y = cell grid x y)
    ∧ (forall x y, (x, y) ∈ forbidden -> cell grid' x y = cell grid x y)
    ∧ (p = Z.max 0 count ∨ after_draws 20000 g g')
    ∧ drew_at_most 20000 g g'
    ∧ (count <= 0 -> grid' = grid ∧ g' = g).
Proof.
  intros Hw Hh Hs Hsym.
  destruct (place_random_spec w h grid symbol count forbidden g Hw Hh Hs)
    as (grid' & g' & Hrun & Hs' & Hkeep & Hforb & _ & Hother & Hdrew).
  exists grid', g'.
  destruct (shape_row0 w h grid Hs Hh) as (row0 & Hrow0 & Hlen0 & _).
  assert (Hlen : len grid = h) by (destruct Hs; assumption).
  pose proof Hrun as Hrun'. unfold place_random in Hrun'.
  rewrite (bind_ok _ _ _ _ _ (lift_ok _ _ _ Hrow0)) in Hrun'. rewrite Hlen0, Hlen in Hrun'.
  destruct (place_random_loop_count w h symbol count forbidden Hw Hh Hsym
              10000%nat 0 grid g Hs)
    as (grid'' & g'' & p & tries & Hloop & _ & Hp & Hmax & Hc & Hf & Ht & Hd & Hend).
  rewrite Hloop in Hrun'. injection Hrun' as <- <-.
  exists p. split; [exact Hrun |]. split; [exact Hs' |]. split; [lia |].
  split; [exact Hc |]. split; [exact Hf |]. split; [exact Hother |].
  split; [exact Hkeep |]. split; [exact Hforb |]. split; [| split; [exact Hdrew |]].
  - destruct Hend as [Hfull | ->]; [left; lia |].
    right. assert (Hn : (2 * N.of_nat 10000 = 20000)%N) by (vm_compute; reflexivity).
    rewrite Hn in Hd. exact Hd.
  - intros Hzero.
    rewrite (place_random_loop_done 10000 w h symbol count forbidden 0 grid g) in Hloop by lia.
    injection Hloop as <- <-. split; reflexivity.
Qed.

(** X4. [place_random] on a rectangular grid returns; it turns some
    number [p] of floor cells into [symbol], with [p] at most [count]
    (none when [count <= 0], and then nothing is drawn); every other
    count, every cell that was not floor and every forbidden cell are
    as before; and it stops short of [count] only after all 10 000
    tries, two draws each. *)
Theorem place_random_accounting (w h : Z) (grid : Grid) (symbol : Cell) (count : Z)
    (forbidden : gset (Z * Z)) (g : RNG) :
  1 <= w -> 1 <= h -> shape w h grid -> symbol ≠ Floor ->
  exists grid' g' p,
    place_random grid symbol count forbidden g = Ok (grid', g')
    ∧ shape w h grid'
    ∧ 0 <= p <= Z.max 0 count
    ∧ count_symbol grid' symbol = count_symbol grid symbol + p
    ∧ count_symbol grid' Floor = count_symbol grid Floor - p
    ∧ (forall other, other ≠ symbol -> other ≠ Floor ->
         count_symbol grid' other = count_symbol grid other)
    ∧ (forall x y, cell grid x y ≠ Some Floor -> cell grid' x y = cell grid x y)
    ∧ (forall x y, (x, y) ∈ forbidden -> cell grid' x y = cell grid x y)
    ∧ (p = Z.max 0 count ∨ after_draws 20000 g g')
    ∧ drew_at_most 20000 g g'
    ∧ (count <= 0 -> grid' = grid ∧ g' = g).
Proof. exact (place_random_counts w h grid symbol count forbidden g). Qed.

Lemma place_random_accounting_witness :
  let grid := make_grid 3 3 Floor in
  exists grid' g' p,
    place_random grid Treasure 2 ∅ zero_rng = Ok (grid', g')
    ∧ shape 3 3 grid'
    ∧ 0 <= p <= Z.max 0 2
    ∧ count_symbol grid' Treasure = count_symbol grid Treasure + p
    ∧ count_symbol grid' Floor = count_symbol grid Floor - p
    ∧ (forall other, other ≠ Treasure -> other ≠ Floor ->
         count_symbol grid' other = count_symbol grid other)
    ∧ (forall x y, cell grid x y ≠ Some Floor -> cell grid' x y = cell grid x y)
    ∧ (forall x y, (x, y) ∈ (∅ : gset (Z * Z)) -> cell grid' x y = cell grid x y)
    ∧ (p = Z.max 0 2 ∨ after_draws 20000 zero_rng g')
    ∧ drew_at_most 20000 zero_rng g'
    ∧ (2 <= 0 -> grid' = grid ∧ g' = zero_rng).
Proof.
  intros grid.
  apply (place_random_accounting 3 3 grid Treasure 2 ∅ zero_rng); try lia.
  - split; [vm_compute; reflexivity |]. vm_compute. repeat constructor.
  - discriminate.
Defined.

(** With every draw zero only the cell of column 0, row 0 is ever tried:
    one treasure is placed there and the other 9 999 tries are lost. *)
Example place_random_runs_out :
  place_random (make_grid 3 3 Floor) Treasure 2 ∅ zero_rng
  = Ok ([[Treasure; Floor; Floor]; [Floor; Floor; Floor]; [Floor; Floor; Floor]],
        mkRNG (fun _ => 0) 20000).
Proof. vm_compute. reflexivity. Qed.

(** The fields and the item counts of a freshly built world. *)
Lemma build_world_items (width height : Z) (g : RNG) :
  1 <= width -> 1 <= height ->
  exists world g',
    build_world width height g = Ok (world, g')
    ∧ shape width height (grid world)
    ∧ player_pos world = (width `div` 2, height `div` 2)
    ∧ score world = 0 ∧ hp world = 5 ∧ turn world = 0
    ∧ message world = msg_welcome
    ∧ exit_spawned world = false ∧ won world = false
    ∧ count_symbol (grid world) Exit = 0
    ∧ 0 <= count_symbol (grid world) Treasure <= Z.max 4 ((width * height) `div` 30)
    ∧ 0 <= count_symbol (grid world) Trap <= Z.max 4 ((width * height) `div` 35)
    ∧ 0 <= count_symbol (grid world) Heal <= 1
    ∧ drew_at_most 80000 g g'.
Proof.
  intros Hw Hh. unfold build_world.
  destruct (border_rows_spec width height (make_grid width height Floor) Hw Hh)
    as (g1 & Hr1 & Hs1 & Hc1).
  { apply make_grid_shape; lia. }
  { intros x y Hb. apply make_grid_cell. exact Hb. }
  destruct (border_columns_spec width height g1 Hw Hh Hs1 Hc1) as (g2 & Hr2 & Hs2 & Hc2).
  rewrite (bind_ok _ _ _ _ _ (lift_ok _ _ g Hr1)).
  rewrite (bind_ok _ _ _ _ _ (lift_ok _ _ g Hr2)).
  set (forb := forbid_border width height {[ (width `div` 2, height `div` 2) ]}).
  assert (Hnone : forall symbol, symbol ≠ Wall -> symbol ≠ Floor -> count_symbol g2 symbol = 0).
  { intros symbol Hnw Hnf. apply count_symbol_zero. intros x y c Hc.
    pose proof (cell_Some_bounds width height g2 x y c Hs2 Hc) as Hb.
    rewrite (Hc2 x y Hb) in Hc. injection Hc as <-. case_bool_decide; congruence. }
  destruct (place_random_counts width height g2 Wall
              (Z.max 6 ((width * height) `div` 18)) forb g Hw Hh Hs2)
    as (g3 & r3 & p3 & Hp3 & Hs3 & _ & _ & _ & Ho3 & _ & _ & _ & Hd3 & _); [discriminate |].
  rewrite (bind_ok _ _ _ _ _ Hp3).
  destruct (place_random_counts width height g3 Treasure
              (Z.max 4 ((width * height) `div` 30)) forb r3 Hw Hh Hs3)
    as (g4 & r4 & p4 & Hp4 & Hs4 & Hb4 & Hn4 & _ & Ho4 & _ & _ & _ & Hd4 & _); [discriminate |].
  rewrite (bind_ok _ _ _ _ _ Hp4).
  destruct (place_random_counts width height g4 Trap
              (Z.max 4 ((width * height) `div` 35)) forb r4 Hw Hh Hs4)
    as (g5 & r5 & p5 & Hp5 & Hs5 & Hb5 & Hn5 & _ & Ho5 & _ & _ & _ & Hd5 & _); [discriminate |].
  rewrite (bind_ok _ _ _ _ _ Hp5).
  destruct (place_random_counts width height g5 Heal 1 forb r5 Hw Hh Hs5)
    as (g6 & r6 & p6 & Hp6 & Hs6 & Hb6 & Hn6 & _ & Ho6 & _ & _ & _ & Hd6 & _); [discriminate |].
  rewrite (bind_ok _ _ _ _ _ Hp6).
  eexists _, r6. split; [reflexivity |]. simpl.
  split; [exact Hs6 |].
  repeat (split; [reflexivity |]).
  split; [rewrite Ho6, Ho5, Ho4, Ho3 by discriminate; apply Hnone; discriminate |].
  split; [rewrite Ho6, Ho5 by discriminate; rewrite Hn4, Ho3 by discriminate;
          rewrite Hnone by discriminate; lia |].
  split; [rewrite Ho6 by discriminate; rewrite Hn5, Ho4, Ho3 by discriminate;
          rewrite Hnone by discriminate; lia |].
  split; [rewrite Hn6, Ho5, Ho4, Ho3 by discriminate;
          rewrite Hnone by discriminate; lia |].
  apply (drew_trans 60000 20000 80000 g r5 r6); [| exact Hd6 | lia].
  apply (drew_trans 40000 20000 60000 g r4 r5); [| exact Hd5 | lia].
  apply (drew_trans 20000 20000 40000 g r3 r4); [exact Hd3 | exact Hd4 | lia].
Qed.

(** X6. [build_world] on positive dimensions returns a world with score
    0, health 5, turn 0, the welcome message, neither flag set and the
    player at the centre; its grid holds no exit, at most
    [max(4, width * height // 30)] treasures, at most
    [max(4, width * height // 35)] traps and at most one heart; and it
    makes at most 80 000 random draws. *)
Theorem build_world_contents (width height : Z) (g : RNG) :
  1 <= width -> 1 <= height ->
  exists world g',
    build_world width height g = Ok (world, g')
    ∧ shape width height (grid world)
    ∧ player_pos world = (width `div` 2, height `div` 2)
    ∧ score world = 0 ∧ hp world = 5 ∧ turn world = 0
    ∧ message world = msg_welcome
    ∧ exit_spawned world = false ∧ won world = false
    ∧ count_symbol (grid world) Exit = 0
    ∧ 0 <= count_symbol (grid world) Treasure <= Z.max 4 ((width * height) `div` 30)
    ∧ 0 <= count_symbol (grid world) Trap <= Z.max 4 ((width * height) `div` 35)
    ∧ 0 <= count_symbol (grid world) Heal <= 1
    ∧ drew_at_most 80000 g g'.
Proof. exact (build_world_items width height g). Qed.

Lemma build_world_contents_witness :
  exists world g',
    build_world 15 11 sample_rng = Ok (world, g')
    ∧ shape 15 11 (grid world)
    ∧ player_pos world = (15 `div` 2, 11 `div` 2)
    ∧ score world = 0 ∧ hp world = 5 ∧ turn world = 0
    ∧ message world = msg_welcome
    ∧ exit_spawned world = false ∧ won world = false
    ∧ count_symbol (grid world) Exit = 0
    ∧ 0 <= count_symbol (grid world) Treasure <= Z.max 4 ((15 * 11) `div` 30)
    ∧ 0 <= count_symbol (grid world) Trap <= Z.max 4 ((15 * 11) `div` 35)
    ∧ 0 <= count_symbol (grid world) Heal <= 1
    ∧ drew_at_most 80000 sample_rng g'.
Proof. apply (build_world_contents 15 11 sample_rng); lia. Defined.

(** ** Moves *)

Lemma after_draws_within (n k : N) (g g' : RNG) :
  after_draws n g g' -> (n <= k)%N -> drew_at_most k g g'.
Proof. unfold after_draws, drew_at_most. intros [Hs Hc] Hk. split; [exact Hs | lia]. Qed.

Lemma drew_at_most_weaken (n k : N) (g g' : RNG) :
  drew_at_most n g g' -> (n <= k)%N -> drew_at_most k g g'.
Proof. unfold drew_at_most. intros [Hs Hc] Hk. split; [exact Hs | lia]. Qed.

(** Replacing a cell leaves alone every symbol that is neither the old
    nor the new occupant. *)
Lemma upd_keeps_symbol (w h : Z) (grid : Grid) (x y : Z) (old c sym : Cell) :
  shape w h grid -> in_bounds w h x y -> cell grid x y = Some old ->
  old ≠ sym -> c ≠ sym ->
  (forall x' y', cell (upd grid x y c) x' y' = Some sym <-> cell grid x' y' = Some sym)
  ∧ count_symbol (upd grid x y c) sym = count_symbol grid sym.
Proof.
  intros Hs Hb Hold Ho Hc. split.
  - intros x' y'. rewrite (cell_upd w h grid x y x' y' c Hs Hb).
    case_bool_decide as Heq; [| tauto].
    injection Heq as -> ->. rewrite Hold. split; intros Hx; congruence.
  - rewrite (count_upd grid x y old c sym Hold). unfold tick.
    destruct (decide (old = sym)); [contradiction |].
    destruct (decide (c = sym)); [contradiction | lia].
Qed.

(** What the exit check and [maybe_spawn] together leave alone. *)
Lemma post_move_frame (w h : Z) (w1 w2 w3 : World) (g1 g2 g3 : RNG) (sym : Cell) :
  sound w h w1 -> 3 <= w -> 3 <= h ->
  exit_phase w h w1 g1 w2 g2 -> maybe_spawn w2 g2 = Ok (w3, g3) ->
  sym = Wall ∨ sym = Heal ->
  same_player w1 w3
  ∧ (forall x y, cell (grid w3) x y = Some sym <-> cell (grid w1) x y = Some sym)
  ∧ count_symbol (grid w3) sym = count_symbol (grid w1) sym
  ∧ (exit_spawned w1 = true -> exit_spawned w3 = true)
  ∧ drew_at_most 521 g1 g3.
Proof.
  intros Hs1 Hw Hh Hph Hms Hsym.
  assert (Hnf : sym ≠ Floor) by (destruct Hsym as [-> | ->]; discriminate).
  assert (Hne : sym ≠ Exit) by (destruct Hsym as [-> | ->]; discriminate).
  assert (Hnt : sym ≠ Treasure) by (destruct Hsym as [-> | ->]; discriminate).
  assert (Hnx : sym ≠ Trap) by (destruct Hsym as [-> | ->]; discriminate).
  destruct (sound_exit_phase w h w1 w2 g1 g2 Hs1 Hph) as [Hs2 _].
  (* the exit check *)
  assert (H12 : same_player w1 w2
                ∧ (forall x y, cell (grid w2) x y = Some sym <-> cell (grid w1) x y = Some sym)
                ∧ count_symbol (grid w2) sym = count_symbol (grid w1) sym
                ∧ (exit_spawned w1 = true -> exit_spawned w2 = true)
                ∧ drew_at_most 400 g1 g2).
  { destruct (exit_phase_flag w h w1 w2 g1 g2 Hph) as [[-> ->] | (Hflag & _ & Hstep)].
    - split; [apply same_player_refl |]. split; [tauto |]. split; [reflexivity |].
      split; [tauto |]. apply drew_at_most_weaken with (n := 0%N); [apply drew_refl | lia].
    - destruct (exit_step_effect w h w1 w2 g1 g2 Hs1 Hflag Hstep) as [Hsp _].
      split; [exact Hsp |].
      destruct Hstep as [[-> Hd] | (x & y & k & Hi & Hp & Hc & -> & Hk & Hd)].
      + simpl. split; [tauto |]. split; [reflexivity |]. split; [congruence |].
        eapply after_draws_within; [exact Hd | lia].
      + simpl.
        destruct (upd_keeps_symbol w h (grid w1) x y Floor Exit sym
                    (sound_shape _ _ _ Hs1) (interior_in_bounds w h x y Hi) Hc)
          as [Hcells Hcount]; [congruence | congruence |].
        split; [exact Hcells |]. split; [exact Hcount |]. split; [reflexivity |].
        eapply after_draws_within; [exact Hd | lia]. }
  destruct H12 as (Hsp12 & Hcells12 & Hcount12 & Hflag12 & Hd12).
  (* the random event *)
  destruct (maybe_spawn_effect w h w2 w3 g2 g3 Hs2 Hw Hh Hms) as (Hsp23 & Hflag23 & _).
  assert (H23 : (forall x y, cell (grid w3) x y = Some sym <-> cell (grid w2) x y = Some sym)
                ∧ count_symbol (grid w3) sym = count_symbol (grid w2) sym
                ∧ drew_at_most 121 g2 g3).
  { destruct (maybe_spawn_spec w h w2 g2 (sound_shape _ _ _ Hs2) Hw Hh)
      as (w3' & g3' & Hms' & Hcases).
    rewrite Hms in Hms'. injection Hms' as <- <-.
    assert (Hstep : forall symbol suffix,
              symbol ≠ sym ->
              spawn_step w h symbol suffix w2 (advance g2) w3 g3 ->
              (forall x y, cell (grid w3) x y = Some sym <-> cell (grid w2) x y = Some sym)
              ∧ count_symbol (grid w3) sym = count_symbol (grid w2) sym
              ∧ drew_at_most 121 g2 g3).
    { intros symbol suffix Hdiff [[-> Hd] | (x & y & k & Hi & Hp & Hc & -> & Hk & Hd)].
      - split; [tauto |]. split; [reflexivity |].
        apply (drew_trans 1 120 121 g2 (advance g2) g3 (drew_advance g2)); [| lia].
        eapply after_draws_within; [exact Hd | lia].
      - simpl.
        destruct (upd_keeps_symbol w h (grid w2) x y Floor symbol sym
                    (sound_shape _ _ _ Hs2) (interior_in_bounds w h x y Hi) Hc)
          as [Hcells Hcount]; [congruence | exact Hdiff |].
        split; [exact Hcells |]. split; [exact Hcount |].
        apply (drew_trans 1 120 121 g2 (advance g2) g3 (drew_advance g2)); [| lia].
        eapply after_draws_within; [exact Hd | lia]. }
    destruct (exit_spawned w2).
    { destruct Hcases as [-> ->]. split; [tauto |]. split; [reflexivity |].
      apply drew_at_most_weaken with (n := 0%N); [apply drew_refl | lia]. }
    destruct (below (roll_of g2) low_threshold).
    { apply (Hstep Treasure msg_spawn_treasure); [congruence | exact Hcases]. }
    destruct (below (roll_of g2) high_threshold).
    { apply (Hstep Trap msg_spawn_trap); [congruence | exact Hcases]. }
    destruct Hcases as [-> ->]. split; [tauto |]. split; [reflexivity |].
    apply drew_at_most_weaken with (n := 1%N); [apply drew_advance | lia]. }
  destruct H23 as (Hcells23 & Hcount23 & Hd23).
  split; [exact (same_player_trans _ _ _ Hsp12 Hsp23) |].
  split; [intros x y; rewrite Hcells23; apply Hcells12 |].
  split; [congruence |]. split; [intros Hon; rewrite Hflag23; apply Hflag12; exact Hon |].
  exact (drew_trans 400 121 521 g1 g2 g3 Hd12 Hd23 ltac:(lia)).
Qed.

(** What a move does to the world, in one statement. *)
Lemma move_effect (w h : Z) (world : World) (dx dy : Z) (g : RNG) (world' : World)
    (g' : RNG) :
  sound w h world -> try_move world dx dy g = Ok (world', g') ->
  (target world dx dy = Some Wall ∧ world' = set_message msg_wall world ∧ g' = g)
  ∨ exists t,
      target world dx dy = Some t ∧ t ≠ Wall ∧ 3 <= w ∧ 3 <= h
      ∧ player_pos world' = destination world dx dy
      ∧ turn world' = turn world + 1
      ∧ score world' = score world + (if decide (t = Treasure) then 10 else 0)
      ∧ hp world' = hp world + match t with Trap => -1 | Heal => 2 | _ => 0 end
      ∧ won world' = (if decide (t = Exit) then true else won world)
      ∧ (forall x y, cell (grid world') x y = Some Wall <-> cell (grid world) x y = Some Wall)
      ∧ count_symbol (grid world') Heal = count_symbol (grid world) Heal - tick t Heal
      ∧ (exit_spawned world = true -> exit_spawned world' = true)
      ∧ drew_at_most 522 g g'.
Proof.
  intros Hsound Hrun.
  destruct (try_move_spec w h world dx dy g Hsound) as (w'' & g'' & Hrun' & Hout).
  rewrite Hrun in Hrun'. injection Hrun' as <- <-.
  assert (Harr : forall t, target world dx dy = Some t -> t ≠ Wall ->
            3 <= w ∧ 3 <= h
            ∧ sound w h (arrive world dx dy t)
            ∧ player_pos (arrive world dx dy t) = destination world dx dy
            ∧ turn (arrive world dx dy t) = turn world + 1
            ∧ score (arrive world dx dy t)
              = score world + (if decide (t = Treasure) then 10 else 0)
            ∧ hp (arrive world dx dy t)
              = hp world + match t with Trap => -1 | Heal => 2 | _ => 0 end
            ∧ won (arrive world dx dy t) = (if decide (t = Exit) then true else won world)
            ∧ exit_spawned (arrive world dx dy t) = exit_spawned world
            ∧ (forall x y, cell (grid (arrive world dx dy t)) x y = Some Wall
                           <-> cell (grid world) x y = Some Wall)
            ∧ count_symbol (grid (arrive world dx dy t)) Heal
              = count_symbol (grid world) Heal - tick t Heal).
  { intros t Ht Hnw.
    destruct (open_target_dims w h world dx dy t Hsound Ht Hnw) as [Hw3 Hh3].
    destruct (sound_arrive w h world dx dy t Hsound Ht Hnw) as [Hs1 _].
    destruct (arrive_fields w h world dx dy t Hsound Ht Hnw)
      as (Hpos & Hturn & Hflag & Hscore & Hhp & Hwon & _ & _).
    split; [exact Hw3 |]. split; [exact Hh3 |]. split; [exact Hs1 |].
    split; [exact Hpos |]. split; [exact Hturn |]. split; [exact Hscore |].
    split; [exact Hhp |]. split; [exact Hwon |]. split; [exact Hflag |].
    destruct (candidate_ok w h world dx dy (sound_shape _ _ _ Hsound)
                (sound_width _ _ _ Hsound) (sound_height _ _ _ Hsound)) as [_ Hb].
    pose proof (sound_shape _ _ _ Hsound) as Hs.
    unfold target in Ht. unfold arrive.
    destruct (destination world dx dy) as [nx ny]. simpl in Hb, Ht.
    assert (Hupd : forall old, cell (grid world) nx ny = Some old -> old ≠ Wall ->
              (forall x y, cell (upd (grid world) nx ny Floor) x y = Some Wall
                           <-> cell (grid world) x y = Some Wall)
              ∧ count_symbol (upd (grid world) nx ny Floor) Heal
                = count_symbol (grid world) Heal - tick old Heal).
    { intros old Hold Hne. split.
      - apply (upd_keeps_symbol w h (grid world) nx ny old Floor Wall Hs Hb Hold);
          [exact Hne | discriminate].
      - rewrite (count_upd (grid world) nx ny old Floor Heal Hold). unfold tick at 2.
        simpl. lia. }
    destruct t; try contradiction; simpl;
      try (apply (Hupd _ Ht); discriminate);
      (split; [tauto | unfold tick; simpl; lia]). }
  destruct Hout as [Ht | Ht | t w2 g2 w3 g3 Ht Hkind Hph Hms | m w2 g2 w3 g3 Ht Hin Hph Hms].
  - left. tauto.
  - right. exists Exit.
    destruct (Harr Exit Ht) as (Hw3 & Hh3 & _ & Hpos & Hturn & Hscore & Hhp & Hwon & Hflag
                                & Hwalls & Hheal); [discriminate |].
    split; [exact Ht |]. split; [discriminate |]. split; [exact Hw3 |]. split; [exact Hh3 |].
    split; [exact Hpos |]. split; [exact Hturn |]. split; [exact Hscore |].
    split; [exact Hhp |]. split; [exact Hwon |]. split; [exact Hwalls |].
    split; [exact Hheal |]. split; [congruence |].
    apply drew_at_most_weaken with (n := 0%N); [apply drew_refl | lia].
  - right. exists t.
    assert (Hnw : t ≠ Wall) by (destruct Hkind as [-> | [-> | ->]]; discriminate).
    destruct (Harr t Ht Hnw) as (Hw3 & Hh3 & Hs1 & Hpos & Hturn & Hscore & Hhp & Hwon & Hflag
                                 & Hwalls & Hheal).
    destruct (post_move_frame w h _ w2 w3 g g2 g3 Wall Hs1 Hw3 Hh3 Hph Hms)
      as ((Hp & Hsc & Hh & Htu & Hwo & _) & Hcw & _ & Hfl & Hd); [tauto |].
    destruct (post_move_frame w h _ w2 w3 g g2 g3 Heal Hs1 Hw3 Hh3 Hph Hms)
      as (_ & _ & Hch & _ & _); [tauto |].
    split; [exact Ht |]. split; [exact Hnw |]. split; [exact Hw3 |]. split; [exact Hh3 |].
    split; [congruence |]. split; [congruence |]. split; [congruence |].
    split; [congruence |]. split; [congruence |].
    split; [intros x y; rewrite Hcw; apply Hwalls |].
    split; [congruence |]. split; [intros Hon; apply Hfl; congruence |].
    eapply drew_at_most_weaken; [exact Hd | lia].
  - right. exists Floor.
    destruct (Harr Floor Ht) as (Hw3 & Hh3 & Hs1 & Hpos & Hturn & Hscore & Hhp & Hwon & Hflag
                                 & Hwalls & Hheal); [discriminate |].
    pose proof (sound_set_message w h _ m Hs1) as Hs1'.
    destruct (post_move_frame w h _ w2 w3 (advance g) g2 g3 Wall Hs1' Hw3 Hh3 Hph Hms)
      as ((Hp & Hsc & Hh & Htu & Hwo & _) & Hcw & _ & Hfl & Hd); [tauto |].
    destruct (post_move_frame w h _ w2 w3 (advance g) g2 g3 Heal Hs1' Hw3 Hh3 Hph Hms)
      as (_ & _ & Hch & _ & _); [tauto |].
    cbn [player_pos score hp turn won grid exit_spawned set_message]
      in Hp, Hsc, Hh, Htu, Hwo, Hcw, Hch, Hfl.
    split; [exact Ht |]. split; [discriminate |]. split; [exact Hw3 |]. split; [exact Hh3 |].
    split; [congruence |]. split; [congruence |]. split; [congruence |].
    split; [congruence |]. split; [congruence |].
    split; [intros x y; rewrite Hcw; apply Hwalls |].
    split; [congruence |]. split; [intros Hon; apply Hfl; congruence |].
    exact (drew_trans 1 521 522 g (advance g) g3 (drew_advance g) Hd ltac:(lia)).
Qed.

(** X7. In every reachable world the counters stay within what the
    rules allow: the turn counter is not negative, the score is a
    multiple of 10 between 0 and 10 per turn, and health is at least 5
    minus the number of turns and at most 7, since the only heart of a
    world is worth 2 and no heart ever appears after generation. *)
Theorem counters_bounded (w h : Z) (world : World) :
  reachable w h world ->
  0 <= turn world
  ∧ 0 <= score world <= 10 * turn world
  ∧ score world `mod` 10 = 0
  ∧ 5 - turn world <= hp world <= 7
  ∧ 0 <= count_symbol (grid world) Heal <= 1
  ∧ hp world + 2 * count_symbol (grid world) Heal <= 7.
Proof.
  intros Hreach.
  assert (Hinv : 0 <= turn world
                 ∧ 0 <= score world <= 10 * turn world
                 ∧ score world `mod` 10 = 0
                 ∧ 5 - turn world <= hp world
                 ∧ 0 <= count_symbol (grid world) Heal <= 1
                 ∧ hp world + 2 * count_symbol (grid world) Heal <= 7).
  { induction Hreach as [g world g' Hrun | world dx dy g world' g' Hreach IH Hrun
                        | world m Hreach IH].
    - destruct (Z_lt_le_dec 0 w) as [Hw|Hw];
        [| rewrite build_world_raises in Hrun by lia; discriminate].
      destruct (Z_lt_le_dec 0 h) as [Hh|Hh];
        [| rewrite build_world_raises in Hrun by lia; discriminate].
      destruct (build_world_items w h g) as (world0 & g0 & Hrun0 & _ & _ & Hsc & Hhp & Htu
                                                & _ & _ & _ & _ & _ & _ & Hheal & _);
        [lia | lia |].
      rewrite Hrun in Hrun0. injection Hrun0 as <- <-.
      rewrite Hsc, Hhp, Htu. change (0 `mod` 10) with 0. lia.
    - destruct (reachable_sound w h world Hreach) as [Hsound _].
      destruct IH as (Htu & Hsc & Hmod & Hlo & Hheal & Hhi).
      pose proof (count_symbol_nonneg (grid world') Heal) as Hnn.
      destruct (move_effect w h world dx dy g world' g' Hsound Hrun)
        as [(_ & -> & _) | (t & _ & _ & _ & _ & _ & Eturn & Escore & Ehp & _ & _ & Ecount & _)].
      + simpl. tauto.
      + rewrite Eturn, Escore, Ehp, Ecount. unfold tick.
        split; [lia |]. split; [destruct (decide (t = Treasure)); lia |].
        split.
        { destruct (decide (t = Treasure)); [| rewrite Z.add_0_r; exact Hmod].
          rewrite <- (Z.mul_1_l 10) at 1. rewrite Z.mod_add by lia. exact Hmod. }
        rewrite Ecount in Hnn. unfold tick in Hnn.
        destruct t; simpl in *; lia.
    - exact IH. }
  destruct Hinv as (Htu & Hsc & Hmod & Hlo & Hheal & Hhi).
  split; [exact Htu |]. split; [exact Hsc |]. split; [exact Hmod |].
  split; [lia |]. split; [exact Hheal | exact Hhi].
Qed.

Lemma counters_bounded_witness :
  let world := fst (sample_after [down; left]) in
  0 <= turn world
  ∧ 0 <= score world <= 10 * turn world
  ∧ score world `mod` 10 = 0
  ∧ 5 - turn world <= hp world <= 7
  ∧ 0 <= count_symbol (grid world) Heal <= 1
  ∧ hp world + 2 * count_symbol (grid world) Heal <= 7.
Proof.
  intros world. apply (counters_bounded 6 6 world).
  apply sample_after_reachable. vm_compute. reflexivity.
Defined.

(** X8. The walls are fixed at generation: a move on a reachable world
    returns a world with a wall exactly where there was one, so no wall
    is ever removed and none is ever added. *)
Theorem walls_never_change (w h : Z) (world : World) (dx dy : Z) (g : RNG) :
  reachable w h world ->
  exists world' g',
    try_move world dx dy g = Ok (world', g')
    ∧ forall x y, cell (grid world') x y = Some Wall <-> cell (grid world) x y = Some Wall.
Proof.
  intros Hreach.
  destruct (reachable_sound w h world Hreach) as [Hsound _].
  destruct (try_move_spec w h world dx dy g Hsound) as (world' & g' & Hrun & _).
  exists world', g'. split; [exact Hrun |].
  destruct (move_effect w h world dx dy g world' g' Hsound Hrun)
    as [(_ & -> & _) | (t & _ & _ & _ & _ & _ & _ & _ & _ & _ & Hwalls & _)].
  - simpl. tauto.
  - exact Hwalls.
Qed.

Lemma walls_never_change_witness :
  let st := sample_after [up; right] in
  exists world' g',
    try_move (fst st) 0 1 (snd st) = Ok (world', g')
    ∧ forall x y, cell (grid world') x y = Some Wall <-> cell (grid (fst st)) x y = Some Wall.
Proof.
  intros st. apply (walls_never_change 6 6 (fst st) 0 1 (snd st)).
  apply sample_after_reachable. vm_compute. reflexivity.
Defined.

(** X9. One move on a reachable world returns after at most 522 random
    draws, and either it is blocked by a wall and position, turn, score
    and health are unchanged, or the player stands on the destination
    and the turn counter has grown by exactly one. The score never
    drops: it grows by 10 exactly when the destination held a treasure.
    Health drops, by one, exactly when it held a trap, and grows, by
    two, exactly when it held a heart. [won] is never unset, and is set
    only by a destination that holds the exit. *)
Theorem move_deltas (w h : Z) (world : World) (dx dy : Z) (g : RNG) :
  reachable w h world ->
  exists world' g' t,
    try_move world dx dy g = Ok (world', g')
    ∧ target world dx dy = Some t
    ∧ drew_at_most 522 g g'
    ∧ (if decide (t = Wall)
       then player_pos world' = player_pos world ∧ turn world' = turn world
       else player_pos world' = destination world dx dy ∧ turn world' = turn world + 1)
    ∧ score world' = score world + (if decide (t = Treasure) then 10 else 0)
    ∧ hp world' = hp world + match t with Trap => -1 | Heal => 2 | _ => 0 end
    ∧ won world' = (if decide (t = Exit) then true else won world).
Proof.
  intros Hreach.
  destruct (reachable_sound w h world Hreach) as [Hsound _].
  destruct (try_move_spec w h world dx dy g Hsound) as (world' & g' & Hrun & _).
  destruct (move_effect w h world dx dy g world' g' Hsound Hrun)
    as [(Ht & -> & ->) | (t & Ht & Hnw & _ & _ & Hpos & Hturn & Hscore & Hhp & Hwon & _ & _
                          & _ & Hd)].
  - exists (set_message msg_wall world), g, Wall. split; [exact Hrun |]. split; [exact Ht |].
    split; [apply drew_at_most_weaken with (n := 0%N); [apply drew_refl | lia] |].
    simpl. repeat split; lia.
  - exists world', g', t. split; [exact Hrun |]. split; [exact Ht |]. split; [exact Hd |].
    destruct (decide (t = Wall)); [contradiction |]. tauto.
Qed.

Lemma move_deltas_witness :
  let st := sample_after [down] in
  exists world' g' t,
    try_move (fst st) (-1) 0 (snd st) = Ok (world', g')
    ∧ target (fst st) (-1) 0 = Some t
    ∧ drew_at_most 522 (snd st) g'
    ∧ (if decide (t = Wall)
       then player_pos world' = player_pos (fst st) ∧ turn world' = turn (fst st)
       else player_pos world' = destination (fst st) (-1) 0
            ∧ turn world' = turn (fst st) + 1)
    ∧ score world' = score (fst st) + (if decide (t = Treasure) then 10 else 0)
    ∧ hp world' = hp (fst st) + match t with Trap => -1 | Heal => 2 | _ => 0 end
    ∧ won world' = (if decide (t = Exit) then true else won (fst st)).
Proof.
  intros st. apply (move_deltas 6 6 (fst st) (-1) 0 (snd st)).
  apply sample_after_reachable. vm_compute. reflexivity.
Defined.

(** X10. Nobody wins before the exit has appeared: in every reachable
    world in which [won] is set, [exit_spawned] is set as well and the
    grid holds its one exit cell. *)
Theorem won_needs_exit (w h : Z) (world : World) :
  reachable w h world ->
  won world = true ->
  exit_spawned world = true ∧ count_symbol (grid world) Exit = 1.
Proof.
  intros Hreach Hwon.
  destruct (reachable_sound w h world Hreach) as [Hsound' _].
  assert (Hflag : exit_spawned world = true).
  { clear Hsound'. revert Hwon.
    induction Hreach as [g world g' Hrun | world dx dy g world' g' Hreach IH Hrun
                        | world m Hreach IH]; intros Hwon.
    - destruct (Z_lt_le_dec 0 w) as [Hw|Hw];
        [| rewrite build_world_raises in Hrun by lia; discriminate].
      destruct (Z_lt_le_dec 0 h) as [Hh|Hh];
        [| rewrite build_world_raises in Hrun by lia; discriminate].
      destruct (build_world_spec w h g) as (grid' & g0 & Hrun0 & _); [lia | lia |].
      rewrite Hrun in Hrun0. injection Hrun0 as -> _. discriminate.
    - destruct (reachable_sound w h world Hreach) as [Hsound _].
      destruct (move_effect w h world dx dy g world' g' Hsound Hrun)
        as [(_ & -> & _) | (t & Ht & _ & _ & _ & _ & _ & _ & _ & Ewon & _ & _ & Hmono & _)].
      + apply IH. exact Hwon.
      + apply Hmono. destruct (decide (t = Exit)) as [->|_].
        * pose proof (sound_exit _ _ _ Hsound) as Hcount.
          destruct (exit_spawned world); [reflexivity |].
          exfalso. exact (proj1 (count_symbol_zero _ _) Hcount _ _ Exit Ht eq_refl).
        * apply IH. congruence.
    - apply IH. exact Hwon. }
  split; [exact Hflag |].
  rewrite (sound_exit _ _ _ Hsound'), Hflag. reflexivity.
Qed.

Lemma won_needs_exit_witness :
  let world := fst (sample_after [up; right; down; left; left; right; up]) in
  exit_spawned world = true ∧ count_symbol (grid world) Exit = 1.
Proof.
  intros world. apply (won_needs_exit 6 6 world).
  - apply sample_after_reachable. vm_compute. reflexivity.
  - vm_compute. reflexivity.
Defined.

(** X18. [spawn_exit] on a sound world of at least 3 by 3 returns,
    and either every one of its 200 attempts failed, after exactly 400
    draws, and only the message changed; or exactly one cell changed: a
    floor cell off the border ring, not the player's, now holds the
    exit, [exit_spawned] is set, there is one floor cell less and one
    exit more, and every other count is as before. *)
Theorem spawn_exit_places_on_floor (w h : Z) (world : World) (g : RNG) :
  sound w h world -> 3 <= w -> 3 <= h ->
  exists world' g',
    spawn_exit world g = Ok (world', g')
    ∧ player_pos world' = player_pos world ∧ score world' = score world
    ∧ hp world' = hp world ∧ turn world' = turn world ∧ won world' = won world
    ∧ ((world' = set_message msg_exit_failed world ∧ after_draws 400 g g')
       ∨ exists x y,
           interior w h x y ∧ (x, y) ≠ player_pos world
           ∧ cell (grid world) x y = Some Floor
           ∧ grid world' = upd (grid world) x y Exit
           ∧ exit_spawned world' = true ∧ message world' = msg_exit_placed
           ∧ drew_at_most 400 g g'
           ∧ count_symbol (grid world') Floor = count_symbol (grid world) Floor - 1
           ∧ count_symbol (grid world') Exit = count_symbol (grid world) Exit + 1
           ∧ forall other, other ≠ Floor -> other ≠ Exit ->
               count_symbol (grid world') other = count_symbol (grid world) other).
Proof.
  intros Hsound Hw Hh.
  destruct (spawn_exit_spec w h world g (sound_shape _ _ _ Hsound) Hw Hh)
    as (world' & g' & Hrun & Hstep).
  exists world', g'. split; [exact Hrun |].
  destruct Hstep as [[-> Hd] | (x & y & k & Hi & Hp & Hc & -> & Hk & Hd)]; simpl.
  - repeat (split; [reflexivity |]). left. split; [reflexivity | exact Hd].
  - repeat (split; [reflexivity |]). right. exists x, y.
    split; [exact Hi |]. split; [exact Hp |]. split; [exact Hc |].
    split; [reflexivity |]. split; [reflexivity |]. split; [reflexivity |].
    split; [eapply after_draws_within; [exact Hd | lia] |].
    rewrite !(count_upd (grid world) x y Floor Exit _ Hc). unfold tick. simpl.
    split; [lia |]. split; [lia |].
    intros other Hnf Hne. rewrite (count_upd (grid world) x y Floor Exit other Hc).
    unfold tick. destruct (decide (Floor = other)); [congruence |].
    destruct (decide (Exit = other)); [congruence | lia].
Qed.

Lemma spawn_exit_places_on_floor_witness :
  let st := sample_after [up] in
  exists world' g',
    spawn_exit (fst st) (snd st) = Ok (world', g')
    ∧ player_pos world' = player_pos (fst st) ∧ score world' = score (fst st)
    ∧ hp world' = hp (fst st) ∧ turn world' = turn (fst st) ∧ won world' = won (fst st)
    ∧ ((world' = set_message msg_exit_failed (fst st) ∧ after_draws 400 (snd st) g')
       ∨ exists x y,
           interior 6 6 x y ∧ (x, y) ≠ player_pos (fst st)
           ∧ cell (grid (fst st)) x y = Some Floor
           ∧ grid world' = upd (grid (fst st)) x y Exit
           ∧ exit_spawned world' = true ∧ message world' = msg_exit_placed
           ∧ drew_at_most 400 (snd st) g'
           ∧ count_symbol (grid world') Floor = count_symbol (grid (fst st)) Floor - 1
           ∧ count_symbol (grid world') Exit = count_symbol (grid (fst st)) Exit + 1
           ∧ forall other, other ≠ Floor -> other ≠ Exit ->
               count_symbol (grid world') other = count_symbol (grid (fst st)) other).
Proof.
  intros st.
  apply (spawn_exit_places_on_floor 6 6 (fst st) (snd st)); try lia.
  apply reachable_sound. apply sample_after_reachable. vm_compute. reflexivity.
Defined.

(** X19. The two spawning routines need a grid with an interior. Called
    on a rectangular grid less than 3 wide or less than 3 high,
    [spawn_exit] raises [ValueError] at its first attempt (the range of
    [randrange] is empty), and so does [maybe_spawn] whenever its roll
    selects a placement; on a grid without rows both raise [IndexError].
    When the exit has spawned, or the roll selects nothing, [maybe_spawn]
    returns the world unchanged on any grid. *)
Theorem spawning_needs_interior (w h : Z) (world : World) (g : RNG) :
  (shape w h (grid world) -> 1 <= w -> 1 <= h -> w <= 2 ∨ h <= 2 ->
     spawn_exit world g = Raise ValueError
     ∧ (exit_spawned world = false -> below (roll_of g) high_threshold = true ->
          maybe_spawn world g = Raise ValueError))
  ∧ (grid world = [] ->
       spawn_exit world g = Raise IndexError
       ∧ (exit_spawned world = false -> below (roll_of g) high_threshold = true ->
            maybe_spawn world g = Raise IndexError))
  ∧ (exit_spawned world = true -> maybe_spawn world g = Ok (world, g))
  ∧ (exit_spawned world = false -> below (roll_of g) high_threshold = false ->
       maybe_spawn world g = Ok (world, advance g)).
Proof.
  assert (Hlow : below (roll_of g) high_threshold = false ->
                 below (roll_of g) low_threshold = false).
  { unfold below, low_threshold, high_threshold.
    rewrite !negb_false_iff. unfold Qle_bool. simpl.
    rewrite !Z.leb_le. lia. }
  split; [| split; [| split]].
  - intros Hs Hw Hh Hsmall.
    destruct (shape_row0 w h (grid world) Hs Hh) as (row0 & Hrow0 & Hlen0 & _).
    assert (Hlen : len (grid world) = h) by (destruct Hs; assumption).
    assert (Hloop : forall (fuel : nat) g0,
              spawn_exit_loop (S fuel) w h world g0 = Raise ValueError).
    { intros fuel g0. cbn [spawn_exit_loop].
      destruct (Z_le_gt_dec w 2) as [Hw2|Hw2].
      - apply bind_raise. apply randrange_empty. lia.
      - destruct (randrange_ok 1 (w - 1) g0) as (x & Hx & _); [lia |].
        rewrite (bind_ok _ _ _ _ _ Hx). apply bind_raise. apply randrange_empty. lia. }
    assert (Hmloop : forall symbol (fuel : nat) g0,
              maybe_spawn_loop (S fuel) w h symbol world g0 = Raise ValueError).
    { intros symbol fuel g0. cbn [maybe_spawn_loop].
      destruct (Z_le_gt_dec w 2) as [Hw2|Hw2].
      - apply bind_raise. apply randrange_empty. lia.
      - destruct (randrange_ok 1 (w - 1) g0) as (x & Hx & _); [lia |].
        rewrite (bind_ok _ _ _ _ _ Hx). apply bind_raise. apply randrange_empty. lia. }
    split.
    + unfold spawn_exit. rewrite (bind_ok _ _ _ _ _ (lift_ok _ _ _ Hrow0)).
      rewrite Hlen0, Hlen. apply (Hloop 199%nat).
    + intros Hflag Hroll. unfold maybe_spawn. rewrite Hflag.
      assert (Hr : random g = Ok (roll_of g, advance g)) by reflexivity.
      rewrite (bind_ok _ _ _ _ _ Hr).
      destruct (below (roll_of g) low_threshold).
      * rewrite (bind_ok _ _ _ _ _ (lift_ok _ _ _ Hrow0)). rewrite Hlen0, Hlen.
        apply (Hmloop Treasure 59%nat).
      * rewrite Hroll. rewrite (bind_ok _ _ _ _ _ (lift_ok _ _ _ Hrow0)).
        rewrite Hlen0, Hlen. apply (Hmloop Trap 59%nat).
  - intros Hempty. split.
    + unfold spawn_exit. rewrite Hempty. reflexivity.
    + intros Hflag Hroll. unfold maybe_spawn. rewrite Hflag, Hempty.
      assert (Hr : random g = Ok (roll_of g, advance g)) by reflexivity.
      rewrite (bind_ok _ _ _ _ _ Hr).
      destruct (below (roll_of g) low_threshold); [reflexivity |].
      rewrite Hroll. reflexivity.
  - apply maybe_spawn_off.
  - intros Hflag Hroll. unfold maybe_spawn. rewrite Hflag.
    assert (Hr : random g = Ok (roll_of g, advance g)) by reflexivity.
    rewrite (bind_ok _ _ _ _ _ Hr). rewrite (Hlow Hroll), Hroll. reflexivity.
Qed.

Lemma spawning_needs_interior_witness :
  spawn_exit tiny_world zero_rng = Raise ValueError
  ∧ maybe_spawn tiny_world zero_rng = Raise ValueError.
Proof.
  destruct (proj1 (spawning_needs_interior 2 2 tiny_world zero_rng)) as [Hexit Hspawn].
  - split; [reflexivity |]. repeat constructor.
  - lia.
  - lia.
  - left. lia.
  - split; [exact Hexit |]. apply Hspawn; reflexivity.
Defined.

(** X20. Whatever the step, even one of many cells, the candidate
    coordinate of a move on a reachable world lies inside the grid, so
    the cell that [try_move] reads exists and the read does not raise. *)
Theorem move_stays_in_grid (w h : Z) (world : World) (dx dy : Z) :
  reachable w h world ->
  in_bounds w h (fst (destination world dx dy)) (snd (destination world dx dy))
  ∧ candidate world dx dy = Ok (destination world dx dy)
  ∧ exists t,
      target world dx dy = Some t
      ∧ grid_get (grid world) (snd (destination world dx dy)) (fst (destination world dx dy))
        = Ok t.
Proof.
  intros Hreach.
  destruct (reachable_sound w h world Hreach) as [Hsound _].
  destruct (candidate_ok w h world dx dy (sound_shape _ _ _ Hsound)
              (sound_width _ _ _ Hsound) (sound_height _ _ _ Hsound)) as [Hcand Hb].
  split; [exact Hb |]. split; [exact Hcand |].
  destruct (grid_get_ok w h (grid world) _ _ (sound_shape _ _ _ Hsound) Hb)
    as (t & Hget & Hcell).
  exists t. split; [exact Hcell | exact Hget].
Qed.

Lemma move_stays_in_grid_witness :
  let world := fst sample_start in
  in_bounds 6 6 (fst (destination world 100 (-7))) (snd (destination world 100 (-7)))
  ∧ destination world 100 (-7) = (5, 0)
  ∧ target world 100 (-7) = Some Wall.
Proof.
  intros world.
  destruct (move_stays_in_grid 6 6 world 100 (-7) sample_start_reachable) as (Hb & _ & _).
  split; [exact Hb |]. split; vm_compute; reflexivity.
Defined.

(** ** The game loop *)

Lemma moves_entries (key : list N) (dir : Z * Z) :
  moves !! key = Some dir ->
  (key = str "z" ∧ dir = (0, -1)) ∨ (key = str "w" ∧ dir = (0, -1))
  ∨ (key = str "s" ∧ dir = (0, 1)) ∨ (key = str "q" ∧ dir = (-1, 0))
  ∨ (key = str "a" ∧ dir = (-1, 0)) ∨ (key = str "d" ∧ dir = (1, 0)).
Proof.
  intros Hlk. unfold moves in Hlk. apply elem_of_list_to_map_2 in Hlk.
  repeat (apply elem_of_cons in Hlk; destruct Hlk as [Hlk | Hlk];
          [injection Hlk as -> ->; tauto |]).
  apply elem_of_nil in Hlk. contradiction.
Qed.

(** On a grid of at least 3 by 3 the player of a reachable world stands
    off the border ring, so a step of one cell never needs the clamp. *)
Lemma unit_step_destination (w h : Z) (world : World) (dx dy : Z) :
  reachable w h world -> 3 <= w -> 3 <= h ->
  Z.abs dx + Z.abs dy = 1 ->
  destination world dx dy = (fst (player_pos world) + dx, snd (player_pos world) + dy).
Proof.
  intros Hreach Hw Hh Hunit.
  destruct (reachable_sound w h world Hreach) as [Hsound Hclear].
  destruct (Hclear Hw Hh) as (c & Hc & Hnw).
  pose proof (off_border w h (grid world) _ _ c (sound_border _ _ _ Hsound)
                (sound_player _ _ _ Hsound) Hc Hnw) as Hi.
  destruct (shape_row0 w h (grid world) (sound_shape _ _ _ Hsound)) as (_ & _ & _ & Hwid);
    [lia |].
  assert (Hlen : len (grid world) = h) by (destruct (sound_shape _ _ _ Hsound); assumption).
  unfold destination. rewrite Hwid, Hlen. unfold interior in Hi.
  rewrite !clamp_id by lia. reflexivity.
Qed.

(** X11. In a game of at least 3 by 3, while the player is alive and has
    not won, a line whose command is one of the six movement keys runs
    exactly one [try_move] in the direction of the key, a step of one
    cell along one axis; the clamp never acts, and afterwards the player
    stands either where it was (a wall) or on the neighbouring cell in
    that direction. *)
Theorem movement_key_steps_one_cell `{UnicodeData} (w h : Z) (world : World)
    (old : list World) (line : list N) (g : RNG) (dx dy : Z) :
  reachable w h world -> 3 <= w -> 3 <= h ->
  won world = false -> 0 < hp world ->
  moves !! parse_command line = Some (dx, dy) ->
  Z.abs dx + Z.abs dy = 1
  ∧ destination world dx dy = (fst (player_pos world) + dx, snd (player_pos world) + dy)
  ∧ exists world' g',
      try_move world dx dy g = Ok (world', g')
      ∧ game_loop_iter w h (mkLoop world old) line g = Ok (Continue (mkLoop world' old), g')
      ∧ (player_pos world' = player_pos world
         ∨ player_pos world' = (fst (player_pos world) + dx, snd (player_pos world) + dy)).
Proof.
  intros Hreach Hw Hh Hwon Hhp Hkey.
  assert (Hunit : Z.abs dx + Z.abs dy = 1).
  { destruct (moves_entries _ _ Hkey) as [[_ E]|[[_ E]|[[_ E]|[[_ E]|[[_ E]|[_ E]]]]]];
      injection E as -> ->; reflexivity. }
  pose proof (unit_step_destination w h world dx dy Hreach Hw Hh Hunit) as Hdest.
  split; [exact Hunit |]. split; [exact Hdest |].
  destruct (reachable_sound w h world Hreach) as [Hsound _].
  destruct (try_move_spec w h world dx dy g Hsound) as (world' & g' & Hrun & _).
  exists world', g'. split; [exact Hrun |]. split.
  - unfold game_loop_iter. simpl. rewrite Hwon.
    rewrite (bool_decide_eq_false_2 (hp world <= 0)) by lia.
    assert (Hnot : parse_command line ≠ str "x" ∧ parse_command line ≠ str "h"
                   ∧ parse_command line ≠ str "r").
    { destruct (moves_entries _ _ Hkey) as [[E _]|[[E _]|[[E _]|[[E _]|[[E _]|[E _]]]]]];
        rewrite E; repeat split; discriminate. }
    destruct Hnot as (Hx & Hhelp & Hr).
    rewrite (bool_decide_eq_false_2 _ Hx), (bool_decide_eq_false_2 _ Hhelp),
      (bool_decide_eq_false_2 _ Hr), Hkey.
    rewrite (bind_ok _ _ _ _ _ Hrun). reflexivity.
  - destruct (move_effect w h world dx dy g world' g' Hsound Hrun)
      as [(_ & -> & _) | (t & _ & _ & _ & _ & Hpos & _)].
    + left. reflexivity.
    + right. rewrite <- Hdest. exact Hpos.
Qed.

Lemma movement_key_steps_one_cell_witness :
  let st := sample_start in
  Z.abs 0 + Z.abs (-1) = 1
  ∧ destination (fst st) 0 (-1)
    = (fst (player_pos (fst st)) + 0, snd (player_pos (fst st)) + -1)
  ∧ exists world' g',
      try_move (fst st) 0 (-1) (snd st) = Ok (world', g')
      ∧ @game_loop_iter plain_table 6 6 (mkLoop (fst st) []) (str " Zut") (snd st)
        = Ok (Continue (mkLoop world' []), g')
      ∧ (player_pos world' = player_pos (fst st)
         ∨ player_pos world'
           = (fst (player_pos (fst st)) + 0, snd (player_pos (fst st)) + -1)).
Proof.
  intros st.
  apply (@movement_key_steps_one_cell plain_table 6 6 (fst st) [] (str " Zut") (snd st) 0 (-1)).
  - exact sample_start_reachable.
  - lia.
  - lia.
  - vm_compute. reflexivity.
  - vm_compute. reflexivity.
  - vm_compute. reflexivity.
Defined.

(** X12. The world the loop holds is always one the theorems speak of:
    [game_loop] starts on a reachable world, and an iteration on a
    reachable world returns for every input line, either leaving the
    loop with no random draw made, or going on with a reachable world
    again; the old world is dropped, untouched, exactly on a restart. *)
Theorem loop_keeps_reachable `{UnicodeData} (w h : Z) (s : Loop) (line : list N) (g : RNG) :
  (forall s0 g0, game_loop_start w h g = Ok (s0, g0) ->
                 reachable w h (world s0) ∧ dropped s0 = [])
  ∧ (reachable w h (world s) ->
     exists out g',
       game_loop_iter w h s line g = Ok (out, g')
       ∧ match out with
         | Return => g' = g
         | Continue s' =>
             reachable w h (world s')
             ∧ (dropped s' = dropped s
                ∨ (dropped s' = world s :: dropped s
                   ∧ build_world w h g = Ok (world s', g')))
         end).
Proof.
  split.
  - intros s0 g0. unfold game_loop_start, bind.
    destruct (build_world w h g) as [[fresh g1]|e] eqn:Hrun; [| discriminate].
    intros Heq. injection Heq as <- <-. simpl.
    split; [eapply reach_build; exact Hrun | reflexivity].
  - intros Hreach.
    destruct (reachable_sound w h (world s) Hreach) as [Hsound _].
    destruct (DungeonSpec.restart_returns w h s g (sound_width _ _ _ Hsound) (sound_height _ _ _ Hsound))
      as (fresh & g1 & Hbuild & Hrestart).
    assert (Hrest : exists out g',
               restart w h s g = Ok (out, g')
               ∧ match out with
                 | Return => g' = g
                 | Continue s' =>
                     reachable w h (world s')
                     ∧ (dropped s' = dropped s
                        ∨ (dropped s' = world s :: dropped s
                           ∧ build_world w h g = Ok (world s', g')))
                 end).
    { eexists _, g1. split; [exact Hrestart |]. simpl.
      split; [eapply reach_build; exact Hbuild | right; tauto]. }
    assert (Hquit : exists out g',
               ret Return g = Ok (out, g')
               ∧ match out with
                 | Return => g' = g
                 | Continue s' =>
                     reachable w h (world s')
                     ∧ (dropped s' = dropped s
                        ∨ (dropped s' = world s :: dropped s
                           ∧ build_world w h g = Ok (world s', g')))
                 end).
    { exists Return, g. split; reflexivity. }
    unfold game_loop_iter.
    destruct (won (world s)); [case_bool_decide; assumption |].
    case_bool_decide; [case_bool_decide; assumption |].
    case_bool_decide; [exact Hquit |].
    case_bool_decide.
    { eexists _, g. split; [reflexivity |]. simpl.
      split; [apply reach_message; exact Hreach | left; reflexivity]. }
    case_bool_decide; [exact Hrest |].
    destruct (moves !! parse_command line) as [[dx dy]|].
    + destruct (try_move_spec w h (world s) dx dy g Hsound) as (w' & g' & Hrun & _).
      rewrite (bind_ok _ _ _ _ _ Hrun). eexists _, g'. split; [reflexivity |]. simpl.
      split; [eapply reach_move; eassumption | left; reflexivity].
    + eexists _, g. split; [reflexivity |]. simpl.
      split; [apply reach_message; exact Hreach | left; reflexivity].
Qed.

Lemma loop_keeps_reachable_witness :
  let s := mkLoop (fst sample_start) [] in
  exists out g',
    @game_loop_iter plain_table 6 6 s (str "s") (snd sample_start) = Ok (out, g')
    ∧ match out with
      | Return => g' = snd sample_start
      | Continue s' =>
          reachable 6 6 (world s')
          ∧ (dropped s' = dropped s
             ∨ (dropped s' = world s :: dropped s
                ∧ build_world 6 6 (snd sample_start) = Ok (world s', g')))
      end.
Proof.
  intros s.
  apply (proj2 (@loop_keeps_reachable plain_table 6 6 s (str "s") (snd sample_start))).
  exact sample_start_reachable.
Defined.

(** X13. When health is at or below zero the game is over for that
    world: an iteration never calls [try_move], whatever the line; on
    [r] it restarts and on any other command, movement keys and [h]
    included, it leaves the loop. *)
Theorem lost_world_is_frozen `{UnicodeData} (w h : Z) (world : World) (old : list World)
    (line : list N) (g : RNG) :
  hp world <= 0 ->
  game_loop_iter w h (mkLoop world old) line g
  = (if bool_decide (parse_command line = str "r")
     then restart w h (mkLoop world old) g
     else Ok (Return, g))
  ∧ forall s' g',
      game_loop_iter w h (mkLoop world old) line g = Ok (Continue s', g') ->
      dropped s' = world :: old ∧ build_world w h g = Ok (Dungeon.world s', g').
Proof.
  intros Hhp.
  assert (Heq : game_loop_iter w h (mkLoop world old) line g
                = (if bool_decide (parse_command line = str "r")
                   then restart w h (mkLoop world old) g
                   else Ok (Return, g))).
  { unfold game_loop_iter. simpl.
    destruct (won world); [case_bool_decide; reflexivity |].
    rewrite (bool_decide_eq_true_2 (hp world <= 0)) by exact Hhp.
    case_bool_decide; reflexivity. }
  split; [exact Heq |].
  intros s' g' Hrun. rewrite Heq in Hrun.
  case_bool_decide; [| discriminate].
  unfold restart, bind in Hrun. simpl in Hrun.
  destruct (build_world w h g) as [[fresh g'']|e]; [| discriminate].
  injection Hrun as <- <-. split; reflexivity.
Qed.

Lemma lost_world_is_frozen_witness :
  let dead := set_hp 0 (fst sample_start) in
  @game_loop_iter plain_table 6 6 (mkLoop dead []) (str "z") (snd sample_start)
  = Ok (Return, snd sample_start).
Proof.
  intros dead.
  rewrite (proj1 (@lost_world_is_frozen plain_table 6 6 dead [] (str "z") (snd sample_start)
                    ltac:(vm_compute; discriminate))).
  reflexivity.
Defined.

(** ** Commands *)

Lemma lstrip_spaces_app (ws line : list N) :
  Forall (fun c => is_space c = true) ws -> lstrip (ws ++ line) = lstrip line.
Proof.
  induction 1 as [|c ws Hc _ IH]; [reflexivity |].
  simpl. rewrite Hc. exact IH.
Qed.

(** X14. [parse_command] ignores leading white space and the case of
    ASCII letters: leading white space can be removed without changing
    the command, a line of white space only gives the empty command, and
    a line that starts with an upper-case ASCII letter gives the same
    one-letter command as the line with that letter in lower case. *)
Theorem parse_command_normalises `{UnicodeData} :
  (forall ws line,
     Forall (fun c => is_space c = true) ws ->
     parse_command (ws ++ line) = parse_command line)
  ∧ (forall ws, Forall (fun c => is_space c = true) ws -> parse_command ws = [])
  ∧ (forall c rest rest',
       (65 <= c <= 90)%N ->
       parse_command (c :: rest) = [(c + 32)%N]
       ∧ parse_command ((c + 32)%N :: rest') = [(c + 32)%N]).
Proof.
  assert (Hlead : forall ws line,
            Forall (fun c => is_space c = true) ws ->
            parse_command (ws ++ line) = parse_command line).
  { intros ws line Hws. rewrite !parse_command_unfold. unfold strip.
    rewrite (lstrip_spaces_app ws line Hws). reflexivity. }
  split; [exact Hlead |]. split.
  - intros ws Hws. rewrite <- (app_nil_r ws). rewrite (Hlead ws [] Hws). reflexivity.
  - intros c rest rest' Hc. split.
    + assert (Hsp : is_space c = false).
      { unfold is_space. repeat (rewrite bool_decide_eq_false_2 by lia). reflexivity. }
      assert (Hl : lstrip (c :: rest) = c :: rest) by (simpl; rewrite Hsp; reflexivity).
      rewrite (proj1 (parse_command_head _ _ _ Hl)).
      unfold lower_char. rewrite bool_decide_eq_true_2 by lia. reflexivity.
    + apply parse_command_ascii_head.
      * unfold is_space. repeat (rewrite bool_decide_eq_false_2 by lia). reflexivity.
      * lia.
      * lia.
Qed.

Lemma parse_command_normalises_witness :
  @parse_command plain_table (str "   " ++ str "Droite") = @parse_command plain_table (str "Droite")
  ∧ @parse_command plain_table (str "Droite") = str "d".
Proof.
  destruct (@parse_command_normalises plain_table) as (Hlead & _ & Hcase).
  split.
  - apply Hlead. repeat constructor.
  - apply (proj1 (Hcase 68%N (str "roite") []
                    ltac:(lia))).
Defined.

(** ** Display *)

Lemma symbol_not_player (c : Cell) : symbol c ≠ player_glyph.
Proof. destruct c; discriminate. Qed.

(** X15. [render] clears the screen and prints three lines of header,
    one line per row of the grid and the message, in that order, without
    looking at anything but the world. In the rows, the token printed
    for column [x] of row [y] is the player's glyph if the player is at
    [(x, y)] and the symbol of the cell otherwise: the glyph shows up at
    the player's coordinate and nowhere else, and hides the cell
    underneath. *)
Theorem render_overlays_player (world : World) :
  length (render world) = (length (grid world) + 5)%nat
  ∧ render world !! 0%nat = Some ClearScreen
  ∧ last (render world) = Some (Print ("
" +:+ message world))
  ∧ length (render_rows world) = length (grid world)
  ∧ (forall y row, grid world !! y = Some row ->
       exists tokens,
         render_rows world !! y = Some tokens
         ∧ render world !! (y + 4)%nat = Some (Print (join tokens))
         ∧ length tokens = length row
         ∧ forall x c, row !! x = Some c ->
             exists token,
               tokens !! x = Some token
               ∧ token = (if bool_decide ((Z.of_nat x, Z.of_nat y) = player_pos world)
                          then player_glyph else symbol c)
               ∧ (token = player_glyph <-> (Z.of_nat x, Z.of_nat y) = player_pos world)).
Proof.
  unfold render, render_rows.
  split; [| split; [| split; [| split]]].
  - cbn [app length]. rewrite length_app, length_fmap, length_imap. simpl. lia.
  - reflexivity.
  - rewrite app_assoc. apply last_snoc.
  - apply length_imap.
  - intros y row Hrow.
    exists (render_row (player_pos world) y row).
    split; [rewrite list_lookup_imap, Hrow; reflexivity |].
    split.
    { rewrite lookup_app_r by (simpl; lia).
      replace (y + 4 - _)%nat with y by (simpl; lia).
      rewrite lookup_app_l.
      - rewrite list_lookup_fmap, list_lookup_imap, Hrow. reflexivity.
      - rewrite length_fmap, length_imap. eapply lookup_lt_Some. exact Hrow. }
    split; [apply length_imap |].
    intros x c Hc. eexists. unfold render_row.
    split; [rewrite list_lookup_imap, Hc; reflexivity |].
    split; [reflexivity |].
    case_bool_decide as Hpos; [tauto |].
    split; [intros Heq; exfalso; exact (symbol_not_player c Heq) | contradiction].
Qed.

Lemma render_overlays_player_witness :
  let world := fst (sample_after [up; right; down; left; left; right; up]) in
  exists tokens,
    render_rows world !! 2%nat = Some tokens
    ∧ tokens = ["#"; "#"; "X"; player_glyph; "."; "#"]
    ∧ cell (grid world) 3 2 = Some Exit.
Proof.
  intros world.
  destruct (proj2 (proj2 (proj2 (proj2 (render_overlays_player world))))
              2%nat [Wall; Wall; Trap; Exit; Floor; Wall]
              ltac:(vm_compute; reflexivity))
    as (tokens & Hrow & _ & _ & _).
  exists tokens. split; [exact Hrow |].
  split; [| vm_compute; reflexivity].
  vm_compute in Hrow. injection Hrow as <-. reflexivity.
Defined.

End DungeonMore.

(* ===================================================================== *)
(** * Further properties of the quote client                              *)
(* ===================================================================== *)

Module TrumpQuoteMore.
Import TrumpQuote.

Section Script.
Context `{Runtime}.

Lemma get_quote_sent (net : Net) : snd (get_random_trump_quote net 0) = 1%nat.
Proof.
  unfold get_random_trump_quote.
  destruct (fetch (net 0%nat)) as [data|e].
  - destruct (get data "message") as [quote|e]; [| reflexivity].
    destruct (negb (truthy quote) || negb (is_str quote)); [reflexivity |].
    destruct quote; reflexivity.
  - destruct (is_URLError e); [reflexivity |].
    destruct (is_JSONDecodeError e); reflexivity.
Qed.

Lemma fetch_ok_inv (r : res Response) (data : pyobj) :
  fetch r = Ok data ->
  exists resp bytes text,
    r = Ok resp ∧ status resp = 200 ∧ read resp = Ok bytes
    ∧ decode_utf8 bytes = Ok text ∧ json_loads text = Ok data.
Proof.
  unfold fetch. destruct r as [resp|e]; [| discriminate].
  destruct (status resp =? 200) eqn:Hst; simpl; [| discriminate].
  destruct (read resp) as [bytes|e] eqn:Hrd; [| discriminate].
  destruct (decode_utf8 bytes) as [text|e] eqn:Hdec; [| discriminate].
  intros Hjson. exists resp, bytes, text.
  apply Z.eqb_eq in Hst. tauto.
Qed.

(** X16. [get_random_trump_quote] returns a quote exactly when the
    response has status 200, its body decodes and parses to a JSON
    object, and the [message] of the object is a string that is not
    empty; the quote is that string, stripped. The emptiness test comes
    before the stripping, so a message of white space only is accepted. *)
Theorem quote_returned_iff (net : Net) (q : string) :
  fst (get_random_trump_quote net 0) = Ok q
  <-> exists resp bytes text d s,
        net 0%nat = Ok resp ∧ status resp = 200 ∧ read resp = Ok bytes
        ∧ decode_utf8 bytes = Ok text ∧ json_loads text = Ok (PDict d)
        ∧ assoc "message" d = Some (PStr s) ∧ s ≠ "" ∧ q = str_strip s.
Proof.
  split.
  - unfold get_random_trump_quote.
    destruct (fetch (net 0%nat)) as [data|e] eqn:Hfetch.
    + destruct (fetch_ok_inv _ _ Hfetch) as (resp & bytes & text & Hnet & Hst & Hrd & Hdec & Hjs).
      destruct data as [| | | | |l|d]; cbn [get fst]; try discriminate.
      destruct (assoc "message" d) as [quote|] eqn:Hassoc; [| discriminate].
      destruct quote as [|b|n|f|s|l|d'];
        try (cbn [is_str negb]; rewrite orb_true_r; discriminate).
      cbn [is_str negb truthy]. rewrite orb_false_r.
      destruct (String.eqb s "") eqn:Hempty; cbn [negb fst]; [discriminate |].
      intros Hq. injection Hq as <-.
      exists resp, bytes, text, d, s. apply String.eqb_neq in Hempty. tauto.
    + destruct (is_URLError e); [discriminate |].
      destruct (is_JSONDecodeError e); discriminate.
  - intros (resp & bytes & text & d & s & Hnet & Hst & Hrd & Hdec & Hjs & Hassoc & Hne & ->).
    unfold get_random_trump_quote, fetch.
    rewrite Hnet, Hst, Hrd, Hdec, Hjs. simpl. rewrite Hassoc. simpl.
    rewrite (proj2 (String.eqb_neq s "") Hne). reflexivity.
Qed.

End Script.

Lemma quote_returned_iff_witness :
  let net : Net := fun _ => Ok (mkResponse 200 (Ok [])) in
  fst (@get_random_trump_quote QuoteSamples.canned_runtime net 0) = Ok "Covfefe".
Proof.
  intros net.
  apply (proj2 (@quote_returned_iff QuoteSamples.canned_runtime net "Covfefe")).
  exists (mkResponse 200 (Ok [])), [], "", [("message", PStr " Covfefe ")], " Covfefe ".
  repeat (split; [reflexivity |]). split; [discriminate | reflexivity].
Defined.

(** The whole run on that stand-in: the header, then the quote between
    French quotation marks. *)
Example quote_run :
  @main QuoteSamples.canned_runtime reliable (fun _ => Ok (mkResponse 200 (Ok [])))
  = mkRun [ "🗨️ Citation aléatoire :
"; "“Covfefe”" ] 1 None.
Proof. vm_compute. reflexivity. Qed.

Section Outcomes.
Context `{Runtime}.

Lemma uncaught_comes_from_fetch (net : Net) (e : exn) :
  fst (get_random_trump_quote net 0) = Raise e -> is_Exception e = false ->
  fetch (net 0%nat) = Raise e.
Proof.
  unfold get_random_trump_quote. intros Hget Hexc.
  destruct (fetch (net 0%nat)) as [data|e'].
  - destruct (get data "message") as [quote|e''] eqn:Hg.
    + destruct (negb (truthy quote) || negb (is_str quote)).
      * injection Hget as <-. discriminate.
      * destruct quote; simpl in Hget;
          first [discriminate Hget | injection Hget as <-; discriminate].
    + injection Hget as <-. unfold get in Hg.
      destruct data; try (injection Hg as <-; discriminate).
      destruct (assoc "message" d); discriminate.
  - destruct (is_URLError e') eqn:Hurl; [injection Hget as <-; discriminate |].
    destruct (is_JSONDecodeError e') eqn:Hjs; [injection Hget as <-; discriminate |].
    injection Hget as <-. reflexivity.
Qed.

(** X17. A run of [main] sends one request, whatever the network and
    the output do, and ends in one of three ways:
    - the fetch returns a quote and the output takes the header and the
      quote: these two lines are printed and the run ends normally;
    - an exception [e] of class [Exception] is raised in the [try]
      block, by the fetch or by one of the two [print] calls, and the
      output takes the line [Erreur: e]: that line is the last one
      printed, after nothing, or after the header when it is the [print]
      of the quote that raised, and the run ends normally;
    - an exception leaves [main]: one raised in the [try] block that is
      outside [Exception], or the one that the [print] of the error line
      raises; nothing is printed but, possibly, the header.
    On an output that takes every line this leaves the header with the
    quote, one error line for a fetch that failed, or nothing printed
    when the fetch raises outside [Exception]. *)
Theorem main_outcomes (out : Stdout) (net : Net) :
  requests (main out net) = 1%nat
  ∧ ((exists q,
        fst (get_random_trump_quote net 0) = Ok q
        ∧ out 0%nat header = None ∧ out 1%nat (quote_line q) = None
        ∧ main out net = mkRun [ header; quote_line q ] 1 None)
     ∨ (exists pre calls e,
          raised_in_try out net pre calls e ∧ is_Exception e = true
          ∧ out calls (error_line e) = None
          ∧ main out net = mkRun (pre ++ [ error_line e ]) 1 None)
     ∨ (exists pre calls e e',
          raised_in_try out net pre calls e
          ∧ (is_Exception e = false ∧ e' = e
             ∨ is_Exception e = true ∧ out calls (error_line e) = Some e')
          ∧ main out net = mkRun pre 1 (Some e')))
  ∧ ((forall n s, out n s = None) ->
     (exists q, fst (get_random_trump_quote net 0) = Ok q
                ∧ main out net = mkRun [ header; quote_line q ] 1 None)
     ∨ (exists e, fst (get_random_trump_quote net 0) = Raise e
                  ∧ is_Exception e = true ∧ main out net = error_run e)
     ∨ (exists e, fetch (net 0%nat) = Raise e
                  ∧ is_Exception e = false ∧ main out net = mkRun [] 1 (Some e))).
Proof.
  pose proof (get_quote_sent net) as Hsent.
  pose proof (uncaught_comes_from_fetch net) as Hfetch.
  unfold main, main_except, raised_in_try, error_run.
  destruct (get_random_trump_quote net 0) as [[q|e] n]; simpl in Hsent; subst n;
    cbn [fst] in *.
  - split; [| split].
    + destruct (out 0%nat header) as [e|].
      * destruct (is_Exception e); [| reflexivity].
        destruct (out 1%nat (error_line e)); reflexivity.
      * destruct (out 1%nat (quote_line q)) as [e|]; [| reflexivity].
        destruct (is_Exception e); [| reflexivity].
        destruct (out 2%nat (error_line e)); reflexivity.
    + destruct (out 0%nat header) as [e|] eqn:Hhead.
      * assert (Hraised : exists q0, Ok q = Ok q0 ∧ Some e = Some e
                                     ∧ @nil string = [] ∧ 1%nat = 1%nat)
          by (exists q; tauto).
        destruct (is_Exception e) eqn:Hexc.
        -- destruct (out 1%nat (error_line e)) as [e'|] eqn:Hline.
           ++ right. right. exists [], 1%nat, e, e'.
              split; [right; left; exact Hraised |]. split; [| reflexivity].
              right. split; [exact Hexc | exact Hline].
           ++ right. left. exists [], 1%nat, e.
              split; [right; left; exact Hraised |]. tauto.
        -- right. right. exists [], 1%nat, e, e.
           split; [right; left; exact Hraised |]. split; [| reflexivity].
           left. split; [exact Hexc | reflexivity].
      * destruct (out 1%nat (quote_line q)) as [e|] eqn:Hquote.
        -- assert (Hraised : exists q0, Ok q = Ok q0 ∧ @None exn = None
                                        ∧ out 1%nat (quote_line q0) = Some e
                                        ∧ [ header ] = [ header ] ∧ 2%nat = 2%nat)
             by (exists q; tauto).
           destruct (is_Exception e) eqn:Hexc.
           ++ destruct (out 2%nat (error_line e)) as [e'|] eqn:Hline.
              ** right. right. exists [ header ], 2%nat, e, e'.
                 split; [right; right; exact Hraised |]. split; [| reflexivity].
                 right. split; [exact Hexc | exact Hline].
              ** right. left. exists [ header ], 2%nat, e.
                 split; [right; right; exact Hraised |]. tauto.
           ++ right. right. exists [ header ], 2%nat, e, e.
              split; [right; right; exact Hraised |]. split; [| reflexivity].
              left. split; [exact Hexc | reflexivity].
        -- left. exists q. tauto.
    + intros Hall. left. exists q. rewrite !Hall. split; reflexivity.
  - assert (Hraised : @Raise string e = Raise e ∧ @nil string = [] ∧ 0%nat = 0%nat) by tauto.
    split; [| split].
    + destruct (is_Exception e); [| reflexivity].
      destruct (out 0%nat (error_line e)); reflexivity.
    + destruct (is_Exception e) eqn:Hexc.
      * destruct (out 0%nat (error_line e)) as [e'|] eqn:Hline.
        -- right. right. exists [], 0%nat, e, e'.
           split; [left; exact Hraised |]. split; [| reflexivity].
           right. split; [exact Hexc | exact Hline].
        -- right. left. exists [], 0%nat, e. split; [left; exact Hraised |]. tauto.
      * right. right. exists [], 0%nat, e, e.
        split; [left; exact Hraised |]. split; [| reflexivity]. left. split; [exact Hexc | reflexivity].
    + intros Hall. destruct (is_Exception e) eqn:Hexc.
      * right. left. exists e. rewrite Hall. tauto.
      * right. right. exists e. split; [exact (Hfetch e eq_refl Hexc) | tauto].
Qed.

End Outcomes.

Lemma main_outcomes_witness :
  let net : Net := fun _ => Raise (URLError "timed out") in
  (exists q, fst (@get_random_trump_quote demo_runtime net 0) = Ok q
             ∧ @main demo_runtime reliable net = mkRun [ header; @quote_line q ] 1 None)
  ∨ (exists e, fst (@get_random_trump_quote demo_runtime net 0) = Raise e
               ∧ is_Exception e = true
               ∧ @main demo_runtime reliable net = @error_run demo_runtime e)
  ∨ (exists e, @fetch demo_runtime (net 0%nat) = Raise e
               ∧ is_Exception e = false
               ∧ @main demo_runtime reliable net = mkRun [] 1 (Some e)).
Proof.
  intros net.
  apply (proj2 (proj2 (@main_outcomes demo_runtime reliable net))).
  intros n s. reflexivity.
Defined.

(** Whole runs on the stand-in libraries. An interrupt during the
    request leaves [main] with nothing printed. *)
Example interrupted_run :
  @main demo_runtime reliable (fun _ => Raise BaseOnly) = mkRun [] 1 (Some BaseOnly).
Proof. vm_compute. reflexivity. Qed.

(** A quote that the output cannot encode: the header is printed, the
    [print] of the quote raises, and the error line follows the header. *)
Example unprintable_quote_run :
  @main QuoteSamples.canned_runtime
        (refuses 1 (Other "'utf-8' codec can't encode character: surrogates not allowed"))
        (fun _ => Ok (mkResponse 200 (Ok [])))
  = mkRun [ "🗨️ Citation aléatoire :
"; "Erreur: 'utf-8' codec can't encode character: surrogates not allowed" ] 1 None.
Proof. vm_compute. reflexivity. Qed.

(** An output encoded in ASCII lacks the characters of the header: the
    error line is printed alone, although the fetch returned a quote. *)
Example unprintable_header_run :
  @main QuoteSamples.canned_runtime ascii_output (fun _ => Ok (mkResponse 200 (Ok [])))
  = mkRun [ "Erreur: 'ascii' codec can't encode character" ] 1 None.
Proof. vm_compute. reflexivity. Qed.

End TrumpQuoteMore.
